(** * Supply-chain domain model: value objects and the Supplier aggregate

    A shallow embedding of the JavaScript sources

      - shared/domain/model/currency.js, money.js, email.js, uuid.js,
        supplier-id.js, product-id.js
      - the Supplier aggregate root

    together with the properties their specification states.

    JavaScript strings are sequences of UTF-16 code units, numbers are IEEE 754
    binary64 values, exceptions are an explicit result type, and the two
    mutators of the aggregate are state transformers on the Supplier record.

    The file has three parts: the model, facts about the model, and the
    claims C1 to C10. *)

From Stdlib Require Import ZArith NArith List Bool Lia String Ascii Zpower.
From Stdlib Require Strings.Byte.
From Stdlib Require Import SpecFloat.
Import ListNotations.

Local Open Scope Z_scope.

(** ** Strings *)

Module JsString.

(** A string is the list of its UTF-16 code units. *)
Definition jsstring := list N.

(** Embeds an ASCII literal. *)
Definition lit (s : string) : jsstring :=
  List.map N_of_ascii (list_ascii_of_string s).

Definition eqb (a b : jsstring) : bool :=
  if list_eq_dec N.eq_dec a b then true else false.

(** [s.length] *)
Definition length (s : jsstring) : Z := Z.of_nat (List.length s).

(** WhiteSpace and LineTerminator code points: what [\s] matches and what
    string-to-number conversion trims. *)
Definition is_space (c : N) : bool :=
  ((9 <=? c) && (c <=? 13) || (c =? 32) || (c =? 160) || (c =? 5760)
   || (8192 <=? c) && (c <=? 8202) || (c =? 8232) || (c =? 8233)
   || (c =? 8239) || (c =? 8287) || (c =? 12288) || (c =? 65279))%N.

Definition is_digit (c : N) : bool := ((48 <=? c) && (c <=? 57))%N.

End JsString.

Import JsString.

(** ** Regular expressions

    The two patterns of the sources are anchored at both ends and use only
    character classes, concatenation, alternation and repetition, so
    [RegExp.prototype.test] is a whole-string match, decided here with
    derivatives. *)

Module Regex.

Inductive regex :=
| Void
| Eps
| Class (p : N -> bool)
| Cat (r1 r2 : regex)
| Alt (r1 r2 : regex)
| Star (r : regex).

(** [r+] *)
Definition Plus (r : regex) : regex := Cat r (Star r).

(** [r{n}] *)
Fixpoint Rep (n : nat) (r : regex) : regex :=
  match n with
  | O => Eps
  | S k => Cat r (Rep k r)
  end.

(** A literal character. *)
Definition Chr (c : N) : regex := Class (N.eqb c).

Fixpoint nullable (r : regex) : bool :=
  match r with
  | Void => false
  | Eps => true
  | Class _ => false
  | Cat r1 r2 => nullable r1 && nullable r2
  | Alt r1 r2 => nullable r1 || nullable r2
  | Star _ => true
  end.

Fixpoint deriv (c : N) (r : regex) : regex :=
  match r with
  | Void => Void
  | Eps => Void
  | Class p => if p c then Eps else Void
  | Cat r1 r2 =>
      if nullable r1 then Alt (Cat (deriv c r1) r2) (deriv c r2)
      else Cat (deriv c r1) r2
  | Alt r1 r2 => Alt (deriv c r1) (deriv c r2)
  | Star r1 => Cat (deriv c r1) (Star r1)
  end.

Fixpoint test (r : regex) (s : jsstring) : bool :=
  match s with
  | [] => nullable r
  | c :: t => test (deriv c r) t
  end.

(** The language of a pattern, to reason about [test] compositionally. *)
Inductive matches : regex -> jsstring -> Prop :=
| MEps : matches Eps []
| MClass p c : p c = true -> matches (Class p) [c]
| MCat r1 r2 s1 s2 : matches r1 s1 -> matches r2 s2 -> matches (Cat r1 r2) (s1 ++ s2)
| MAltL r1 r2 s : matches r1 s -> matches (Alt r1 r2) s
| MAltR r1 r2 s : matches r2 s -> matches (Alt r1 r2) s
| MStarNil r : matches (Star r) []
| MStarCons r s1 s2 : matches r s1 -> matches (Star r) s2 -> matches (Star r) (s1 ++ s2).

End Regex.

Import Regex.

(** ** Numbers

    A JavaScript number is an IEEE 754 binary64 value: [spec_float] with a
    53-bit significand.  Arithmetic is the correctly rounded arithmetic of
    [SpecFloat]; the conversions between numbers and strings follow ECMAScript
    ([Number.prototype.toFixed], [Number::toString], [StringToNumber]). *)

Module JsNumber.

Definition prec : Z := 53.
Definition emax : Z := 1024.

Definition number := spec_float.

(** The well-formed binary64 values. *)
Definition is_double (x : number) : bool := valid_binary prec emax x.

Definition zero : number := S754_zero false.

(** An integer literal of the source text. *)
Definition of_Z (z : Z) : number := binary_normalize prec emax z 0 false.

Definition add (x y : number) : number := SFadd prec emax x y.
Definition mul (x y : number) : number := SFmul prec emax x y.
(** [x < y] and [x === y] on numbers. *)
Definition ltb (x y : number) : bool := SFltb x y.
Definition strict_eqb (x y : number) : bool := SFeqb x y.

Definition is_finite (x : number) : bool :=
  match x with
  | S754_zero _ | S754_finite _ _ _ => true
  | _ => false
  end.

(** Identity of representations (distinguishes the two zeros). *)
Definition same (x y : number) : bool :=
  match x, y with
  | S754_zero a, S754_zero b => Bool.eqb a b
  | S754_infinity a, S754_infinity b => Bool.eqb a b
  | S754_nan, S754_nan => true
  | S754_finite a m e, S754_finite b m' e' => Bool.eqb a b && (m =? m')%positive && (e =? e')
  | _, _ => false
  end.

(** The magnitude of a finite number as a fraction [mag_num / mag_den]. *)
Definition mag_num (x : number) : Z :=
  match x with
  | S754_finite _ m e => Zpos m * 2 ^ Z.max e 0
  | _ => 0
  end.

Definition mag_den (x : number) : Z :=
  match x with
  | S754_finite _ _ e => 2 ^ Z.max (- e) 0
  | _ => 1
  end.

(** The number nearest to the fraction [n / d] (ties to even), with the given
    sign; [0 <= n] and [0 < d]. *)
Definition round_ratio (neg : bool) (n d : Z) : number :=
  if n =? 0 then S754_zero neg
  else
    let '(q, e, l) := SFdiv_core_binary prec emax n 0 d 0 in
    binary_round_aux prec emax neg q e l.

(** The number denoted by the decimal literal [m * 10^e]. *)
Definition of_decimal (neg : bool) (m e : Z) : number :=
  if 0 <=? e then round_ratio neg (m * 10 ^ e) 1
  else round_ratio neg m (10 ^ (- e)).

(** *** Decimal digits *)

Definition digit_char (d : Z) : N := Z.to_N (48 + d).
Definition digit_val (c : N) : Z := Z.of_N c - 48.

Fixpoint digits_aux (fuel : nat) (n : Z) (acc : jsstring) : jsstring :=
  match fuel with
  | O => acc
  | S f =>
      if n <? 10 then digit_char n :: acc
      else digits_aux f (n / 10) (digit_char (n mod 10) :: acc)
  end.

(** The decimal representation of [n >= 0], without leading zeros. *)
Definition digits (n : Z) : jsstring :=
  digits_aux (S (Z.to_nat (Z.log2 n))) n [].

Fixpoint val_aux (acc : Z) (s : jsstring) : Z :=
  match s with
  | [] => acc
  | c :: t => val_aux (10 * acc + digit_val c) t
  end.

(** The integer spelled by a string of decimal digits. *)
Definition val (s : jsstring) : Z := val_aux 0 s.

Definition zeros (n : Z) : jsstring := repeat 48%N (Z.to_nat n).

(** *** Number::toString *)

Fixpoint lead_zeros (fuel : nat) (n d : Z) : Z :=
  match fuel with
  | O => 0
  | S f => if d <=? 10 * n then 0 else 1 + lead_zeros f (10 * n) d
  end.

(** The decimal exponent [k] of [n / d > 0]: [10^(k-1) <= n / d < 10^k]. *)
Definition dec_exponent (n d : Z) : Z :=
  if d <=? n then Z.of_nat (List.length (digits (n / d)))
  else - lead_zeros 400 n d.

(** Looks for the shortest digit string [s] (of [k] digits, [k] growing from
    its start value) and exponent [t] with [s * 10^t] rounding to [x]; of two
    candidates of the same length the one nearer to [x] is taken.  When the
    fuel runs out the exact expansion of [x] is returned. *)
Fixpoint shortest_aux (fuel : nat) (x : number) (n d e k : Z) : Z * Z :=
  match fuel with
  | O => (n * 5 ^ Z.log2 d, - Z.log2 d)
  | S f =>
      let t := e - k in
      let a := if 0 <=? t then n else n * 10 ^ (- t) in
      let b := if 0 <=? t then d * 10 ^ t else d in
      let lo := a / b in
      let hi := if lo + 1 =? 10 ^ k then (10 ^ (k - 1), t + 1) else (lo + 1, t) in
      let ok_lo := same (of_decimal false lo t) x in
      let ok_hi := same (of_decimal false (fst hi) (snd hi)) x in
      if ok_lo && (negb ok_hi || (2 * a <=? (2 * lo + 1) * b)) then (lo, t)
      else if ok_hi then hi
      else shortest_aux f x n d e (k + 1)
  end.

(** Digits and power of ten chosen for a positive finite [x]. *)
Definition shortest (x : number) : Z * Z :=
  let n := mag_num x in
  let d := mag_den x in
  shortest_aux 17 x n d (dec_exponent n d) 1.

(** Lays out the digits [s] with decimal exponent [n] ([s * 10^(n-k)], [k] the
    number of digits). *)
Definition layout (s n : Z) : jsstring :=
  let ds := digits s in
  let k := JsString.length ds in
  if (k <=? n) && (n <=? 21) then ds ++ zeros (n - k)
  else if (0 <? n) && (n <=? 21) then
    firstn (Z.to_nat n) ds ++ lit "." ++ skipn (Z.to_nat n) ds
  else if (-6 <? n) && (n <=? 0) then lit "0." ++ zeros (- n) ++ ds
  else
    let e := n - 1 in
    let sign := if e <? 0 then lit "-" else lit "+" in
    match ds with
    | [] => []
    | c :: [] => c :: lit "e" ++ sign ++ digits (Z.abs e)
    | c :: rest => c :: lit "." ++ rest ++ lit "e" ++ sign ++ digits (Z.abs e)
    end.

Definition Number_toString (x : number) : jsstring :=
  match x with
  | S754_nan => lit "NaN"
  | S754_zero _ => lit "0"
  | S754_infinity s => if s then lit "-Infinity" else lit "Infinity"
  | S754_finite s m e =>
      let '(c, t) := shortest (S754_finite false m e) in
      (if s then lit "-" else []) ++ layout c (t + JsString.length (digits c))
  end.

(** *** Number.prototype.toFixed *)

Definition toFixed (x : number) (f : nat) : jsstring :=
  match x with
  | S754_nan => lit "NaN"
  | S754_infinity s => if s then lit "-Infinity" else lit "Infinity"
  | _ =>
      let sign := if ltb x zero then lit "-" else [] in
      let n := mag_num x in
      let d := mag_den x in
      if 10 ^ 21 * d <=? n then sign ++ Number_toString (SFabs x)
      else
        let r := (2 * n * 10 ^ Z.of_nat f + d) / (2 * d) in
        let m := digits r in
        let m := zeros (Z.of_nat f + 1 - JsString.length m) ++ m in
        let k := List.length m in
        sign ++
          match f with
          | O => m
          | _ => firstn (k - f) m ++ lit "." ++ skipn (k - f) m
          end
  end.

(** *** StringToNumber: [Number(s)] for a string [s]

    The literal is converted with correct rounding, whatever its number of
    significant digits. *)

Fixpoint span (p : N -> bool) (s : jsstring) : jsstring * jsstring :=
  match s with
  | [] => ([], [])
  | c :: t =>
      if p c then let '(a, b) := span p t in (c :: a, b) else ([], s)
  end.

Fixpoint drop_spaces (s : jsstring) : jsstring :=
  match s with
  | [] => []
  | c :: t => if is_space c then drop_spaces t else s
  end.

Definition trim (s : jsstring) : jsstring :=
  rev (drop_spaces (rev (drop_spaces s))).

Definition parse_sign (s : jsstring) : bool * jsstring :=
  match s with
  | 45%N :: t => (true, t)
  | 43%N :: t => (false, t)
  | _ => (false, s)
  end.

(** An optional ExponentPart followed by the end of the input. *)
Definition parse_exponent (s : jsstring) : option Z :=
  match s with
  | [] => Some 0
  | c :: t =>
      if ((c =? 101) || (c =? 69))%N then
        let '(neg, u) := parse_sign t in
        match span is_digit u with
        | ((_ :: _) as ds, []) => Some (if neg then - val ds else val ds)
        | _ => None
        end
      else None
  end.

(** StrUnsignedDecimalLiteral. *)
Definition parse_decimal (neg : bool) (u : jsstring) : number :=
  if JsString.eqb u (lit "Infinity") then S754_infinity neg
  else
    let '(ip, r1) := span is_digit u in
    let '(fp, r2) :=
      match r1 with
      | 46%N :: r => span is_digit r
      | _ => ([], r1)
      end in
    match ip ++ fp with
    | [] => S754_nan
    | ds =>
        match parse_exponent r2 with
        | Some e => of_decimal neg (val ds) (e - JsString.length fp)
        | None => S754_nan
        end
    end.

(** NonDecimalIntegerLiteral: digits in radix 2, 8 or 16. *)
Definition radix_digit (radix : Z) (c : N) : option Z :=
  let v :=
    if is_digit c then Z.of_N c - 48
    else if ((97 <=? c) && (c <=? 102))%N then Z.of_N c - 87
    else if ((65 <=? c) && (c <=? 70))%N then Z.of_N c - 55
    else radix in
  if v <? radix then Some v else None.

Fixpoint parse_radix (radix : Z) (acc : Z) (s : jsstring) : option Z :=
  match s with
  | [] => Some acc
  | c :: t =>
      match radix_digit radix c with
      | Some v => parse_radix radix (radix * acc + v) t
      | None => None
      end
  end.

Definition non_decimal_prefix (s : jsstring) : option (Z * jsstring) :=
  match s with
  | 48%N :: c :: r =>
      if ((c =? 120) || (c =? 88))%N then Some (16, r)
      else if ((c =? 111) || (c =? 79))%N then Some (8, r)
      else if ((c =? 98) || (c =? 66))%N then Some (2, r)
      else None
  | _ => None
  end.

Definition StringToNumber (s : jsstring) : number :=
  match trim s with
  | [] => zero
  | t =>
      match non_decimal_prefix t with
      | Some (radix, r) =>
          match r, parse_radix radix 0 r with
          | _ :: _, Some v => round_ratio false v 1
          | _, _ => S754_nan
          end
      | None => let '(neg, u) := parse_sign t in parse_decimal neg u
      end
  end.

End JsNumber.

Import JsNumber.

(** *** Decimal literals

    The shapes of the literals that [toFixed] and [Number::toString] lay out,
    to state what [StringToNumber] reads back. *)

Definition all_digits (s : jsstring) : Prop := Forall (fun c => is_digit c = true) s.

(** The characters of a decimal literal laid out by [toFixed] or
    [Number::toString]: digits, the point, [e] and [+]. *)
Definition plain (c : N) : bool :=
  is_digit c || (c =? 46)%N || (c =? 101)%N || (c =? 43)%N.

Definition stops (s : jsstring) : Prop :=
  match s with
  | [] => True
  | c :: _ => is_digit c = false
  end.

(** The optional fraction and the optional positive exponent of a literal. *)
Inductive fraction : jsstring -> jsstring -> Prop :=
| no_fraction : fraction [] []
| some_fraction fp : all_digits fp -> fraction (46%N :: fp) fp.

Inductive exponent : jsstring -> Z -> Prop :=
| no_exponent : exponent [] 0
| some_exponent ex : all_digits ex -> ex <> [] -> exponent (101%N :: 43%N :: ex) (val ex).

(** ** Errors and values *)

(** Modelled from the spec: errors.js is not among the sources.  ValidationError
    is the single failure kind of the model (section 7); it carries its
    message. *)
Inductive error :=
| ValidationError (message : jsstring).

Inductive result (A : Type) :=
| Ok (a : A)
| Throw (e : error).

Arguments Ok {A} a.
Arguments Throw {A} e.

(** The instances of the four value-object classes.  Their fields are private
    and assigned only by the constructor, so an instance is the record of its
    fields. *)
Record Currency := { Currency_code : jsstring }.
Record Money := { Money_amount : number; Money_currency : Currency }.
Record SupplierId := { SupplierId_value : jsstring }.
Record ProductId := { ProductId_value : jsstring }.

(** The values a caller can pass: the primitives, the instances of the classes
    above, and any other object, which the code below can only observe through
    its conversion to a string. *)
Inductive value :=
| VUndefined
| VNull
| VBoolean (b : bool)
| VNumber (x : number)
| VString (s : jsstring)
| VCurrency (c : Currency)
| VMoney (m : Money)
| VSupplierId (i : SupplierId)
| VProductId (p : ProductId)
| VObject (str : jsstring).

Definition is_null (v : value) : bool :=
  match v with VNull => true | _ => false end.

Definition is_undefined (v : value) : bool :=
  match v with VUndefined => true | _ => false end.

(** [typeof v === 'string'] *)
Definition typeof_string (v : value) : bool :=
  match v with VString _ => true | _ => false end.

Definition ToBoolean (v : value) : bool :=
  match v with
  | VUndefined | VNull => false
  | VBoolean b => b
  | VNumber x =>
      match x with
      | S754_zero _ | S754_nan => false
      | _ => true
      end
  | VString s => negb (JsString.eqb s [])
  | _ => true
  end.

(** [!v]: always a boolean primitive. *)
Definition js_not (v : value) : value := VBoolean (negb (ToBoolean v)).

Definition instanceof_Currency (v : value) : bool :=
  match v with VCurrency _ => true | _ => false end.
Definition instanceof_Money (v : value) : bool :=
  match v with VMoney _ => true | _ => false end.

(** [Money.prototype.toString] *)
Definition Money_toString (this : Money) : jsstring :=
  Currency_code (Money_currency this) ++ lit " " ++ toFixed (Money_amount this) 2.

(** The conversion used by template literals and by [RegExp.prototype.test]. *)
Definition ToString (v : value) : jsstring :=
  match v with
  | VUndefined => lit "undefined"
  | VNull => lit "null"
  | VBoolean b => if b then lit "true" else lit "false"
  | VNumber x => Number_toString x
  | VString s => s
  | VCurrency _ => lit "[object Object]"
  | VMoney m => Money_toString m
  | VSupplierId i => SupplierId_value i
  | VProductId p => ProductId_value p
  | VObject str => str
  end.

(** ** currency.js *)

Definition VALID_CODES : list jsstring := [lit "USD"; lit "EUR"; lit "GBP"; lit "JPY"].

(** [Currency.#VALID_CODES.includes(code)]: the array holds strings only. *)
Definition VALID_CODES_includes (code : value) : bool :=
  match code with
  | VString s => existsb (JsString.eqb s) VALID_CODES
  | _ => false
  end.

(** Past the guard [code] is one of the four strings, and [ToString] is the
    identity on it. *)
Definition Currency_new (code : value) : result Currency :=
  if negb (VALID_CODES_includes code) then
    Throw (ValidationError (lit "Invalid currency code: " ++ ToString code))
  else Ok {| Currency_code := ToString code |}.

Definition Currency_equals (this : Currency) (other : value) : bool :=
  match other with
  | VCurrency o => JsString.eqb (Currency_code this) (Currency_code o)
  | _ => false
  end.

(** ** money.js

    [Number.isFinite] holds of finite numbers only (no coercion), so the
    comparison with 0 and [toFixed] are reached with a number. *)

Definition Money_new (amount currency : value) : result Money :=
  match amount with
  | VNumber a =>
      if negb (is_finite a) || ltb a zero then
        Throw (ValidationError (lit "Amount must be a positive number"))
      else
        match currency with
        | VCurrency c =>
            Ok {| Money_amount := StringToNumber (toFixed a 2); Money_currency := c |}
        | _ => Throw (ValidationError (lit "Currency must be an instance of Currency"))
        end
  | _ => Throw (ValidationError (lit "Amount must be a positive number"))
  end.

Definition Money_add (this : Money) (other : value) : result Money :=
  match other with
  | VMoney o =>
      if negb (Currency_equals (Money_currency this) (VCurrency (Money_currency o))) then
        Throw (ValidationError (lit "Can only add Money with the same currency"))
      else
        Money_new (VNumber (add (Money_amount this) (Money_amount o)))
                  (VCurrency (Money_currency this))
  | _ => Throw (ValidationError (lit "Can only add Money with the same currency"))
  end.

Definition Money_multiply (this : Money) (multiplier : value) : result Money :=
  match multiplier with
  | VNumber k =>
      if negb (is_finite k) || ltb k zero then
        Throw (ValidationError (lit "Multiplier must be a positive number"))
      else
        Money_new (VNumber (mul (Money_amount this) k)) (VCurrency (Money_currency this))
  | _ => Throw (ValidationError (lit "Multiplier must be a positive number"))
  end.

Definition Money_equals (this : Money) (other : value) : bool :=
  match other with
  | VMoney o =>
      strict_eqb (Money_amount this) (Money_amount o)
      && Currency_equals (Money_currency this) (VCurrency (Money_currency o))
  | _ => false
  end.

(** ** email.js *)

(** [[^\s@]] *)
Definition email_char (c : N) : bool := negb (is_space c || (c =? 64)%N).

(** [/^[^\s@]+@[^\s@]+\.[^\s@]+$/] *)
Definition emailRegex : regex :=
  Cat (Plus (Class email_char))
      (Cat (Chr 64) (Cat (Plus (Class email_char)) (Cat (Chr 46) (Plus (Class email_char))))).

Definition isValidEmail (email : value) : bool := test emailRegex (ToString email).

(** ** uuid.js *)

Module Uuid.

Import Stdlib.Strings.Byte.

Definition in_range (lo hi c : N) : bool := ((lo <=? c) && (c <=? hi))%N.

(** Case folding of the [i] flag, on the ASCII letters. *)
Definition fold_case (c : N) : N := if in_range 97 122 c then (c - 32)%N else c.

(** [[0-9a-f]], [[1-8]] and [[89ab]] under the [i] flag. *)
Definition hex_class (c : N) : bool :=
  in_range 48 57 c || in_range 97 102 c || in_range 65 70 c.
Definition version_class (c : N) : bool := in_range 49 56 c.
Definition variant_class (c : N) : bool :=
  ((c =? 56) || (c =? 57) || (c =? 97) || (c =? 98) || (c =? 65) || (c =? 66))%N.

Fixpoint StrCI (s : jsstring) : regex :=
  match s with
  | [] => Eps
  | c :: t => Cat (Class (fun x => (fold_case x =? fold_case c)%N)) (StrCI t)
  end.

Definition dash : regex := Chr 45.
Definition hex (n : nat) : regex := Rep n (Class hex_class).

(** Modelled from the spec: the [uuid] package wrapped by uuid.js is not among
    the sources.  The specification asks for a "syntactically valid UUID"; this
    is the pattern of the package's [validate], with the [i] flag: eight, four,
    four, four and twelve hexadecimal digits separated by dashes, the third
    group starting with a version digit [[1-8]] and the fourth with a variant
    digit [[89ab]], or the nil UUID (all zeros), or the max UUID (all [f]). *)
Definition REGEX : regex :=
  Alt (Cat (hex 8) (Cat dash (Cat (hex 4) (Cat dash
        (Cat (Class version_class) (Cat (hex 3) (Cat dash
          (Cat (Class variant_class) (Cat (hex 3) (Cat dash (hex 12)))))))))))
      (Alt (StrCI (lit "00000000-0000-0000-0000-000000000000"))
           (StrCI (lit "ffffffff-ffff-ffff-ffff-ffffffffffff"))).

Definition hex_char (n : N) : N := if (n <? 10)%N then (48 + n)%N else (87 + n)%N.

Definition byteToHex (b : byte) : jsstring :=
  [hex_char (to_N b / 16); hex_char (to_N b mod 16)].

Definition byte_of_N (n : N) : byte :=
  match of_N n with
  | Some b => b
  | None => x00
  end.

Definition at_ (arr : list byte) (i : nat) : byte := nth i arr x00.

Definition set_at (arr : list byte) (i : nat) (b : byte) : list byte :=
  if (i <? List.length arr)%nat then firstn i arr ++ b :: skipn (S i) arr else arr.

(** The package's [unsafeStringify]: lower-case hexadecimal in groups of
    4, 2, 2, 2 and 6 bytes. *)
Definition stringify (arr : list byte) : jsstring :=
  let h := fun i => byteToHex (at_ arr i) in
  h 0%nat ++ h 1%nat ++ h 2%nat ++ h 3%nat ++ lit "-" ++
  h 4%nat ++ h 5%nat ++ lit "-" ++
  h 6%nat ++ h 7%nat ++ lit "-" ++
  h 8%nat ++ h 9%nat ++ lit "-" ++
  h 10%nat ++ h 11%nat ++ h 12%nat ++ h 13%nat ++ h 14%nat ++ h 15%nat.

(** Modelled from the spec: the package's [v4], "a freshly generated random
    UUID".  [rng i] is the i-th byte delivered by the random source; sixteen
    are drawn, then the version and variant bits of RFC 4122 are set:
    [rnds[6] = (rnds[6] & 0x0f) | 0x40; rnds[8] = (rnds[8] & 0x3f) | 0x80]. *)
Definition v4 (rng : nat -> byte) : jsstring :=
  let rnds := List.map rng (seq 0 16) in
  let rnds := set_at rnds 6 (byte_of_N (N.lor (N.land (to_N (at_ rnds 6)) 15) 64)) in
  let rnds := set_at rnds 8 (byte_of_N (N.lor (N.land (to_N (at_ rnds 8)) 63) 128)) in
  stringify rnds.

(** Modelled from the spec: the package's [validate]. *)
Definition validate (uuid : value) : bool :=
  typeof_string uuid && test REGEX (ToString uuid).

End Uuid.

Definition generateUUID (rng : nat -> Byte.byte) : jsstring := Uuid.v4 rng.

Definition isValidUUID (v : value) : bool := Uuid.validate v.

(** ** supplier-id.js and product-id.js *)

(** Past the guard [v] is a string, and [ToString] is the identity on it. *)
Definition SupplierId_new (v : value) : result SupplierId :=
  if negb (isValidUUID v) then
    Throw (ValidationError (lit "Invalid SupplierId: " ++ ToString v))
  else Ok {| SupplierId_value := ToString v |}.

Definition SupplierId_toString (this : SupplierId) : jsstring := SupplierId_value this.

Definition SupplierId_equals (this : SupplierId) (other : value) : bool :=
  match other with
  | VSupplierId o => JsString.eqb (SupplierId_value this) (SupplierId_value o)
  | _ => false
  end.

Definition SupplierId_generate (rng : nat -> Byte.byte) : result SupplierId :=
  SupplierId_new (VString (generateUUID rng)).

Definition ProductId_new (v : value) : result ProductId :=
  if negb (isValidUUID v) then
    Throw (ValidationError
             (lit "Invalid ProductId format: " ++ ToString v ++ lit ". Must be a valid UUID."))
  else Ok {| ProductId_value := ToString v |}.

Definition ProductId_generate (rng : nat -> Byte.byte) : result ProductId :=
  ProductId_new (VString (generateUUID rng)).

Definition ProductId_toString (this : ProductId) : jsstring := ProductId_value this.

Definition ProductId_equals (this : ProductId) (other : value) : bool :=
  match other with
  | VProductId o => JsString.eqb (ProductId_value this) (ProductId_value o)
  | _ => false
  end.

(** ** The Supplier aggregate *)

Record Supplier := {
  Supplier_id : SupplierId;
  Supplier_name : jsstring;
  Supplier_contactEmail : value;
  Supplier_lastOrderTotalPrice : value
}.

(** The object literal handed to the constructor; an absent property reads as
    [undefined]. *)
Record SupplierParams := {
  id : value;
  name : value;
  contactEmail : value;
  lastOrderTotalPrice : value
}.

(** A destructuring default: [x = null]. *)
Definition default_null (v : value) : value := if is_undefined v then VNull else v.

Definition Supplier_new (params : SupplierParams) : result Supplier :=
  let contactEmail := default_null (contactEmail params) in
  let lastOrderTotalPrice := default_null (lastOrderTotalPrice params) in
  match id params with
  | VSupplierId i =>
      match name params with
      | VString n =>
          if (JsString.length n <? 2) || (100 <? JsString.length n) then
            Throw (ValidationError (lit "name must be a string between 2 and 100 characters"))
          else if negb (is_null contactEmail)
                  && (negb (typeof_string contactEmail) || negb (isValidEmail contactEmail)) then
            Throw (ValidationError (lit "contactEmail must be a valid email address or null"))
          else if negb (is_null lastOrderTotalPrice)
                  && instanceof_Money (js_not lastOrderTotalPrice) then
            Throw (ValidationError (lit "lastOrderTotalPrice must be a Money object or null"))
          else
            Ok {| Supplier_id := i; Supplier_name := n;
                  Supplier_contactEmail := contactEmail;
                  Supplier_lastOrderTotalPrice := lastOrderTotalPrice |}
      | _ => Throw (ValidationError (lit "name must be a string between 2 and 100 characters"))
      end
  | _ => Throw (ValidationError (lit "id must be a Supplier Id of SupplierId"))
  end.

(** A mutator runs on the aggregate and leaves it in a new state, whether it
    returns or throws. *)
Definition mutator := Supplier -> result unit * Supplier.

Definition Supplier_set_contactEmail (v : value) : mutator := fun this =>
  if is_null v || negb (isValidEmail v) then
    (Throw (ValidationError (lit "contactEmail must be a valid email address")), this)
  else
    (Ok tt, {| Supplier_id := Supplier_id this; Supplier_name := Supplier_name this;
               Supplier_contactEmail := v;
               Supplier_lastOrderTotalPrice := Supplier_lastOrderTotalPrice this |}).

Definition Supplier_set_lastOrderTotalPrice (v : value) : mutator := fun this =>
  if instanceof_Money (js_not v) then
    (Throw (ValidationError (lit "lastOrderTotalPrice must be a Money object")), this)
  else
    (Ok tt, {| Supplier_id := Supplier_id this; Supplier_name := Supplier_name this;
               Supplier_contactEmail := Supplier_contactEmail this;
               Supplier_lastOrderTotalPrice := v |}).

(** The assignments a client can make, and a run of them; a thrown error is
    the client's to catch, the aggregate lives on. *)
Inductive assignment :=
| SetContactEmail (v : value)
| SetLastOrderTotalPrice (v : value).

Definition assign (a : assignment) : mutator :=
  match a with
  | SetContactEmail v => Supplier_set_contactEmail v
  | SetLastOrderTotalPrice v => Supplier_set_lastOrderTotalPrice v
  end.

Definition run (l : list assignment) (s : Supplier) : Supplier :=
  fold_left (fun st a => snd (assign a st)) l s.

(** ** Vocabulary of the specification *)

(** The number of hundredths nearest to a finite non-negative [x], halves
    rounded up. *)
Definition hundredths (x : number) : Z :=
  (2 * mag_num x * 10 ^ 2 + mag_den x) / (2 * mag_den x).

(** [a] rounded to two decimal places: the number nearest to the nearest
    number of hundredths (halves go up). *)
Definition rounded_to_2_decimals (a : number) : number :=
  of_decimal false (hundredths a) (- 2).

(** The numbers a Money can be made of: finite and not below zero. *)
Definition finite_nonneg (a : number) : bool := is_finite a && negb (ltb a zero).

(** A Money that came out of the constructor. *)
Definition built (m : Money) : Prop :=
  exists a c, is_double a = true /\ Money_new (VNumber a) (VCurrency c) = Ok m.

(** [other] is a Money whose currency [equals] the receiver's. *)
Definition same_currency_Money (this : Money) (other : value) : Prop :=
  exists o, other = VMoney o
            /\ Currency_equals (Money_currency this) (VCurrency (Money_currency o)) = true.

(** What [!Number.isFinite(v) || v < 0] rejects: a negative number, a number
    that is not finite, or a value that is not a number at all. *)
Definition negative_or_not_finite (v : value) : Prop :=
  match v with
  | VNumber k => is_finite k = false \/ ltb k zero = true
  | _ => True
  end.

Definition USD : Currency := {| Currency_code := lit "USD" |}.
Definition EUR : Currency := {| Currency_code := lit "EUR" |}.

(** What the pattern of [isValidEmail] accepts: a local part, [@], a domain
    part, a dot and a last part, each non-empty and free of white space and
    of [@]. *)
Definition email_part (s : jsstring) : Prop :=
  s <> [] /\ Forall (fun c => email_char c = true) s.

(** A name of 2 to 100 characters. *)
Definition name_ok (n : jsstring) : Prop :=
  2 <= JsString.length n /\ JsString.length n <= 100.

(** ** Sample data *)

Definition big_money : Money :=
  {| Money_amount := of_decimal false 1 308; Money_currency := USD |}.

Definition overflow_error : error :=
  ValidationError (lit "Amount must be a positive number").

Definition email_error : error :=
  ValidationError (lit "contactEmail must be a valid email address").

Definition sample_uuid : jsstring := lit "550e8400-e29b-41d4-a716-446655440000".

Definition sample_id : SupplierId := {| SupplierId_value := sample_uuid |}.

Definition sample_supplier : Supplier :=
  {| Supplier_id := sample_id; Supplier_name := lit "Acme Corp";
     Supplier_contactEmail := VNull; Supplier_lastOrderTotalPrice := VNull |}.

Definition sample_params : SupplierParams :=
  {| id := VSupplierId sample_id; name := VString (lit "Acme Corp");
     contactEmail := VString (lit "sales@acme.com"); lastOrderTotalPrice := VUndefined |}.

Definition sample_built : Supplier :=
  {| Supplier_id := sample_id; Supplier_name := lit "Acme Corp";
     Supplier_contactEmail := VString (lit "sales@acme.com");
     Supplier_lastOrderTotalPrice := VNull |}.

(** ** Vocabulary of the further properties *)

(** The number written with two decimals, [h] hundredths, and the Money
    holding it. *)
Definition cents (h : Z) : number := of_decimal false h (- 2).

Definition in_cents (h : Z) (c : Currency) : Money :=
  {| Money_amount := cents h; Money_currency := c |}.

(** A hundred million millions of hundredths: amounts up to a million
    millions. *)
Definition cents_limit : Z := 10 ^ 14.

(** The shape of a stored amount: zero, or a positive finite number. *)
Definition plain_amount (x : number) : Prop :=
  x = zero \/ exists m e, x = S754_finite false m e.

(** What every Money keeps true of its amount: a well-formed number, zero or
    positive and finite, that is the number written with two decimals for
    some number of hundredths. *)
Definition Money_invariant (m : Money) : Prop :=
  is_double (Money_amount m) = true
  /\ plain_amount (Money_amount m)
  /\ exists h, 0 <= h /\ Money_amount m = cents h.

(** The Money instances a program can obtain: from the constructor, given a
    number and a Currency that came out of its own constructor, from [add]
    and from [multiply]. *)
Inductive made : Money -> Prop :=
| made_new a code c m :
    is_double a = true -> Currency_new code = Ok c ->
    Money_new (VNumber a) (VCurrency c) = Ok m -> made m
| made_add x y m :
    made x -> made y -> Money_add x (VMoney y) = Ok m -> made m
| made_multiply x k m :
    made x -> is_double k = true -> Money_multiply x (VNumber k) = Ok m -> made m.

(** An amount below [1e21], which [toFixed] writes in fixed notation. *)
Definition below_1e21 (x : number) : Prop := mag_num x < 10 ^ 21 * mag_den x.


(** The three errors the Supplier constructor throws, and the one it has a
    guard for. *)
Definition id_error : error :=
  ValidationError (lit "id must be a Supplier Id of SupplierId").
Definition name_error : error :=
  ValidationError (lit "name must be a string between 2 and 100 characters").
Definition email_or_null_error : error :=
  ValidationError (lit "contactEmail must be a valid email address or null").
Definition price_or_null_error : error :=
  ValidationError (lit "lastOrderTotalPrice must be a Money object or null").

(** What the constructor lets through as [contactEmail]: null, or a string
    accepted by [isValidEmail]. *)
Definition email_or_null (v : value) : Prop :=
  v = VNull \/ exists e, v = VString e /\ isValidEmail (VString e) = true.

(** The property an assignment writes to. *)
Definition to_contactEmail (a : assignment) : bool :=
  match a with SetContactEmail _ => true | SetLastOrderTotalPrice _ => false end.

(** The text [a@b.c]. *)
Definition email_text (a b c : jsstring) : jsstring := a ++ [64%N] ++ b ++ [46%N] ++ c.

(** * Facts about the model *)

Section StringFacts.

Lemma jsstring_eqb_eq a b : JsString.eqb a b = true <-> a = b.
Proof.
  unfold JsString.eqb. destruct (list_eq_dec N.eq_dec a b); split; congruence.
Qed.

Lemma jsstring_eqb_refl a : JsString.eqb a a = true.
Proof. now apply jsstring_eqb_eq. Qed.

End StringFacts.

Section RegexFacts.

Lemma nullable_matches r : nullable r = true <-> matches r [].
Proof.
  induction r; simpl.
  - split; [discriminate | inversion 1].
  - split; [constructor | reflexivity].
  - split; [discriminate | inversion 1].
  - rewrite andb_true_iff, IHr1, IHr2. split.
    + intros [H1 H2]. change (@nil N) with (@nil N ++ []). now constructor.
    + intro H. inversion H as [| | ? ? s1 s2 M1 M2 | | | |].
      match goal with E : _ ++ _ = [] |- _ => apply app_eq_nil in E as [-> ->] end.
      split; assumption.
  - rewrite orb_true_iff, IHr1, IHr2. split.
    + intros [H | H]; [apply MAltL | apply MAltR]; assumption.
    + intro H; inversion H; subst; auto.
  - split; [constructor | reflexivity].
Qed.

(** A starred match that consumes a character starts with a non-empty piece. *)
Lemma star_cons_inv r c s :
  matches (Star r) (c :: s) ->
  exists s1 s2, s = s1 ++ s2 /\ matches r (c :: s1) /\ matches (Star r) s2.
Proof.
  intro H. remember (Star r) as r' eqn:Er. remember (c :: s) as w eqn:Ew.
  revert Er Ew. induction H; intros Er Ew; try discriminate.
  injection Er as ->. destruct s1 as [| a s1].
  - simpl in Ew. apply IHmatches2; [reflexivity | assumption].
  - simpl in Ew. injection Ew as -> <-. exists s1, s2. auto.
Qed.

Lemma deriv_matches r : forall c s, matches (deriv c r) s <-> matches r (c :: s).
Proof.
  induction r; intros c s; simpl.
  - split; intro H; inversion H.
  - split; intro H; inversion H.
  - destruct (p c) eqn:Hp; split; intro H.
    + inversion H; subst. now constructor.
    + inversion H; subst. constructor.
    + inversion H.
    + inversion H; subst. congruence.
  - destruct (nullable r1) eqn:Hn.
    + split; intro H.
      * inversion H as [| | | ? ? ? M | ? ? ? M | |]; subst.
        -- inversion M as [| | ? ? s1 s2 M1 M2 | | | |]; subst.
           change (c :: s1 ++ s2) with ((c :: s1) ++ s2).
           constructor; [apply IHr1 |]; assumption.
        -- change (c :: s) with ([] ++ c :: s).
           constructor; [apply nullable_matches | apply IHr2]; assumption.
      * inversion H as [| | ? ? s1 s2 M1 M2 | | | |].
        match goal with E : _ ++ _ = _ :: _ |- _ => rename E into E' end.
        destruct s1 as [| a s1]; simpl in E'.
        -- subst s2. apply MAltR, IHr2. assumption.
        -- injection E' as -> <-. apply MAltL. constructor; [apply IHr1 |]; assumption.
    + split; intro H.
      * inversion H as [| | ? ? s1 s2 M1 M2 | | | |]; subst.
        change (c :: s1 ++ s2) with ((c :: s1) ++ s2).
        constructor; [apply IHr1 |]; assumption.
      * inversion H as [| | ? ? s1 s2 M1 M2 | | | |].
        match goal with E : _ ++ _ = _ :: _ |- _ => rename E into E' end.
        destruct s1 as [| a s1]; simpl in E'.
        -- apply nullable_matches in M1. congruence.
        -- injection E' as -> <-. constructor; [apply IHr1 |]; assumption.
  - split; intro H; inversion H; subst;
      solve [apply MAltL, IHr1; assumption | apply MAltR, IHr2; assumption].
  - split; intro H.
    + inversion H as [| | ? ? s1 s2 M1 M2 | | | |]; subst.
      change (c :: s1 ++ s2) with ((c :: s1) ++ s2).
      constructor; [apply IHr |]; assumption.
    + apply star_cons_inv in H as (s1 & s2 & -> & M1 & M2).
      constructor; [apply IHr |]; assumption.
Qed.

Lemma test_matches s : forall r, test r s = true <-> matches r s.
Proof.
  induction s as [| c s IH]; intro r; simpl.
  - apply nullable_matches.
  - rewrite IH. apply deriv_matches.
Qed.

(** The strings of [p+] are the non-empty strings over [p]. *)
Lemma matches_Star_Class p s : matches (Star (Class p)) s <-> Forall (fun c => p c = true) s.
Proof.
  split.
  - intro H. remember (Star (Class p)) as r eqn:Er. revert Er.
    induction H; intro Er; try discriminate.
    + constructor.
    + injection Er as ->. inversion H; subst. simpl. constructor; auto.
  - induction 1 as [| c s Hc _ IH]; [constructor |].
    change (c :: s) with ([c] ++ s). constructor; [now constructor | assumption].
Qed.

Lemma matches_Plus_Class p s :
  matches (Plus (Class p)) s <-> s <> [] /\ Forall (fun c => p c = true) s.
Proof.
  unfold Plus. split.
  - intro H. inversion H as [| | ? ? s1 s2 M1 M2 | | | |]; subst.
    inversion M1; subst. simpl. split; [discriminate |].
    constructor; [assumption | now apply matches_Star_Class].
  - intros [Hne Hall]. destruct s as [| c s]; [congruence |].
    inversion Hall; subst.
    change (c :: s) with ([c] ++ s). constructor; [now constructor |].
    now apply matches_Star_Class.
Qed.

End RegexFacts.

Section DigitFacts.

Lemma digit_char_val d : 0 <= d <= 9 -> digit_val (digit_char d) = d.
Proof. intro H. unfold digit_val, digit_char. rewrite Z2N.id; lia. Qed.

Lemma digit_char_is_digit d : 0 <= d <= 9 -> is_digit (digit_char d) = true.
Proof.
  intro H. unfold is_digit, digit_char. apply andb_true_iff.
  split; apply N.leb_le; lia.
Qed.

Lemma digits_aux_app f : forall n acc, digits_aux f n acc = digits_aux f n [] ++ acc.
Proof.
  induction f as [| f IH]; intros n acc; cbn [digits_aux]; [reflexivity |].
  destruct (n <? 10); [reflexivity |].
  rewrite IH. rewrite (IH _ [_]). rewrite <- app_assoc. reflexivity.
Qed.

Lemma val_aux_app s : forall a t, val_aux a (s ++ t) = val_aux (val_aux a s) t.
Proof. induction s as [| c s IH]; intros a t; cbn [val_aux app]; [reflexivity | apply IH]. Qed.

Lemma val_aux_shift t : forall a, val_aux a t = a * 10 ^ JsString.length t + val t.
Proof.
  unfold val, JsString.length. induction t as [| c t IH]; intro a; cbn [val_aux List.length].
  - cbn. lia.
  - rewrite IH. rewrite (IH (10 * 0 + _)). rewrite Nat2Z.inj_succ, Z.pow_succ_r by lia. ring.
Qed.

Lemma val_app s t : val (s ++ t) = val s * 10 ^ JsString.length t + val t.
Proof. unfold val at 1. rewrite val_aux_app. apply val_aux_shift. Qed.

Lemma val_zeros n : val (zeros n) = 0.
Proof.
  unfold zeros, val. induction (Z.to_nat n) as [| k IH]; [reflexivity |].
  cbn [repeat val_aux]. exact IH.
Qed.

Lemma val_digits_aux f : forall n, 0 <= n < 2 ^ Z.of_nat f -> val (digits_aux f n []) = n.
Proof.
  induction f as [| f IH]; intros n H.
  - cbn in H. assert (n = 0) by lia. subst. reflexivity.
  - cbn [digits_aux]. destruct (Z.ltb_spec n 10) as [Hlt | Hge].
    + unfold val. cbn [val_aux]. rewrite digit_char_val; lia.
    + rewrite digits_aux_app, val_app. rewrite IH.
      * unfold val, JsString.length. cbn [val_aux List.length].
        rewrite digit_char_val by (pose proof (Z.mod_pos_bound n 10); lia).
        pose proof (Z.div_mod n 10). lia.
      * rewrite Nat2Z.inj_succ, Z.pow_succ_r in H by lia.
        split; [apply Z.div_pos; lia |].
        apply Z.div_lt_upper_bound; lia.
Qed.

Lemma log2_fuel n : 0 <= n -> n < 2 ^ Z.of_nat (S (Z.to_nat (Z.log2 n))).
Proof.
  intro H. rewrite Nat2Z.inj_succ, Z2Nat.id by apply Z.log2_nonneg.
  destruct (Z.eq_dec n 0) as [-> | Hn]; [reflexivity |].
  apply Z.log2_spec. lia.
Qed.

Lemma val_digits n : 0 <= n -> val (digits n) = n.
Proof. intro H. apply val_digits_aux. split; [assumption | now apply log2_fuel]. Qed.

Lemma digits_aux_all_digits f : forall n acc,
  0 <= n -> Forall (fun c => is_digit c = true) acc ->
  Forall (fun c => is_digit c = true) (digits_aux f n acc).
Proof.
  induction f as [| f IH]; intros n acc Hn Hacc; cbn [digits_aux]; [assumption |].
  destruct (Z.ltb_spec n 10).
  - constructor; [apply digit_char_is_digit; lia | assumption].
  - apply IH; [apply Z.div_pos; lia |].
    constructor; [| assumption].
    apply digit_char_is_digit. pose proof (Z.mod_pos_bound n 10). lia.
Qed.

Lemma digits_all_digits n : 0 <= n -> Forall (fun c => is_digit c = true) (digits n).
Proof. intro H. apply digits_aux_all_digits; [assumption | constructor]. Qed.

(** The number of digits of [n] is its decimal order of magnitude. *)
Lemma digits_aux_length f : forall n, 0 < n < 2 ^ Z.of_nat f ->
  let k := JsString.length (digits_aux f n []) in
  10 ^ (k - 1) <= n < 10 ^ k.
Proof.
  unfold JsString.length.
  induction f as [| f IH]; intros n H.
  - cbn in H. lia.
  - cbn [digits_aux]. destruct (Z.ltb_spec n 10) as [Hlt | Hge].
    + cbn. lia.
    + rewrite digits_aux_app, length_app. cbn [List.length].
      assert (Hq : 0 < n / 10 < 2 ^ Z.of_nat f).
      { rewrite Nat2Z.inj_succ, Z.pow_succ_r in H by lia.
        split; [apply Z.div_str_pos; lia | apply Z.div_lt_upper_bound; lia]. }
      specialize (IH _ Hq).
      set (k := Z.of_nat (List.length (digits_aux f (n / 10) []))) in *.
      replace (Z.of_nat (List.length (digits_aux f (n / 10) []) + 1)) with (k + 1) by lia.
      assert (0 < k).
      { destruct (Z.le_gt_cases k 0) as [Hk | Hk]; [| assumption].
        assert (10 ^ k <= 1).
        { destruct (Z.eq_dec k 0) as [-> | ?]; [cbn; lia |].
          rewrite Z.pow_neg_r by lia. lia. }
        lia. }
      replace (10 ^ (k + 1 - 1)) with (10 * 10 ^ (k - 1))
        by (replace (k + 1 - 1) with (Z.succ (k - 1)) by lia; rewrite Z.pow_succ_r; lia).
      replace (10 ^ (k + 1)) with (10 * 10 ^ k)
        by (replace (k + 1) with (Z.succ k) by lia; rewrite Z.pow_succ_r; lia).
      pose proof (Z.div_mod n 10). pose proof (Z.mod_pos_bound n 10). lia.
Qed.

Lemma digits_length n : 0 < n ->
  10 ^ (JsString.length (digits n) - 1) <= n < 10 ^ JsString.length (digits n).
Proof.
  intro H. apply digits_aux_length. split; [assumption | apply log2_fuel; lia].
Qed.

Lemma digits_nonempty n : digits n <> [].
Proof.
  unfold digits. cbn [digits_aux]. destruct (n <? 10); [discriminate |].
  rewrite digits_aux_app. intro E. apply app_eq_nil in E as [_ E]. discriminate.
Qed.

Lemma pow10_unique k l n :
  10 ^ (k - 1) <= n < 10 ^ k -> 10 ^ (l - 1) <= n < 10 ^ l -> 0 < n -> 0 <= k -> 0 <= l -> k = l.
Proof.
  intros Hk Hl Hn H0k H0l.
  destruct (Z.lt_trichotomy k l) as [Hlt | [-> | Hgt]]; [| reflexivity |].
  - assert (10 ^ k <= 10 ^ (l - 1)) by (apply Z.pow_le_mono_r; lia). lia.
  - assert (10 ^ l <= 10 ^ (k - 1)) by (apply Z.pow_le_mono_r; lia). lia.
Qed.

Lemma digits_length_eq n k :
  10 ^ (k - 1) <= n < 10 ^ k -> 0 < n -> 0 <= k -> JsString.length (digits n) = k.
Proof.
  intros Hk Hn H0. apply (pow10_unique _ _ n); try assumption.
  - now apply digits_length.
  - unfold JsString.length. lia.
Qed.

End DigitFacts.

Section ParseFacts.

Lemma span_digits_app a : forall rest,
  all_digits a -> stops rest -> span is_digit (a ++ rest) = (a, rest).
Proof.
  induction a as [| c a IH]; intros rest Ha Hr.
  - destruct rest as [| c r]; [reflexivity |]. cbn in Hr |- *. rewrite Hr. reflexivity.
  - inversion Ha as [| ? ? Hc Ha']; subst. cbn [app span]. rewrite Hc.
    rewrite (IH rest Ha' Hr). reflexivity.
Qed.

Lemma digit_cases c : is_digit c = true ->
  (c = 48 \/ c = 49 \/ c = 50 \/ c = 51 \/ c = 52 \/ c = 53 \/ c = 54 \/ c = 55
   \/ c = 56 \/ c = 57)%N.
Proof.
  unfold is_digit. rewrite andb_true_iff, !N.leb_le. lia.
Qed.

Lemma plain_not_space c : plain c = true -> is_space c = false.
Proof.
  unfold plain. rewrite !orb_true_iff, !N.eqb_eq.
  intros [[[H | ->] | ->] | ->]; try reflexivity.
  apply digit_cases in H.
  repeat (destruct H as [-> | H]; [reflexivity |]). subst. reflexivity.
Qed.

Lemma drop_spaces_plain s : Forall (fun c => plain c = true) s -> drop_spaces s = s.
Proof.
  intro H. destruct s as [| c s]; [reflexivity |]. inversion H; subst.
  cbn [drop_spaces]. rewrite plain_not_space by assumption. reflexivity.
Qed.

Lemma trim_plain s : Forall (fun c => plain c = true) s -> trim s = s.
Proof.
  intro H. unfold trim. rewrite (drop_spaces_plain s H).
  rewrite drop_spaces_plain by (apply Forall_rev; assumption).
  apply rev_involutive.
Qed.

Lemma non_decimal_prefix_plain s :
  Forall (fun c => plain c = true) s -> non_decimal_prefix s = None.
Proof.
  intro H. destruct s as [| a [| c r]]; try reflexivity.
  + destruct a as [| p]; [reflexivity |]. cbn. repeat (destruct p; try reflexivity).
  + inversion H as [| ? ? _ H']; subst. inversion H' as [| ? ? Hc _]; subst.
    unfold non_decimal_prefix.
    assert (T : forall k, plain k = false -> (c =? k)%N = false).
    { intros k Hk. destruct (N.eqb_spec c k); [subst; congruence | reflexivity]. }
    rewrite !T by reflexivity.
    repeat match goal with |- match ?x with _ => _ end = _ => destruct x; try reflexivity end.
Qed.

Lemma digit_is_plain c : is_digit c = true -> plain c = true.
Proof. intro H. unfold plain. rewrite H. reflexivity. Qed.

Lemma all_digits_plain s : all_digits s -> Forall (fun c => plain c = true) s.
Proof. apply Forall_impl. exact digit_is_plain. Qed.

Lemma parse_sign_digit c s : is_digit c = true -> parse_sign (c :: s) = (false, c :: s).
Proof.
  intro H. unfold parse_sign.
  destruct (N.eq_dec c 45) as [-> | H1]; [discriminate H |].
  destruct (N.eq_dec c 43) as [-> | H2]; [discriminate H |].
  repeat (match goal with |- match ?x with _ => _ end = _ => destruct x; try reflexivity end;
          try congruence).
Qed.

Lemma parse_exponent_plus ex :
  all_digits ex -> ex <> [] -> parse_exponent (101%N :: 43%N :: ex) = Some (val ex).
Proof.
  intros H Hne. cbn [parse_exponent N.eqb Pos.eqb orb parse_sign].
  replace ex with (ex ++ []) at 1 by apply app_nil_r.
  rewrite span_digits_app by (assumption || exact I).
  destruct ex; [congruence | reflexivity].
Qed.

Lemma not_Infinity c s : is_digit c = true -> JsString.eqb (c :: s) (lit "Infinity") = false.
Proof.
  intro H. destruct (JsString.eqb (c :: s) (lit "Infinity")) eqn:E; [| reflexivity].
  apply jsstring_eqb_eq in E. injection E as -> _. discriminate H.
Qed.

Lemma exponent_stops s e : exponent s e -> stops s.
Proof. destruct 1; [exact I | reflexivity]. Qed.

Lemma parse_exponent_ok s e : exponent s e -> parse_exponent s = Some e.
Proof. destruct 1; [reflexivity | now apply parse_exponent_plus]. Qed.

(** A literal with an integer part, an optional fraction and an optional
    positive exponent denotes its digits scaled by the power of ten. *)
Lemma parse_decimal_shape ip fr fp ex e :
  ip <> [] -> all_digits ip -> fraction fr fp -> exponent ex e ->
  parse_decimal false (ip ++ fr ++ ex)
  = of_decimal false (val (ip ++ fp)) (e - JsString.length fp).
Proof.
  intros Hne Hip Hfr Hex. unfold parse_decimal.
  destruct ip as [| c ip']; [congruence |].
  assert (Hc : is_digit c = true) by (inversion Hip; assumption).
  replace (JsString.eqb ((c :: ip') ++ fr ++ ex) (lit "Infinity")) with false
    by (symmetry; exact (not_Infinity c _ Hc)).
  pose proof (exponent_stops _ _ Hex) as Hst.
  pose proof (parse_exponent_ok _ _ Hex) as Hpe.
  destruct Hfr as [| fp Hfp].
  - cbn [app]. change (c :: ip' ++ ex) with ((c :: ip') ++ ex).
    rewrite span_digits_app by assumption.
    assert (Hno : match ex with 46%N :: r => span is_digit r | _ => ([], ex) end = ([], ex)).
    { destruct Hex; reflexivity. }
    rewrite Hno, !app_nil_r. cbn [app]. rewrite Hpe. reflexivity.
  - rewrite span_digits_app by (assumption || reflexivity).
    cbn [app]. rewrite span_digits_app by assumption.
    rewrite Hpe. reflexivity.
Qed.

Lemma StringToNumber_shape ip fr fp ex e :
  ip <> [] -> all_digits ip -> fraction fr fp -> exponent ex e ->
  StringToNumber (ip ++ fr ++ ex)
  = of_decimal false (val (ip ++ fp)) (e - JsString.length fp).
Proof.
  intros Hne Hip Hfr Hex.
  rewrite <- (parse_decimal_shape ip fr fp ex e) by assumption.
  set (u := ip ++ fr ++ ex).
  assert (Hplain : Forall (fun c => plain c = true) u).
  { subst u. apply Forall_app. split; [now apply all_digits_plain |].
    apply Forall_app. split.
    - destruct Hfr; constructor; [reflexivity | now apply all_digits_plain].
    - destruct Hex; repeat constructor. now apply all_digits_plain. }
  unfold StringToNumber. rewrite (trim_plain u Hplain).
  destruct ip as [| c ip']; [congruence |]. subst u. cbn [app] in *. cbv beta iota.
  rewrite (non_decimal_prefix_plain _ Hplain).
  rewrite parse_sign_digit by (inversion Hip; assumption). reflexivity.
Qed.

End ParseFacts.

Section RoundingFacts.

Lemma iter_pos_nat {A} (f : A -> A) p : forall x, iter_pos f p x = Nat.iter (Pos.to_nat p) f x.
Proof.
  induction p as [p IH | p IH |]; intro x; cbn [iter_pos].
  - rewrite !IH, Pos2Nat.inj_xI. cbn [Nat.iter]. rewrite <- Nat.iter_succ_r.
    rewrite <- Nat.iter_add. f_equal. lia.
  - rewrite !IH, Pos2Nat.inj_xO. rewrite <- Nat.iter_add. f_equal. lia.
  - reflexivity.
Qed.

Lemma digits2_pos_size p : digits2_pos p = Pos.size p.
Proof. induction p; cbn; congruence. Qed.

Lemma Zdigits2_log2 z : 0 < z -> Zdigits2 z = Z.log2 z + 1.
Proof.
  destruct z as [| p | p]; try lia. intros _. cbn [Zdigits2]. rewrite digits2_pos_size.
  destruct p; cbn; lia.
Qed.

Lemma Zdigits2_nonneg z : 0 <= Zdigits2 z.
Proof. destruct z; cbn; lia. Qed.

Lemma Zdigits2_mono a b : 0 <= a <= b -> Zdigits2 a <= Zdigits2 b.
Proof.
  intros [Ha Hab]. destruct (Z.eq_dec a 0) as [-> | Hn].
  - apply Zdigits2_nonneg.
  - rewrite !Zdigits2_log2 by lia. pose proof (Z.log2_le_mono a b Hab). lia.
Qed.

Lemma Zdigits2_succ a : 0 <= a -> Zdigits2 (a + 1) <= Zdigits2 a + 1.
Proof.
  intro Ha. destruct (Z.eq_dec a 0) as [-> | Hn]; [cbn; lia |].
  rewrite !Zdigits2_log2 by lia. pose proof (Z.log2_succ_le a). unfold Z.succ in *. lia.
Qed.

Lemma Zdigits2_shiftl a k : 0 < a -> 0 <= k -> Zdigits2 (a * 2 ^ k) = Zdigits2 a + k.
Proof.
  intros Ha Hk. rewrite !Zdigits2_log2 by (try apply Z.mul_pos_pos; try apply Z.pow_pos_nonneg; lia).
  rewrite Z.log2_mul_pow2 by lia. lia.
Qed.

Lemma Zdigits2_shiftr a k : 0 <= a -> 0 <= k ->
  Zdigits2 (a / 2 ^ k) = 0 \/ Zdigits2 (a / 2 ^ k) = Zdigits2 a - k.
Proof.
  intros Ha Hk. destruct (Z.eq_dec (a / 2 ^ k) 0) as [E | E]; [left; rewrite E; reflexivity |].
  right. assert (0 < a / 2 ^ k).
  { pose proof (Z.div_pos a (2 ^ k) Ha ltac:(apply Z.pow_pos_nonneg; lia)). lia. }
  assert (0 < a).
  { destruct (Z.eq_dec a 0) as [-> | ?]; [rewrite Z.div_0_l in E by (apply Z.pow_nonzero; lia); lia | lia]. }
  rewrite !Zdigits2_log2 by lia. rewrite <- Z.shiftr_div_pow2 by lia.
  rewrite Z.log2_shiftr by lia.
  rewrite <- Z.shiftr_div_pow2 in H by lia.
  assert (0 <= Z.log2 a - k).
  { destruct (Z.le_gt_cases k (Z.log2 a)); [lia |].
    rewrite Z.shiftr_eq_0 in H by lia. lia. }
  lia.
Qed.

(** One step of [shr] halves the significand. *)
Lemma shr_m_shr_1 r : 0 <= shr_m r -> shr_m (shr_1 r) = shr_m r / 2.
Proof.
  destruct r as [m b s]. cbn [shr_m]. intro H.
  destruct m as [| p | p]; [reflexivity | | lia].
  destruct p; cbn [shr_1 shr_m].
  - rewrite Pos2Z.inj_xI. apply Z.div_unique with 1; lia.
  - rewrite Pos2Z.inj_xO. apply Z.div_unique with 0; lia.
  - reflexivity.
Qed.

Lemma shr_m_iter n : forall r, 0 <= shr_m r ->
  shr_m (Nat.iter n shr_1 r) = shr_m r / 2 ^ Z.of_nat n.
Proof.
  induction n as [| n IH]; intros r H.
  - cbn. rewrite Z.div_1_r. reflexivity.
  - rewrite Nat.iter_succ. rewrite shr_m_shr_1.
    + rewrite IH by assumption. rewrite Nat2Z.inj_succ, Z.pow_succ_r by lia.
      rewrite Z.div_div by (try apply Z.pow_pos_nonneg; lia). f_equal. lia.
    + rewrite IH by assumption. apply Z.div_pos; [assumption | apply Z.pow_pos_nonneg; lia].
Qed.

(** Shifting out zero bits loses nothing. *)
Lemma shr_iter_exact n : forall m, 0 <= m ->
  Nat.iter n shr_1 {| shr_m := m * 2 ^ Z.of_nat n; shr_r := false; shr_s := false |}
  = {| shr_m := m; shr_r := false; shr_s := false |}.
Proof.
  induction n as [| n IH]; intros m H.
  - cbn [Nat.iter Z.of_nat]. rewrite Z.pow_0_r, Z.mul_1_r. reflexivity.
  - rewrite Nat.iter_succ_r.
    replace (m * 2 ^ Z.of_nat (S n)) with (2 * (m * 2 ^ Z.of_nat n))
      by (rewrite Nat2Z.inj_succ, Z.pow_succ_r by lia; ring).
    assert (E : shr_1 {| shr_m := 2 * (m * 2 ^ Z.of_nat n); shr_r := false; shr_s := false |}
                = {| shr_m := m * 2 ^ Z.of_nat n; shr_r := false; shr_s := false |}).
    { destruct (m * 2 ^ Z.of_nat n) as [| p | p] eqn:E.
      - reflexivity.
      - reflexivity.
      - assert (0 <= m * 2 ^ Z.of_nat n) by (apply Z.mul_nonneg_nonneg; [| apply Z.pow_nonneg]; lia).
        lia. }
    rewrite E. apply IH. assumption.
Qed.

Lemma shr_spec r e k :
  0 <= shr_m r ->
  let '(r', e') := shr r e k in
  shr_m r' = shr_m r / 2 ^ Z.max k 0 /\ e' = e + Z.max k 0.
Proof.
  intro H. unfold shr. destruct k as [| p | p].
  - cbn. rewrite Z.div_1_r. lia.
  - rewrite iter_pos_nat, shr_m_iter by assumption.
    rewrite positive_nat_Z. rewrite Z.max_l by lia. split; reflexivity.
  - rewrite Z.max_r by lia. cbn. rewrite Z.div_1_r. lia.
Qed.

Lemma shr_m_record_of_loc m l : shr_m (shr_record_of_loc m l) = m.
Proof. destruct l as [| []]; reflexivity. Qed.

Lemma round_nearest_even_bounds m l : m <= round_nearest_even m l <= m + 1.
Proof.
  unfold round_nearest_even. destruct l as [| []]; try lia. destruct (Z.even m); lia.
Qed.

Lemma fexp_spec z : fexp prec emax z = Z.max (z - 53) (-1074).
Proof. reflexivity. Qed.

(** Rounding a significand that stays below [2^1023] gives a finite number
    of the requested sign. *)
Lemma binary_round_aux_finite s mx ex lx :
  0 <= mx -> ex <= 971 -> Zdigits2 mx + ex <= 1023 ->
  match binary_round_aux prec emax s mx ex lx with
  | S754_zero s' => s' = s
  | S754_finite s' _ _ => s' = s
  | _ => False
  end.
Proof.
  intros Hm Hex Hd. unfold binary_round_aux, shr_fexp.
  set (k1 := fexp prec emax (Zdigits2 mx + ex) - ex).
  pose proof (shr_spec (shr_record_of_loc mx lx) ex k1) as S1.
  rewrite shr_m_record_of_loc in S1. specialize (S1 Hm).
  destruct (shr (shr_record_of_loc mx lx) ex k1) as [r1 e1]. destruct S1 as [M1 E1].
  set (mr := round_nearest_even (shr_m r1) (loc_of_shr_record r1)).
  pose proof (round_nearest_even_bounds (shr_m r1) (loc_of_shr_record r1)) as Hmr. fold mr in Hmr.
  assert (H1 : 0 <= shr_m r1).
  { rewrite M1. apply Z.div_pos; [assumption | apply Z.pow_pos_nonneg; lia]. }
  set (k2 := fexp prec emax (Zdigits2 mr + e1) - e1).
  pose proof (shr_spec (shr_record_of_loc mr loc_Exact) e1 k2) as S2.
  rewrite shr_m_record_of_loc in S2. specialize (S2 ltac:(lia)).
  destruct (shr (shr_record_of_loc mr loc_Exact) e1 k2) as [r2 e2]. destruct S2 as [M2 E2].
  assert (H2 : 0 <= shr_m r2).
  { rewrite M2. apply Z.div_pos; [lia | apply Z.pow_pos_nonneg; lia]. }
  destruct (shr_m r2) as [| p | p] eqn:Ep; [reflexivity | | lia].
  assert (Hfin : e2 <= 971).
  { subst k1 k2. rewrite fexp_spec in *.
    assert (D1 : Zdigits2 (shr_m r1) + e1 <= Z.max 1023 e1).
    { rewrite M1, E1.
      destruct (Zdigits2_shiftr mx (Z.max (Z.max (Zdigits2 mx + ex - 53) (-1074) - ex) 0) Hm
                  ltac:(lia)) as [D | D]; rewrite D; lia. }
    pose proof (Zdigits2_succ (shr_m r1) H1).
    pose proof (Zdigits2_mono mr (shr_m r1 + 1) ltac:(lia)).
    lia. }
  replace (e2 <=? emax - prec) with true by (symmetry; apply Z.leb_le; unfold emax, prec; lia).
  reflexivity.
Qed.

End RoundingFacts.

Section RatioFacts.

Lemma div_eucl_spec a b : Z.div_eucl a b = (a / b, a mod b).
Proof. unfold Z.div, Z.modulo. destruct (Z.div_eucl a b). reflexivity. Qed.

(** A significand of 53 bits followed by zero bits is rounded to itself. *)
Lemma binary_round_aux_exact m e :
  Zpos (digits2_pos m) = 53 -> 0 <= e <= 971 ->
  binary_round_aux prec emax false (Zpos m * 2 ^ e) 0 loc_Exact = S754_finite false m e.
Proof.
  intros Hd He. unfold binary_round_aux, shr_fexp.
  rewrite Zdigits2_shiftl by lia. cbn [Zdigits2]. rewrite Hd, fexp_spec.
  replace (Z.max (53 + e + 0 - 53) (-1074) - 0) with e by lia.
  assert (S1 : shr (shr_record_of_loc (Zpos m * 2 ^ e) loc_Exact) 0 e
               = ({| shr_m := Zpos m; shr_r := false; shr_s := false |}, e)).
  { unfold shr. cbn [shr_record_of_loc]. destruct e as [| p | p]; [| | lia].
    - rewrite Z.pow_0_r, Z.mul_1_r. reflexivity.
    - rewrite iter_pos_nat. rewrite <- (positive_nat_Z p) at 1.
      rewrite shr_iter_exact by lia. reflexivity. }
  rewrite S1. cbn [shr_m loc_of_shr_record round_nearest_even Zdigits2].
  rewrite Hd, fexp_spec. replace (Z.max (53 + e - 53) (-1074) - e) with 0 by lia.
  cbn [shr shr_record_of_loc shr_m].
  replace (e <=? emax - prec) with true by (symmetry; apply Z.leb_le; unfold emax, prec; lia).
  reflexivity.
Qed.

Lemma round_ratio_exact_1 m e :
  Zpos (digits2_pos m) = 53 -> 1 <= e <= 971 ->
  round_ratio false (Zpos m * 2 ^ e) 1 = S754_finite false m e.
Proof.
  intros Hd He. unfold round_ratio.
  assert (Hpos : 0 < Zpos m * 2 ^ e) by (apply Z.mul_pos_pos; [lia | apply Z.pow_pos_nonneg; lia]).
  replace (Zpos m * 2 ^ e =? 0) with false by (symmetry; apply Z.eqb_neq; lia).
  unfold SFdiv_core_binary. rewrite Zdigits2_shiftl by lia. cbn [Zdigits2 digits2_pos].
  rewrite Hd, fexp_spec.
  replace (Z.min (Z.max (53 + e + 0 - (1 + 0) - 53) (-1074)) (0 - 0)) with 0 by lia.
  cbn [Z.sub Z.opp Z.add]. rewrite div_eucl_spec, Z.div_1_r, Z.mod_1_r.
  change (new_location 1 0) with loc_Exact.
  apply binary_round_aux_exact; [assumption | lia].
Qed.

Lemma round_ratio_exact_100 m e :
  Zpos (digits2_pos m) = 53 -> 1 <= e <= 971 ->
  round_ratio false (100 * (Zpos m * 2 ^ e)) 100 = S754_finite false m e.
Proof.
  intros Hd He. unfold round_ratio.
  assert (Hpos : 0 < Zpos m * 2 ^ e) by (apply Z.mul_pos_pos; [lia | apply Z.pow_pos_nonneg; lia]).
  replace (100 * (Zpos m * 2 ^ e) =? 0) with false by (symmetry; apply Z.eqb_neq; lia).
  unfold SFdiv_core_binary.
  assert (Hdig : 53 + e + 6 <= Zdigits2 (100 * (Zpos m * 2 ^ e))).
  { pose proof (Zdigits2_shiftl (Zpos m * 2 ^ e) 6 Hpos ltac:(lia)) as E.
    rewrite (Zdigits2_shiftl (Zpos m) e) in E by lia. cbn [Zdigits2] in E. rewrite Hd in E.
    rewrite <- E. apply Zdigits2_mono. change (2 ^ 6) with 64. lia. }
  set (d1 := Zdigits2 (100 * (Zpos m * 2 ^ e))) in *.
  change (Zdigits2 100) with 7. rewrite fexp_spec.
  replace (Z.min (Z.max (d1 + 0 - (7 + 0) - 53) (-1074)) (0 - 0)) with 0 by lia.
  cbn [Z.sub Z.opp Z.add]. rewrite div_eucl_spec.
  replace (100 * (Zpos m * 2 ^ e) / 100) with (Zpos m * 2 ^ e)
    by (symmetry; rewrite Z.mul_comm; apply Z.div_mul; lia).
  replace (100 * (Zpos m * 2 ^ e) mod 100) with 0
    by (symmetry; rewrite Z.mul_comm; apply Z.mod_mul; lia).
  change (new_location 100 0) with loc_Exact.
  apply binary_round_aux_exact; [assumption | lia].
Qed.

(** A fraction whose numerator has at most a thousand bits rounds to a
    finite number of the requested sign. *)
Lemma round_ratio_finite neg n d :
  0 <= n -> 0 < d -> Zdigits2 n <= 1000 ->
  match round_ratio neg n d with
  | S754_zero s' => s' = neg
  | S754_finite s' _ _ => s' = neg
  | _ => False
  end.
Proof.
  intros Hn Hd Hb. unfold round_ratio. destruct (Z.eqb_spec n 0) as [| Hn0]; [reflexivity |].
  unfold SFdiv_core_binary.
  set (e' := Z.min (fexp prec emax (Zdigits2 n + 0 - (Zdigits2 d + 0))) (0 - 0)).
  assert (He' : e' <= 0) by (subst e'; lia).
  set (m' := match 0 - 0 - e' with Z.pos _ => Z.shiftl n (0 - 0 - e') | 0 => n | Z.neg _ => 0 end).
  assert (Hm' : m' = n * 2 ^ (- e')).
  { subst m'. replace (0 - 0 - e') with (- e') by lia.
    destruct (- e') as [| p | p] eqn:E; [rewrite Z.mul_1_r; reflexivity | | lia].
    rewrite Z.shiftl_mul_pow2 by lia. reflexivity. }
  rewrite div_eucl_spec.
  assert (Hm'pos : 0 < m').
  { rewrite Hm'. apply Z.mul_pos_pos; [lia | apply Z.pow_pos_nonneg; lia]. }
  assert (Hq : 0 <= m' / d <= m').
  { split; [apply Z.div_pos; lia |]. apply Z.div_le_upper_bound; [lia |]. nia. }
  apply binary_round_aux_finite; [lia | lia |].
  pose proof (Zdigits2_mono (m' / d) m' Hq) as Hmono.
  rewrite Hm' in Hmono at 2. rewrite Zdigits2_shiftl in Hmono by lia. lia.
Qed.

End RatioFacts.

Section ConversionFacts.

Lemma same_eq x y : same x y = true -> x = y.
Proof.
  destruct x as [a | a | | a m e], y as [b | b | | b m' e']; cbn [same]; try discriminate.
  - intro H. apply Bool.eqb_prop in H. now subst.
  - intro H. apply Bool.eqb_prop in H. now subst.
  - reflexivity.
  - rewrite !andb_true_iff. intros [[H1 H2] H3].
    apply Bool.eqb_prop in H1. apply Pos.eqb_eq in H2. apply Z.eqb_eq in H3. now subst.
Qed.

Lemma zeros_all_digits n : all_digits (zeros n).
Proof. unfold zeros. induction (Z.to_nat n); cbn [repeat]; constructor; auto. Qed.

Lemma zeros_length n : List.length (zeros n) = Z.to_nat n.
Proof. apply repeat_length. Qed.

(** The layout of [toFixed] with two fraction digits reads back as the
    number of hundredths it was made from. *)
Lemma fixed2_parse r (m := zeros (Z.of_nat 2 + 1 - JsString.length (digits r)) ++ digits r) :
  0 <= r ->
  StringToNumber (firstn (List.length m - 2) m ++ lit "." ++ skipn (List.length m - 2) m)
  = of_decimal false r (- 2).
Proof.
  intro Hr.
  assert (Hm : all_digits m).
  { apply Forall_app. split; [apply zeros_all_digits | now apply digits_all_digits]. }
  assert (Hlen : (3 <= List.length m)%nat).
  { subst m. rewrite length_app, zeros_length. unfold JsString.length. lia. }
  set (k := List.length m) in *.
  set (ip := firstn (k - 2) m). set (fp := skipn (k - 2) m).
  assert (Hip : List.length ip = (k - 2)%nat) by (subst ip; rewrite length_firstn; lia).
  assert (Hfp : List.length fp = 2%nat) by (subst fp; rewrite length_skipn; lia).
  assert (Hval : val (ip ++ fp) = r).
  { subst ip fp. rewrite firstn_skipn. subst m. rewrite val_app, val_zeros, val_digits by lia. lia. }
  assert (Hparts : all_digits ip /\ all_digits fp).
  { apply Forall_app. subst ip fp. rewrite firstn_skipn. exact Hm. }
  destruct Hparts as [Hdi Hdf].
  replace (lit "." ++ fp) with ((46%N :: fp) ++ []) by (rewrite app_nil_r; reflexivity).
  rewrite (StringToNumber_shape ip (46%N :: fp) fp [] 0).
  - rewrite Hval. unfold JsString.length. rewrite Hfp. reflexivity.
  - intro E. rewrite E in Hip. cbn in Hip. lia.
  - exact Hdi.
  - constructor. exact Hdf.
  - constructor.
Qed.

Lemma mag_num_nonneg x : 0 <= mag_num x.
Proof.
  destruct x; cbn [mag_num]; try lia.
  all: apply Z.mul_nonneg_nonneg; [lia | apply Z.pow_nonneg; lia].
Qed.

Lemma mag_den_pos x : 0 < mag_den x.
Proof. destruct x; cbn [mag_den]; try lia. all: apply Z.pow_pos_nonneg; lia. Qed.

Lemma hundredths_nonneg x : 0 <= hundredths x.
Proof.
  unfold hundredths. pose proof (mag_num_nonneg x). pose proof (mag_den_pos x).
  apply Z.div_pos; lia.
Qed.

Lemma nonneg_cases x :
  is_finite x = true -> ltb x zero = false ->
  (exists s, x = S754_zero s) \/ (exists m e, x = S754_finite false m e).
Proof.
  destruct x as [s | s | | s m e]; try discriminate.
  - intros _ _. left. now exists s.
  - intros _ H. destruct s; [discriminate H |]. right. now exists m, e.
Qed.

Lemma toFixed2_small x :
  is_finite x = true -> ltb x zero = false -> mag_num x < 10 ^ 21 * mag_den x ->
  StringToNumber (toFixed x 2) = of_decimal false (hundredths x) (- 2).
Proof.
  intros Hf Hlt Hsmall.
  assert (E : toFixed x 2 =
              let m := zeros (Z.of_nat 2 + 1 - JsString.length (digits (hundredths x)))
                       ++ digits (hundredths x) in
              firstn (List.length m - 2) m ++ lit "." ++ skipn (List.length m - 2) m).
  { unfold toFixed. rewrite Hlt.
    replace (10 ^ 21 * mag_den x <=? mag_num x) with false by (symmetry; apply Z.leb_gt; lia).
    destruct x; try discriminate; reflexivity. }
  rewrite E. cbv zeta. apply fixed2_parse. apply hundredths_nonneg.
Qed.

End ConversionFacts.

Section LargeFacts.

(** The exponential layout reads back as its digits and power of ten. *)
Lemma layout_roundtrip c n :
  0 < c -> 21 < n ->
  StringToNumber (layout c n) = of_decimal false c (n - JsString.length (digits c)).
Proof.
  intros Hc Hn. unfold layout.
  replace (n <=? 21) with false by (symmetry; apply Z.leb_gt; lia).
  replace (n <=? 0) with false by (symmetry; apply Z.leb_gt; lia).
  replace (n - 1 <? 0) with false by (symmetry; apply Z.ltb_ge; lia).
  rewrite !andb_false_r.
  pose proof (val_digits c ltac:(lia)) as Hval.
  pose proof (digits_all_digits c ltac:(lia)) as Hds.
  pose proof (digits_nonempty c) as Hne.
  assert (Hex : exponent (101%N :: 43%N :: digits (Z.abs (n - 1))) (n - 1)).
  { replace (n - 1) with (val (digits (Z.abs (n - 1)))) at 2 by (rewrite val_digits; lia).
    constructor; [apply digits_all_digits; lia | apply digits_nonempty]. }
  destruct (digits c) as [| c0 rest]; [congruence |].
  assert (Hc0 : all_digits [c0]) by (inversion Hds; repeat constructor; assumption).
  assert (Hrest : all_digits rest) by (inversion Hds; assumption).
  destruct rest as [| c1 rest'].
  - change (c0 :: lit "e" ++ lit "+" ++ digits (Z.abs (n - 1)))
      with ([c0] ++ [] ++ 101%N :: 43%N :: digits (Z.abs (n - 1))).
    rewrite (StringToNumber_shape [c0] [] [] _ (n - 1));
      [| congruence | assumption | constructor | assumption].
    cbn [app]. rewrite Hval. f_equal. unfold JsString.length. cbn [List.length]. lia.
  - set (rest := c1 :: rest') in *.
    change (c0 :: lit "." ++ rest ++ lit "e" ++ lit "+" ++ digits (Z.abs (n - 1)))
      with ([c0] ++ (46%N :: rest) ++ 101%N :: 43%N :: digits (Z.abs (n - 1))).
    rewrite (StringToNumber_shape [c0] (46%N :: rest) rest _ (n - 1));
      [| congruence | assumption | now constructor | assumption].
    cbn [app]. rewrite Hval. f_equal. unfold JsString.length. cbn [List.length]. lia.
Qed.

Lemma pos_lt_pow2_digits m : Zpos m < 2 ^ Zpos (digits2_pos m).
Proof.
  pose proof (Zdigits2_log2 (Zpos m) ltac:(lia)) as E. cbn [Zdigits2] in E. rewrite E.
  apply Z.log2_spec. lia.
Qed.

(** What a double of magnitude [10^21] or more looks like. *)
Lemma large_double s m e :
  is_double (S754_finite s m e) = true ->
  10 ^ 21 * mag_den (S754_finite s m e) <= mag_num (S754_finite s m e) ->
  1 <= e <= 971 /\ Zpos (digits2_pos m) = 53
  /\ mag_den (S754_finite s m e) = 1 /\ mag_num (S754_finite s m e) = Zpos m * 2 ^ e.
Proof.
  unfold is_double, valid_binary, bounded, canonical_mantissa. rewrite fexp_spec.
  rewrite andb_true_iff, Z.eqb_eq, Z.leb_le. unfold emax, prec. cbn [mag_den mag_num].
  intros [Hc He] Hbig. pose proof (pos_lt_pow2_digits m) as Hm.
  assert (He1 : 1 <= e).
  { destruct (Z.le_gt_cases 1 e) as [? | Hlt]; [assumption | exfalso].
    rewrite Z.max_l in Hbig by lia. rewrite (Z.max_r e 0), Z.pow_0_r, Z.mul_1_r in Hbig by lia.
    assert (2 ^ Zpos (digits2_pos m) <= 2 ^ 53) by (apply Z.pow_le_mono_r; lia).
    assert (1 <= 2 ^ (- e)) by (pose proof (Z.pow_pos_nonneg 2 (- e)); lia).
    assert (2 ^ 53 < 10 ^ 21) by reflexivity.
    nia. }
  repeat split; try lia.
  - rewrite Z.max_r by lia. reflexivity.
  - rewrite Z.max_l by lia. reflexivity.
Qed.

Section Shortest.

Variables (x : number) (X e10 : Z).
Hypothesis Hexact : round_ratio false X 1 = x.
Hypothesis Hmag : 10 ^ (e10 - 1) <= X < 10 ^ e10.
Hypothesis He10 : 22 <= e10.

Lemma leading_digits k (t := e10 - k) :
  1 <= k <= e10 -> 10 ^ (k - 1) <= X / (1 * 10 ^ t) < 10 ^ k.
Proof.
  intro Hk. rewrite Z.mul_1_l.
  assert (Ht : 0 < 10 ^ t) by (apply Z.pow_pos_nonneg; subst t; lia).
  assert (E1 : 10 ^ (e10 - 1) = 10 ^ t * 10 ^ (k - 1))
    by (rewrite <- Z.pow_add_r by (subst t; lia); f_equal; subst t; lia).
  assert (E2 : 10 ^ e10 = 10 ^ t * 10 ^ k)
    by (rewrite <- Z.pow_add_r by (subst t; lia); f_equal; subst t; lia).
  split.
  - apply Z.div_le_lower_bound; [assumption | lia].
  - apply Z.div_lt_upper_bound; [assumption | lia].
Qed.

Lemma shortest_aux_ok fuel : forall k,
  1 <= k -> k + Z.of_nat fuel <= 18 ->
  let '(c, t) := shortest_aux fuel x X 1 e10 k in
  of_decimal false c t = x /\ 0 < c /\ 21 < t + JsString.length (digits c).
Proof.
  induction fuel as [| fuel IH]; intros k Hk Hfuel.
  - cbn [shortest_aux]. change (Z.log2 1) with 0. rewrite Z.pow_0_r, Z.mul_1_r.
    assert (HX : 0 < X) by (assert (0 < 10 ^ (e10 - 1)) by (apply Z.pow_pos_nonneg; lia); lia).
    repeat split.
    + unfold of_decimal. cbn [Z.opp Z.leb Z.compare]. rewrite Z.pow_0_r, Z.mul_1_r. exact Hexact.
    + exact HX.
    + rewrite (digits_length_eq X e10) by lia. cbn [Z.opp]. lia.
  - cbn [shortest_aux]. cbv zeta.
    assert (Ht : 0 <= e10 - k) by lia.
    replace (0 <=? e10 - k) with true by (symmetry; apply Z.leb_le; lia).
    pose proof (leading_digits k ltac:(lia)) as Hlo. cbv zeta in Hlo.
    set (lo := X / (1 * 10 ^ (e10 - k))) in *.
    assert (Hp : 0 < 10 ^ (k - 1)) by (apply Z.pow_pos_nonneg; lia).
    assert (Llo : JsString.length (digits lo) = k) by (apply digits_length_eq; lia).
    set (hi := if lo + 1 =? 10 ^ k then (10 ^ (k - 1), e10 - k + 1) else (lo + 1, e10 - k)).
    assert (Hhi : 0 < fst hi /\ 21 < snd hi + JsString.length (digits (fst hi))).
    { subst hi. destruct (Z.eqb_spec (lo + 1) (10 ^ k)) as [E | E]; cbn [fst snd].
      - rewrite (digits_length_eq (10 ^ (k - 1)) k); lia.
      - rewrite (digits_length_eq (lo + 1) k); lia. }
    destruct (same (of_decimal false lo (e10 - k)) x) eqn:Elo;
      destruct (same (of_decimal false (fst hi) (snd hi)) x) eqn:Ehi;
      cbn [andb negb orb].
    + destruct (2 * X <=? (2 * lo + 1) * (1 * 10 ^ (e10 - k))).
      * apply same_eq in Elo. repeat split; [assumption | lia | lia].
      * apply same_eq in Ehi. destruct hi as [c t]. cbn [fst snd] in *.
        repeat split; [assumption | lia | lia].
    + apply same_eq in Elo. repeat split; [assumption | lia | lia].
    + apply same_eq in Ehi. destruct hi as [c t]. cbn [fst snd] in *.
      repeat split; [assumption | lia | lia].
    + apply IH; lia.
Qed.

End Shortest.

(** A double of magnitude [10^21] or more survives [toString] and back. *)
Lemma Number_toString_roundtrip m e :
  is_double (S754_finite false m e) = true ->
  10 ^ 21 * mag_den (S754_finite false m e) <= mag_num (S754_finite false m e) ->
  StringToNumber (Number_toString (S754_finite false m e)) = S754_finite false m e.
Proof.
  intros Hv Hbig. destruct (large_double false m e Hv Hbig) as (He & Hd & Hden & Hnum).
  unfold Number_toString, shortest. rewrite Hden in *. rewrite Hnum in *.
  set (X := Zpos m * 2 ^ e) in *.
  assert (Hexact : round_ratio false X 1 = S754_finite false m e)
    by (apply round_ratio_exact_1; assumption).
  assert (Hpos : 0 < X) by lia.
  pose proof (digits_length X Hpos) as Hmag.
  set (e10 := JsString.length (digits X)) in *.
  assert (He10 : 22 <= e10).
  { destruct (Z.le_gt_cases 22 e10) as [? | Hlt]; [assumption | exfalso].
    assert (10 ^ e10 <= 10 ^ 21) by (apply Z.pow_le_mono_r; lia). lia. }
  assert (Hdec : dec_exponent X 1 = e10).
  { unfold dec_exponent. replace (1 <=? X) with true by (symmetry; apply Z.leb_le; lia).
    rewrite Z.div_1_r. reflexivity. }
  pose proof (shortest_aux_ok _ X e10 Hexact Hmag He10 17 1 ltac:(lia) ltac:(lia)) as Hs.
  rewrite Hdec.
  destruct (shortest_aux 17 (S754_finite false m e) X 1 e10 1) as [c t].
  destruct Hs as (Hc & Hcpos & Hlen).
  cbn [app]. rewrite layout_roundtrip by assumption.
  replace (t + JsString.length (digits c) - JsString.length (digits c)) with t by lia.
  exact Hc.
Qed.

Lemma toFixed2_large m e :
  is_double (S754_finite false m e) = true ->
  10 ^ 21 * mag_den (S754_finite false m e) <= mag_num (S754_finite false m e) ->
  StringToNumber (toFixed (S754_finite false m e) 2) = S754_finite false m e.
Proof.
  intros Hv Hbig. unfold toFixed.
  replace (10 ^ 21 * mag_den (S754_finite false m e) <=? mag_num (S754_finite false m e))
    with true by (symmetry; apply Z.leb_le; assumption).
  cbn [ltb SFltb SFcompare zero SFabs app].
  apply Number_toString_roundtrip; assumption.
Qed.

End LargeFacts.

Section ValidityFacts.

Lemma Zdigits2_lt_pow2 a k : 0 <= a -> 0 <= k -> (a < 2 ^ k <-> Zdigits2 a <= k).
Proof.
  intros Ha Hk. destruct (Z.eq_dec a 0) as [-> | Hn].
  - cbn [Zdigits2]. split; intro; [lia | apply Z.pow_pos_nonneg; lia].
  - rewrite Zdigits2_log2 by lia. rewrite Z.log2_lt_pow2 by lia. lia.
Qed.

(** Dropping [k] low bits either leaves nothing or removes [k] digits. *)
Lemma Zdigits2_drop a k : 0 <= a -> 0 <= k ->
  (a / 2 ^ k = 0 /\ Zdigits2 a <= k)
  \/ (0 < a / 2 ^ k /\ Zdigits2 (a / 2 ^ k) = Zdigits2 a - k).
Proof.
  intros Ha Hk. assert (Hp : 0 < 2 ^ k) by (apply Z.pow_pos_nonneg; lia).
  destruct (Z.eq_dec (a / 2 ^ k) 0) as [E | E].
  - left. split; [assumption |]. apply Zdigits2_lt_pow2; try assumption.
    apply Z.div_small_iff in E; lia.
  - right. pose proof (Z.div_pos a (2 ^ k) Ha Hp).
    destruct (Zdigits2_shiftr a k Ha Hk) as [D | D]; [| lia].
    exfalso. assert (0 < a / 2 ^ k) by lia.
    rewrite Zdigits2_log2 in D by assumption. pose proof (Z.log2_nonneg (a / 2 ^ k)). lia.
Qed.

Lemma valid_finite s m e :
  valid_binary prec emax (S754_finite s m e) = true
  <-> fexp prec emax (Zpos (digits2_pos m) + e) = e /\ e <= 971.
Proof.
  cbn [valid_binary]. unfold bounded, canonical_mantissa.
  rewrite andb_true_iff, Z.eqb_eq, Z.leb_le. reflexivity.
Qed.

(** Rounding a significand that is not shorter than the format asks for
    gives a well-formed number. *)
Lemma binary_round_aux_valid s mx ex lx :
  0 <= mx -> ex <= fexp prec emax (Zdigits2 mx + ex) ->
  valid_binary prec emax (binary_round_aux prec emax s mx ex lx) = true.
Proof.
  intros Hm Hex. unfold binary_round_aux, shr_fexp. rewrite fexp_spec in *.
  set (k1 := Z.max (Zdigits2 mx + ex - 53) (-1074) - ex).
  assert (K1 : 0 <= k1) by (subst k1; lia).
  pose proof (shr_spec (shr_record_of_loc mx lx) ex k1) as S1.
  rewrite shr_m_record_of_loc in S1. specialize (S1 Hm).
  destruct (shr (shr_record_of_loc mx lx) ex k1) as [r1 e1]. destruct S1 as [M1 E1].
  rewrite Z.max_l in M1, E1 by lia. rewrite fexp_spec.
  set (mr := round_nearest_even (shr_m r1) (loc_of_shr_record r1)).
  pose proof (round_nearest_even_bounds (shr_m r1) (loc_of_shr_record r1)) as Hmr. fold mr in Hmr.
  assert (H1 : 0 <= shr_m r1).
  { rewrite M1. apply Z.div_pos; [assumption | apply Z.pow_pos_nonneg; lia]. }
  assert (He1 : e1 <= Z.max (Zdigits2 mr + e1 - 53) (-1074)).
  { pose proof (Zdigits2_mono (shr_m r1) mr ltac:(lia)) as Hmono.
    pose proof (Zdigits2_nonneg mr).
    destruct (Zdigits2_drop mx k1 Hm K1) as [[Z0 D0] | [Z0 D0]]; rewrite <- M1 in *;
      subst k1; lia. }
  set (k2 := Z.max (Zdigits2 mr + e1 - 53) (-1074) - e1).
  assert (K2 : 0 <= k2) by (subst k2; lia).
  pose proof (shr_spec (shr_record_of_loc mr loc_Exact) e1 k2) as S2.
  rewrite shr_m_record_of_loc in S2. specialize (S2 ltac:(lia)).
  destruct (shr (shr_record_of_loc mr loc_Exact) e1 k2) as [r2 e2]. destruct S2 as [M2 E2].
  rewrite Z.max_l in M2, E2 by lia.
  destruct (shr_m r2) as [| p | p] eqn:Ep; [reflexivity | | reflexivity].
  destruct (Z.leb_spec e2 (emax - prec)) as [Hle | Hgt]; [| reflexivity].
  apply valid_finite. split; [| exact Hle]. rewrite fexp_spec.
  destruct (Zdigits2_drop mr k2 ltac:(lia) K2) as [[Z0 D0] | [Z0 D0]]; rewrite <- M2 in *.
  - lia.
  - cbn [Zdigits2] in D0. rewrite D0. subst k2. lia.
Qed.

Lemma shl_align_spec mx ex ex' :
  let '(mz, ez) := shl_align mx ex ex' in
  ez <= ex' /\ ez <= ex /\ Zpos mz = Zpos mx * 2 ^ (ex - ez).
Proof.
  unfold shl_align. destruct (ex' - ex) as [| d | d] eqn:E.
  - rewrite Z.sub_diag, Z.pow_0_r, Z.mul_1_r. lia.
  - rewrite Z.sub_diag, Z.pow_0_r, Z.mul_1_r. lia.
  - split; [lia |]. split; [lia |].
    pose proof (shift_pos_correct d mx) as C. unfold shift_pos in C. rewrite C.
    replace (ex - ex') with (Zpos d) by lia. rewrite Z.mul_comm. reflexivity.
Qed.

Lemma fexp_mono a b : a <= b -> fexp prec emax a <= fexp prec emax b.
Proof. rewrite !fexp_spec. lia. Qed.

Lemma binary_round_valid s mx ex :
  valid_binary prec emax (binary_round prec emax s mx ex) = true.
Proof.
  unfold binary_round.
  pose proof (shl_align_spec mx ex (fexp prec emax (Zpos (digits2_pos mx) + ex))) as A.
  destruct (shl_align mx ex (fexp prec emax (Zpos (digits2_pos mx) + ex))) as [mz ez].
  destruct A as (A1 & A2 & A3).
  apply binary_round_aux_valid; [lia |].
  rewrite A3, Zdigits2_shiftl by lia. cbn [Zdigits2].
  replace (Zpos (digits2_pos mx) + (ex - ez) + ez) with (Zpos (digits2_pos mx) + ex) by lia.
  exact A1.
Qed.

Lemma binary_normalize_valid m e szero :
  valid_binary prec emax (binary_normalize prec emax m e szero) = true.
Proof. destruct m; [reflexivity | apply binary_round_valid ..]. Qed.

Lemma add_valid x y : is_double x = true -> is_double y = true -> is_double (add x y) = true.
Proof.
  unfold is_double, add. intros Hx Hy.
  destruct x as [sx | sx | | sx mx ex], y as [sy | sy | | sy my ey]; cbn [SFadd];
    try assumption; try reflexivity.
  - destruct sx, sy; reflexivity.
  - destruct sx, sy; reflexivity.
  - apply binary_normalize_valid.
Qed.

Lemma Zdigits2_mul a b : 0 < a -> 0 < b -> Zdigits2 a + Zdigits2 b - 1 <= Zdigits2 (a * b).
Proof.
  intros Ha Hb. rewrite !Zdigits2_log2 by (try apply Z.mul_pos_pos; lia).
  pose proof (Z.log2_mul_below a b Ha Hb). lia.
Qed.

Lemma mul_valid x y : is_double x = true -> is_double y = true -> is_double (mul x y) = true.
Proof.
  unfold is_double, mul. intros Hx Hy.
  destruct x as [sx | sx | | sx mx ex], y as [sy | sy | | sy my ey]; cbn [SFmul];
    try reflexivity.
  apply valid_finite in Hx, Hy. destruct Hx as [Cx Bx], Hy as [Cy By].
  apply binary_round_aux_valid; [lia |].
  pose proof (Zdigits2_mul (Zpos mx) (Zpos my) ltac:(lia) ltac:(lia)) as Hd.
  cbn [Zdigits2] in Hd. change (Zpos (mx * my)) with (Zpos mx * Zpos my).
  assert (0 < Zpos (digits2_pos mx)) by lia. assert (0 < Zpos (digits2_pos my)) by lia.
  set (dxy := Zdigits2 (Zpos mx * Zpos my)) in *.
  rewrite fexp_spec in *. lia.
Qed.

(** The quotient computed for a division has enough digits. *)
Lemma round_ratio_valid neg n d :
  0 <= n -> 0 < d -> is_double (round_ratio neg n d) = true.
Proof.
  intros Hn Hd. unfold is_double, round_ratio.
  destruct (Z.eqb_spec n 0) as [| Hn0]; [reflexivity |].
  unfold SFdiv_core_binary.
  set (d1 := Zdigits2 n). set (d2 := Zdigits2 d).
  replace (d1 + 0 - (d2 + 0)) with (d1 - d2) by lia. rewrite fexp_spec.
  set (e' := Z.min (Z.max (d1 - d2 - 53) (-1074)) (0 - 0)).
  assert (He' : e' <= 0) by (subst e'; lia).
  set (m' := match 0 - 0 - e' with Z.pos _ => Z.shiftl n (0 - 0 - e') | 0 => n | Z.neg _ => 0 end).
  assert (Hm' : m' = n * 2 ^ (- e')).
  { subst m'. replace (0 - 0 - e') with (- e') by lia.
    destruct (- e') as [| p | p] eqn:E; [rewrite Z.mul_1_r; reflexivity | | lia].
    rewrite Z.shiftl_mul_pow2 by lia. reflexivity. }
  rewrite div_eucl_spec.
  assert (Hp : 0 < 2 ^ (- e')) by (apply Z.pow_pos_nonneg; lia).
  assert (Hq : 0 <= m' / d) by (apply Z.div_pos; nia).
  apply binary_round_aux_valid; [exact Hq |]. rewrite fexp_spec.
  destruct (Z.le_gt_cases 0 (d1 - d2 - e' - 1)) as [Hbig | Hsmall].
  - cut (d1 - d2 - e' <= Zdigits2 (m' / d)); [subst e'; lia |].
    assert (Hlow : 2 ^ (d1 - d2 - e' - 1) <= m' / d).
    { apply Z.div_le_lower_bound; [assumption |].
      assert (Hn1 : 2 ^ (d1 - 1) <= n).
      { subst d1. rewrite Zdigits2_log2 by lia.
        replace (Z.log2 n + 1 - 1) with (Z.log2 n) by lia. apply Z.log2_spec. lia. }
      assert (Hd2 : d < 2 ^ d2).
      { subst d2. rewrite Zdigits2_log2 by lia. apply Z.log2_spec. lia. }
      assert (0 < d2) by (subst d2; rewrite Zdigits2_log2 by lia; pose proof (Z.log2_nonneg d); lia).
      assert (0 < d1) by (subst d1; rewrite Zdigits2_log2 by lia; pose proof (Z.log2_nonneg n); lia).
      rewrite Hm'.
      assert (E : 2 ^ (d1 - d2 - e' - 1) * 2 ^ d2 = 2 ^ (d1 - 1) * 2 ^ (- e')).
      { rewrite <- !Z.pow_add_r by lia. f_equal. lia. }
      assert (0 < 2 ^ (d1 - d2 - e' - 1)) by (apply Z.pow_pos_nonneg; lia).
      apply Z.le_trans with (2 ^ (d1 - d2 - e' - 1) * 2 ^ d2); [rewrite Z.mul_comm; nia |].
      rewrite E. nia. }
    assert (0 < 2 ^ (d1 - d2 - e' - 1)) by (apply Z.pow_pos_nonneg; lia).
    destruct (Z.le_gt_cases (d1 - d2 - e') (Zdigits2 (m' / d))) as [? | Hlt]; [assumption |].
    exfalso. assert (Zdigits2 (m' / d) <= d1 - d2 - e' - 1) as Hle by lia.
    apply Zdigits2_lt_pow2 in Hle; lia.
  - (* The exponent is the smallest one. *)
    pose proof (Zdigits2_nonneg (m' / d)). subst e'. lia.
Qed.

End ValidityFacts.

Section MoneyFacts.

Lemma finite_nonneg_iff a :
  finite_nonneg a = true <-> is_finite a = true /\ ltb a zero = false.
Proof. unfold finite_nonneg. rewrite andb_true_iff, negb_true_iff. reflexivity. Qed.

Lemma hundredths_large m e :
  mag_den (S754_finite false m e) = 1 ->
  hundredths (S754_finite false m e) = 100 * mag_num (S754_finite false m e).
Proof.
  intro Hd. unfold hundredths. rewrite Hd. change (10 ^ 2) with 100.
  symmetry. apply Z.div_unique with 1; lia.
Qed.

Lemma hundredths_small a :
  mag_num a < 10 ^ 21 * mag_den a -> Zdigits2 (hundredths a) <= 1000.
Proof.
  intro H. pose proof (mag_num_nonneg a). pose proof (mag_den_pos a).
  pose proof (hundredths_nonneg a).
  apply Z.le_trans with 77; [| lia]. apply Zdigits2_lt_pow2; try lia.
  unfold hundredths in *. change (10 ^ 2) with 100.
  apply Z.lt_le_trans with (10 ^ 23 + 1); [| apply Z.leb_le; vm_compute; reflexivity].
  apply Z.div_lt_upper_bound; [lia |].
  change (10 ^ 21) with 1000000000000000000000 in H.
  change (10 ^ 23) with 100000000000000000000000. lia.
Qed.

(** What the constructor stores is the amount rounded to two decimals. *)
Lemma stored_amount a :
  is_double a = true -> finite_nonneg a = true ->
  StringToNumber (toFixed a 2) = rounded_to_2_decimals a.
Proof.
  intros Hv Hfn. apply finite_nonneg_iff in Hfn as [Hf Hlt].
  destruct (Z.lt_ge_cases (mag_num a) (10 ^ 21 * mag_den a)) as [Hs | Hl].
  - now apply toFixed2_small.
  - destruct (nonneg_cases a Hf Hlt) as [[s ->] | (m & e & ->)].
    + cbn [mag_num mag_den] in Hl. lia.
    + rewrite toFixed2_large by assumption.
      destruct (large_double false m e Hv Hl) as (He & Hd & Hden & Hnum).
      unfold rounded_to_2_decimals. rewrite hundredths_large, Hnum by assumption.
      symmetry. unfold of_decimal. cbn [Z.leb Z.compare Z.opp].
      change (10 ^ 2) with 100. apply round_ratio_exact_100; assumption.
Qed.

Lemma finite_sign_nonneg x :
  match x with
  | S754_zero s' => s' = false
  | S754_finite s' _ _ => s' = false
  | _ => False
  end -> finite_nonneg x = true.
Proof. destruct x as [s | s | | s m e]; try contradiction; intros ->; reflexivity. Qed.

(** Rounding keeps an amount a finite, non-negative double. *)
Lemma rounded_ok a :
  is_double a = true -> finite_nonneg a = true ->
  is_double (rounded_to_2_decimals a) = true
  /\ finite_nonneg (rounded_to_2_decimals a) = true.
Proof.
  intros Hv Hfn. pose proof Hfn as Hfn'. apply finite_nonneg_iff in Hfn' as [Hf Hlt].
  destruct (Z.lt_ge_cases (mag_num a) (10 ^ 21 * mag_den a)) as [Hs | Hl].
  - unfold rounded_to_2_decimals, of_decimal. cbn [Z.leb Z.compare Z.opp].
    pose proof (hundredths_nonneg a). split.
    + apply round_ratio_valid; [assumption | reflexivity].
    + apply finite_sign_nonneg. apply round_ratio_finite;
        [assumption | reflexivity | now apply hundredths_small].
  - rewrite <- stored_amount by assumption.
    destruct (nonneg_cases a Hf Hlt) as [[s ->] | (m & e & ->)].
    + cbn [mag_num mag_den] in Hl. lia.
    + rewrite toFixed2_large by assumption. split; assumption.
Qed.

Lemma Money_new_ok a c :
  is_double a = true -> finite_nonneg a = true ->
  Money_new (VNumber a) (VCurrency c)
  = Ok {| Money_amount := rounded_to_2_decimals a; Money_currency := c |}.
Proof.
  intros Hv Hfn. unfold Money_new. rewrite stored_amount by assumption.
  apply finite_nonneg_iff in Hfn as [Hf Hlt]. rewrite Hf, Hlt. reflexivity.
Qed.

Lemma Money_new_rejects a currency :
  finite_nonneg a = false ->
  Money_new (VNumber a) currency
  = Throw (ValidationError (lit "Amount must be a positive number")).
Proof.
  unfold finite_nonneg, Money_new. intro H.
  destruct (is_finite a); cbn [andb negb orb] in *; [| reflexivity].
  apply negb_false_iff in H. rewrite H. reflexivity.
Qed.

Lemma built_ok m :
  built m ->
  is_double (Money_amount m) = true /\ finite_nonneg (Money_amount m) = true.
Proof.
  intros (a & c & Hv & Hnew).
  destruct (finite_nonneg a) eqn:Hfn.
  - rewrite Money_new_ok in Hnew by assumption. injection Hnew as <-.
    now apply rounded_ok.
  - rewrite Money_new_rejects in Hnew by assumption. discriminate.
Qed.

Lemma binary_round_aux_sign s mx ex lx :
  match binary_round_aux prec emax s mx ex lx with
  | S754_zero s' | S754_finite s' _ _ | S754_infinity s' => s' = s
  | S754_nan => True
  end.
Proof.
  unfold binary_round_aux.
  destruct (shr_fexp prec emax mx ex lx) as [r1 e1].
  destruct (shr_fexp prec emax _ e1 loc_Exact) as [r2 e2].
  destruct (shr_m r2); [reflexivity | | exact I].
  destruct (e2 <=? emax - prec); reflexivity.
Qed.

Lemma finite_nonneg_cases x :
  finite_nonneg x = true ->
  (exists s, x = S754_zero s) \/ (exists m e, x = S754_finite false m e).
Proof. intro H. apply finite_nonneg_iff in H as [Hf Hlt]. now apply nonneg_cases. Qed.

(** A finite sum of amounts is not negative. *)
Lemma add_nonneg x y :
  finite_nonneg x = true -> finite_nonneg y = true -> is_finite (add x y) = true ->
  finite_nonneg (add x y) = true.
Proof.
  intros Hx Hy.
  destruct (finite_nonneg_cases x Hx) as [[sx ->] | (mx & ex & ->)];
    destruct (finite_nonneg_cases y Hy) as [[sy ->] | (my & ey & ->)]; unfold add; cbn [SFadd].
  - destruct sx, sy; reflexivity.
  - reflexivity.
  - reflexivity.
  - cbn [cond_Zopp]. unfold binary_normalize.
    match goal with |- context [Z.pos ?a + Z.pos ?b] => change (Z.pos a + Z.pos b) with (Z.pos (a + b)) end.
    unfold binary_round.
    destruct (shl_align _ _ _) as [mz ez].
    pose proof (binary_round_aux_sign false (Zpos mz) ez loc_Exact) as Hs.
    destruct (binary_round_aux prec emax false (Z.pos mz) ez loc_Exact) as [s | s | | s m e];
      try discriminate; subst; reflexivity.
Qed.

(** A finite product of an amount and a non-negative number is not negative. *)
Lemma mul_nonneg x y :
  finite_nonneg x = true -> finite_nonneg y = true -> is_finite (mul x y) = true ->
  finite_nonneg (mul x y) = true.
Proof.
  intros Hx Hy.
  destruct (finite_nonneg_cases x Hx) as [[sx ->] | (mx & ex & ->)];
    destruct (finite_nonneg_cases y Hy) as [[sy ->] | (my & ey & ->)]; unfold mul; cbn [SFmul];
    try reflexivity.
  cbn [xorb].
  pose proof (binary_round_aux_sign false (Zpos (mx * my)) (ex + ey) loc_Exact) as Hs.
  destruct (binary_round_aux prec emax false (Z.pos (mx * my)) (ex + ey) loc_Exact)
    as [s | s | | s m e]; try discriminate; subst; reflexivity.
Qed.

Lemma Money_new_number_cases a c :
  is_double a = true ->
  (is_finite a = true -> finite_nonneg a = true) ->
  (is_finite a = true
   /\ Money_new (VNumber a) (VCurrency c)
      = Ok {| Money_amount := rounded_to_2_decimals a; Money_currency := c |})
  \/ (is_finite a = false
      /\ Money_new (VNumber a) (VCurrency c)
         = Throw (ValidationError (lit "Amount must be a positive number"))).
Proof.
  intros Hv Hn. destruct (is_finite a) eqn:Hf.
  - left. split; [reflexivity |]. apply Money_new_ok; auto.
  - right. split; [reflexivity |]. apply Money_new_rejects.
    unfold finite_nonneg. rewrite Hf. reflexivity.
Qed.

End MoneyFacts.

Section ArithmeticFacts.

Lemma Money_add_same_currency this o :
  built this -> built o ->
  Currency_equals (Money_currency this) (VCurrency (Money_currency o)) = true ->
  let sum := add (Money_amount this) (Money_amount o) in
  (is_finite sum = true
   /\ Money_add this (VMoney o)
      = Ok {| Money_amount := rounded_to_2_decimals sum;
              Money_currency := Money_currency this |})
  \/ (is_finite sum = false /\ Money_add this (VMoney o) = Throw overflow_error).
Proof.
  intros Ht Ho Heq sum. destruct (built_ok this Ht) as [Vt Nt]. destruct (built_ok o Ho) as [Vo No].
  unfold Money_add. rewrite Heq. cbn [negb].
  apply Money_new_number_cases; [now apply add_valid | now apply add_nonneg].
Qed.

Lemma Money_multiply_number this k :
  built this -> is_double k = true -> finite_nonneg k = true ->
  let product := mul (Money_amount this) k in
  (is_finite product = true
   /\ Money_multiply this (VNumber k)
      = Ok {| Money_amount := rounded_to_2_decimals product;
              Money_currency := Money_currency this |})
  \/ (is_finite product = false /\ Money_multiply this (VNumber k) = Throw overflow_error).
Proof.
  intros Ht Vk Nk product. destruct (built_ok this Ht) as [Vt Nt].
  unfold Money_multiply. pose proof Nk as Nk'. apply finite_nonneg_iff in Nk' as [Hf Hlt].
  rewrite Hf, Hlt. cbn [negb orb].
  apply Money_new_number_cases; [now apply mul_valid | now apply mul_nonneg].
Qed.

Lemma built_intro a c :
  is_double a = true -> finite_nonneg a = true ->
  built {| Money_amount := rounded_to_2_decimals a; Money_currency := c |}.
Proof. intros Hv Hn. exists a, c. split; [assumption | now apply Money_new_ok]. Qed.

Lemma built_value m : built m -> forall o, VMoney m = VMoney o -> built o.
Proof. intros H o E. injection E as <-. exact H. Qed.

End ArithmeticFacts.

Section UuidFacts.

Import Stdlib.Strings.Byte.
Import Uuid.

Lemma hex_hi b : hex_class (hex_char (to_N b / 16)) = true.
Proof. destruct b; vm_compute; reflexivity. Qed.

Lemma hex_lo b : hex_class (hex_char (to_N b mod 16)) = true.
Proof. destruct b; vm_compute; reflexivity. Qed.

Lemma version_hi b :
  version_class (hex_char (to_N (byte_of_N (N.lor (N.land (to_N b) 15) 64)) / 16)) = true.
Proof. destruct b; vm_compute; reflexivity. Qed.

Lemma variant_hi b :
  variant_class (hex_char (to_N (byte_of_N (N.lor (N.land (to_N b) 63) 128)) / 16)) = true.
Proof. destruct b; vm_compute; reflexivity. Qed.

Lemma m_class_cons p c r s :
  p c = true -> matches r s -> matches (Cat (Class p) r) (c :: s).
Proof.
  intros Hp Hr. change (c :: s) with ([c] ++ s). constructor; [now constructor | assumption].
Qed.

Lemma m_rep_nil p r s : matches r s -> matches (Cat (Rep 0 (Class p)) r) s.
Proof. intro H. change s with ([] ++ s). constructor; [constructor | assumption]. Qed.

Lemma m_rep_cons p n c r s :
  p c = true -> matches (Cat (Rep n (Class p)) r) s ->
  matches (Cat (Rep (S n) (Class p)) r) (c :: s).
Proof.
  intros Hp H. inversion H as [| | ? ? s1 s2 M1 M2 | | | |]; subst.
  change (c :: s1 ++ s2) with ((c :: s1) ++ s2). constructor; [| assumption].
  simpl. now apply m_class_cons.
Qed.

Lemma m_rep_last p n c s :
  p c = true -> matches (Rep n (Class p)) s -> matches (Rep (S n) (Class p)) (c :: s).
Proof. intros. simpl. now apply m_class_cons. Qed.

Lemma v4_chars rng :
  v4 rng =
  let b := fun i => rng i in
  let b6 := byte_of_N (N.lor (N.land (to_N (rng 6%nat)) 15) 64) in
  let b8 := byte_of_N (N.lor (N.land (to_N (rng 8%nat)) 63) 128) in
  byteToHex (b 0%nat) ++ byteToHex (b 1%nat) ++ byteToHex (b 2%nat) ++ byteToHex (b 3%nat)
  ++ [45%N] ++ byteToHex (b 4%nat) ++ byteToHex (b 5%nat)
  ++ [45%N] ++ byteToHex b6 ++ byteToHex (b 7%nat)
  ++ [45%N] ++ byteToHex b8 ++ byteToHex (b 9%nat)
  ++ [45%N] ++ byteToHex (b 10%nat) ++ byteToHex (b 11%nat) ++ byteToHex (b 12%nat)
  ++ byteToHex (b 13%nat) ++ byteToHex (b 14%nat) ++ byteToHex (b 15%nat).
Proof.
  unfold v4, stringify, set_at, at_.
  cbn [List.map seq List.length Nat.ltb Nat.leb firstn skipn nth app].
  reflexivity.
Qed.

Ltac uuid_char :=
  lazymatch goal with
  | |- hex_class (hex_char (to_N _ / 16)) = true => apply hex_hi
  | |- hex_class (hex_char (to_N _ mod 16)) = true => apply hex_lo
  | |- version_class _ = true => apply version_hi
  | |- variant_class _ = true => apply variant_hi
  | |- N.eqb _ _ = true => reflexivity
  end.

(** Every string the generator produces passes the validation pattern. *)
Lemma v4_valid rng : test REGEX (v4 rng) = true.
Proof.
  rewrite v4_chars. cbv zeta. unfold byteToHex. cbn [app].
  apply test_matches. apply MAltL. unfold hex, dash, Chr.
  repeat first
    [ apply m_rep_cons; [uuid_char |]
    | apply m_rep_nil
    | apply m_class_cons; [uuid_char |]
    | apply m_rep_last; [uuid_char |]
    | apply MEps ].
Qed.

End UuidFacts.

Section ModelFacts.

Lemma isValidUUID_generate rng : isValidUUID (VString (generateUUID rng)) = true.
Proof. unfold isValidUUID, Uuid.validate, generateUUID. cbn [typeof_string ToString andb]. apply v4_valid. Qed.

Lemma SupplierId_new_valid u :
  isValidUUID (VString u) = true ->
  SupplierId_new (VString u) = Ok {| SupplierId_value := u |}.
Proof. intro H. unfold SupplierId_new. rewrite H. reflexivity. Qed.

Lemma ProductId_new_valid u :
  isValidUUID (VString u) = true ->
  ProductId_new (VString u) = Ok {| ProductId_value := u |}.
Proof. intro H. unfold ProductId_new. rewrite H. reflexivity. Qed.

Lemma VALID_CODES_includes_In s : VALID_CODES_includes (VString s) = true <-> In s VALID_CODES.
Proof.
  unfold VALID_CODES_includes. rewrite existsb_exists. split.
  - intros (x & Hx & E). apply jsstring_eqb_eq in E. now subst.
  - intro H. exists s. split; [assumption | apply jsstring_eqb_refl].
Qed.

End ModelFacts.

Section EmailFacts.

Lemma matches_Cat_inv r1 r2 s :
  matches (Cat r1 r2) s <-> exists s1 s2, s = s1 ++ s2 /\ matches r1 s1 /\ matches r2 s2.
Proof.
  split.
  - intro H. inversion H as [| | ? ? s1 s2 M1 M2 | | | |]; subst. exists s1, s2. auto.
  - intros (s1 & s2 & -> & M1 & M2). now constructor.
Qed.

Lemma matches_Chr_inv c s : matches (Chr c) s <-> s = [c].
Proof.
  unfold Chr. split.
  - intro H. inversion H as [| ? x Hx | | | | |]; subst. apply N.eqb_eq in Hx. now subst.
  - intros ->. constructor. apply N.eqb_refl.
Qed.

Lemma isValidEmail_shape s :
  isValidEmail (VString s) = true <->
  exists a b c, s = a ++ [64%N] ++ b ++ [46%N] ++ c
                /\ email_part a /\ email_part b /\ email_part c.
Proof.
  unfold isValidEmail, emailRegex, email_part. cbn [ToString]. rewrite test_matches.
  rewrite matches_Cat_inv. split.
  - intros (a & r1 & -> & Ma & H). apply matches_Cat_inv in H as (x & r2 & -> & Mx & H).
    apply matches_Chr_inv in Mx as ->.
    apply matches_Cat_inv in H as (b & r3 & -> & Mb & H).
    apply matches_Cat_inv in H as (y & c & -> & My & Mc).
    apply matches_Chr_inv in My as ->.
    apply matches_Plus_Class in Ma, Mb, Mc. exists a, b, c. auto.
  - intros (a & b & c & -> & Ha & Hb & Hc). exists a, ([64%N] ++ b ++ [46%N] ++ c).
    split; [reflexivity |]. split; [now apply matches_Plus_Class |].
    constructor; [now apply matches_Chr_inv |].
    constructor; [now apply matches_Plus_Class |].
    constructor; [now apply matches_Chr_inv | now apply matches_Plus_Class].
Qed.

End EmailFacts.

Section SupplierFacts.

(** [!v instanceof Money] negates first, and the boolean it tests is never an
    instance of Money. *)
Lemma not_instanceof_Money_never v : instanceof_Money (js_not v) = false.
Proof. reflexivity. Qed.

Lemma Supplier_new_without_email i n v :
  name_ok n ->
  Supplier_new {| id := VSupplierId i; name := VString n;
                  contactEmail := VNull; lastOrderTotalPrice := v |}
  = Ok {| Supplier_id := i; Supplier_name := n; Supplier_contactEmail := VNull;
          Supplier_lastOrderTotalPrice := default_null v |}.
Proof.
  intros [H1 H2]. unfold Supplier_new. cbn [id name contactEmail lastOrderTotalPrice].
  replace (JsString.length n <? 2) with false by (symmetry; apply Z.ltb_ge; lia).
  replace (100 <? JsString.length n) with false by (symmetry; apply Z.ltb_ge; lia).
  rewrite not_instanceof_Money_never, andb_false_r. reflexivity.
Qed.

Lemma assign_frame a this :
  Supplier_id (snd (assign a this)) = Supplier_id this
  /\ Supplier_name (snd (assign a this)) = Supplier_name this.
Proof.
  destruct a as [v | v]; cbn [assign].
  - unfold Supplier_set_contactEmail.
    destruct (is_null v || negb (isValidEmail v)); split; reflexivity.
  - unfold Supplier_set_lastOrderTotalPrice.
    destruct (instanceof_Money (js_not v)); split; reflexivity.
Qed.

Lemma run_frame l : forall this,
  Supplier_id (run l this) = Supplier_id this
  /\ Supplier_name (run l this) = Supplier_name this.
Proof.
  unfold run. induction l as [| a l IH]; intro this; cbn [fold_left]; [split; reflexivity |].
  destruct (IH (snd (assign a this))) as [H1 H2].
  destruct (assign_frame a this) as [H3 H4]. split; congruence.
Qed.

Lemma Supplier_new_fields p s :
  Supplier_new p = Ok s ->
  id p = VSupplierId (Supplier_id s) /\ name p = VString (Supplier_name s).
Proof.
  unfold Supplier_new. destruct (id p); try discriminate. destruct (name p); try discriminate.
  repeat match goal with |- context [if ?b then _ else _] => destruct b end;
    try discriminate.
  intro H. injection H as <-. split; reflexivity.
Qed.

End SupplierFacts.

Section MoneyMoreFacts.

Lemma round_ratio_plain n d :
  0 <= n -> 0 < d -> Zdigits2 n <= 1000 -> plain_amount (round_ratio false n d).
Proof.
  intros Hn Hd Hb. pose proof (round_ratio_finite false n d Hn Hd Hb) as H.
  destruct (round_ratio false n d) as [s | s | | s m e]; try contradiction; subst.
  - left. reflexivity.
  - right. eauto.
Qed.

Lemma rounded_plain a :
  is_double a = true -> finite_nonneg a = true -> plain_amount (rounded_to_2_decimals a).
Proof.
  intros Hv Hfn. pose proof Hfn as Hfn'. apply finite_nonneg_iff in Hfn' as [Hf Hlt].
  destruct (Z.lt_ge_cases (mag_num a) (10 ^ 21 * mag_den a)) as [Hs | Hl].
  - unfold rounded_to_2_decimals, of_decimal. cbn [Z.leb Z.compare Z.opp].
    apply round_ratio_plain;
      [apply hundredths_nonneg | reflexivity | now apply hundredths_small].
  - rewrite <- stored_amount by assumption.
    destruct (nonneg_cases a Hf Hlt) as [[s ->] | (m & e & ->)].
    + cbn [mag_num mag_den] in Hl. lia.
    + rewrite toFixed2_large by assumption. right. eauto.
Qed.

Lemma built_invariant m : built m -> Money_invariant m.
Proof.
  intros (a & c & Hv & Hnew). destruct (finite_nonneg a) eqn:Hfn.
  - rewrite Money_new_ok in Hnew by assumption. injection Hnew as <-.
    simpl. split; [apply rounded_ok; assumption |].
    split; [now apply rounded_plain |].
    exists (hundredths a). split; [apply hundredths_nonneg | reflexivity].
  - rewrite Money_new_rejects in Hnew by assumption. discriminate.
Qed.

Lemma made_built m : made m -> built m.
Proof.
  induction 1 as [a code c m Hv Hc Hnew | x y m Hx IHx Hy IHy Hadd | x k m Hx IHx Hk Hmul].
  - exists a, c. auto.
  - destruct (built_ok x IHx) as [Vx Nx]. destruct (built_ok y IHy) as [Vy Ny].
    destruct (Currency_equals (Money_currency x) (VCurrency (Money_currency y))) eqn:Heq.
    + destruct (Money_add_same_currency x y IHx IHy Heq) as [[Hf E] | [Hf E]];
        rewrite E in Hadd; [| discriminate].
      injection Hadd as <-. apply built_intro; [now apply add_valid | now apply add_nonneg].
    + unfold Money_add in Hadd. rewrite Heq in Hadd. discriminate.
  - destruct (built_ok x IHx) as [Vx Nx].
    destruct (finite_nonneg k) eqn:Hn.
    + destruct (Money_multiply_number x k IHx Hk Hn) as [[Hf E] | [Hf E]];
        rewrite E in Hmul; [| discriminate].
      injection Hmul as <-. apply built_intro; [now apply mul_valid | now apply mul_nonneg].
    + exfalso. unfold Money_multiply, finite_nonneg in *.
      destruct (is_finite k); cbn [andb negb orb] in *; [| discriminate].
      apply negb_false_iff in Hn. rewrite Hn in Hmul. discriminate.
Qed.

Lemma Currency_new_inv v c :
  Currency_new v = Ok c
  <-> exists s, v = VString s /\ In s VALID_CODES /\ c = {| Currency_code := s |}.
Proof.
  unfold Currency_new. split.
  - destruct (VALID_CODES_includes v) eqn:E; [| discriminate].
    destruct v; try discriminate E. apply VALID_CODES_includes_In in E.
    intro H. injection H as <-. exists s. auto.
  - intros (s & -> & Hin & ->). apply VALID_CODES_includes_In in Hin. rewrite Hin. reflexivity.
Qed.

Lemma Money_new_currency a c m :
  Money_new a (VCurrency c) = Ok m -> Money_currency m = c.
Proof.
  unfold Money_new. destruct a; try discriminate.
  destruct (negb (is_finite x) || ltb x zero); [discriminate |].
  intro H. injection H as <-. reflexivity.
Qed.

(** The currency of a Money is one of the four. *)
Lemma made_currency m : made m -> In (Currency_code (Money_currency m)) VALID_CODES.
Proof.
  induction 1 as [a code c m Hv Hc Hnew | x y m Hx IHx Hy IHy Hadd | x k m Hx IHx Hk Hmul].
  - apply Money_new_currency in Hnew. rewrite Hnew.
    apply Currency_new_inv in Hc as (s & _ & Hin & ->). exact Hin.
  - unfold Money_add in Hadd.
    destruct (negb (Currency_equals (Money_currency x) (VCurrency (Money_currency y))));
      [discriminate |].
    apply Money_new_currency in Hadd. now rewrite Hadd.
  - unfold Money_multiply in Hmul.
    destruct (negb (is_finite k) || ltb k zero); [discriminate |].
    apply Money_new_currency in Hmul. now rewrite Hmul.
Qed.

(** [===] on stored amounts is identity. *)
Lemma strict_eqb_plain x y :
  plain_amount x -> plain_amount y -> (strict_eqb x y = true <-> x = y).
Proof.
  unfold strict_eqb, SFeqb.
  intros [-> | (m & e & ->)] [-> | (m' & e' & ->)]; cbn [SFcompare zero].
  - split; reflexivity.
  - split; discriminate.
  - split; discriminate.
  - destruct (Z.compare_spec e e') as [-> | Hlt | Hgt].
    + change (Pos.compare_cont Eq m m') with (Pos.compare m m').
      destruct (Pos.compare_spec m m') as [-> | Hm | Hm].
      * split; reflexivity.
      * split; [discriminate | intro E; injection E as E; lia].
      * split; [discriminate | intro E; injection E as E; lia].
    + split; [discriminate | intro E; injection E as _ E; lia].
    + split; [discriminate | intro E; injection E as _ E; lia].
Qed.

Lemma Currency_equals_eq c c' : Currency_equals c (VCurrency c') = true <-> c = c'.
Proof.
  unfold Currency_equals. rewrite jsstring_eqb_eq. destruct c, c'; simpl.
  split; congruence.
Qed.

Lemma add_comm x y : add x y = add y x.
Proof.
  unfold add.
  destruct x as [sx | sx | | sx mx ex], y as [sy | sy | | sy my ey]; cbn [SFadd];
    try reflexivity; try (destruct sx, sy; reflexivity).
  rewrite Z.add_comm, (Z.min_comm ey ex). reflexivity.
Qed.

(** The text [toFixed(2)] writes for an amount below [1e21]. *)
Lemma toFixed2_layout x :
  is_finite x = true -> ltb x zero = false -> below_1e21 x ->
  exists ip fp,
    toFixed x 2 = ip ++ lit "." ++ fp
    /\ ip <> [] /\ all_digits ip /\ all_digits fp /\ List.length fp = 2%nat
    /\ val (ip ++ fp) = hundredths x.
Proof.
  intros Hf Hlt Hsmall. unfold below_1e21 in Hsmall.
  set (m := zeros (Z.of_nat 2 + 1 - JsString.length (digits (hundredths x)))
            ++ digits (hundredths x)).
  assert (E : toFixed x 2 = firstn (List.length m - 2) m ++ lit "." ++ skipn (List.length m - 2) m).
  { unfold toFixed. rewrite Hlt.
    replace (10 ^ 21 * mag_den x <=? mag_num x) with false by (symmetry; apply Z.leb_gt; lia).
    destruct x; try discriminate; reflexivity. }
  pose proof (hundredths_nonneg x) as Hr.
  assert (Hm : all_digits m).
  { apply Forall_app. split; [apply zeros_all_digits | now apply digits_all_digits]. }
  assert (Hlen : (3 <= List.length m)%nat).
  { subst m. rewrite length_app, zeros_length. unfold JsString.length. lia. }
  exists (firstn (List.length m - 2) m), (skipn (List.length m - 2) m).
  split; [exact E |]. split.
  - intro C. apply (f_equal (@List.length N)) in C. rewrite length_firstn in C. cbn in C. lia.
  - assert (Hparts : all_digits (firstn (List.length m - 2) m)
                     /\ all_digits (skipn (List.length m - 2) m)).
    { apply Forall_app. rewrite firstn_skipn. exact Hm. }
    destruct Hparts as [Hdi Hdf]. split; [exact Hdi |]. split; [exact Hdf |].
    split; [rewrite length_skipn; lia |].
    rewrite firstn_skipn. subst m. rewrite val_app, val_zeros, val_digits by lia. lia.
Qed.

End MoneyMoreFacts.

Section NearFacts.

Lemma pow2_pos k : 0 <= k -> 0 < 2 ^ k.
Proof. intro H. apply Z.pow_pos_nonneg; lia. Qed.

Lemma pow2_split a b : 0 <= a -> 0 <= b -> 2 ^ (a + b) = 2 ^ a * 2 ^ b.
Proof. intros. apply Z.pow_add_r; assumption. Qed.

(** The result of rounding lies within one unit of its last place of the
    significand rounded. *)
Lemma binary_round_aux_near s mx ex lx s' m e :
  0 <= mx ->
  binary_round_aux prec emax s mx ex lx = S754_finite s' m e ->
  ex <= e /\ (Zpos m - 1) * 2 ^ (e - ex) <= mx < (Zpos m + 1) * 2 ^ (e - ex).
Proof.
  intros Hm. unfold binary_round_aux, shr_fexp.
  set (k1 := fexp prec emax (Zdigits2 mx + ex) - ex).
  pose proof (shr_spec (shr_record_of_loc mx lx) ex k1) as S1.
  rewrite shr_m_record_of_loc in S1. specialize (S1 Hm).
  destruct (shr (shr_record_of_loc mx lx) ex k1) as [r1 e1]. destruct S1 as [M1 E1].
  set (mr := round_nearest_even (shr_m r1) (loc_of_shr_record r1)).
  pose proof (round_nearest_even_bounds (shr_m r1) (loc_of_shr_record r1)) as Hmr. fold mr in Hmr.
  assert (P1 : 0 < 2 ^ Z.max k1 0) by (apply pow2_pos; lia).
  assert (H1 : 0 <= shr_m r1) by (rewrite M1; apply Z.div_pos; lia).
  set (k2 := fexp prec emax (Zdigits2 mr + e1) - e1).
  pose proof (shr_spec (shr_record_of_loc mr loc_Exact) e1 k2) as S2.
  rewrite shr_m_record_of_loc in S2. specialize (S2 ltac:(lia)).
  destruct (shr (shr_record_of_loc mr loc_Exact) e1 k2) as [r2 e2]. destruct S2 as [M2 E2].
  assert (P2 : 0 < 2 ^ Z.max k2 0) by (apply pow2_pos; lia).
  destruct (shr_m r2) as [| p | p] eqn:Ep; [discriminate | | discriminate].
  destruct (e2 <=? emax - prec); [| discriminate].
  intro H. injection H as _ <- <-.
  replace (e2 - ex) with (Z.max k1 0 + Z.max k2 0) by lia.
  rewrite pow2_split by lia.
  set (A := 2 ^ Z.max k1 0) in *. set (B := 2 ^ Z.max k2 0) in *.
  pose proof (Z.div_mod mx A ltac:(lia)) as D1. pose proof (Z.mod_pos_bound mx A P1) as R1.
  pose proof (Z.div_mod mr B ltac:(lia)) as D2. pose proof (Z.mod_pos_bound mr B P2) as R2.
  rewrite <- M1 in D1. rewrite <- M2 in D2.
  set (t := shr_m r1) in *. split; [lia |]. split; nia.
Qed.

(** Rounding a significand that is not below the smallest number does not
    give zero. *)
Lemma binary_round_aux_nonzero s mx ex lx s' :
  0 < mx -> - 1074 < Zdigits2 mx + ex ->
  binary_round_aux prec emax s mx ex lx <> S754_zero s'.
Proof.
  intros Hm Hd. unfold binary_round_aux, shr_fexp. rewrite fexp_spec.
  set (k1 := Z.max (Zdigits2 mx + ex - 53) (-1074) - ex).
  pose proof (shr_spec (shr_record_of_loc mx lx) ex k1) as S1.
  rewrite shr_m_record_of_loc in S1. specialize (S1 ltac:(lia)).
  destruct (shr (shr_record_of_loc mx lx) ex k1) as [r1 e1]. destruct S1 as [M1 E1].
  set (mr := round_nearest_even (shr_m r1) (loc_of_shr_record r1)).
  pose proof (round_nearest_even_bounds (shr_m r1) (loc_of_shr_record r1)) as Hmr. fold mr in Hmr.
  assert (Hdm : 0 < Zdigits2 mx).
  { rewrite Zdigits2_log2 by lia. pose proof (Z.log2_nonneg mx). lia. }
  assert (H1 : 0 < shr_m r1 /\ Zdigits2 (shr_m r1) + e1 = Zdigits2 mx + ex).
  { destruct (Zdigits2_drop mx (Z.max k1 0) ltac:(lia) ltac:(lia)) as [[Z0 D0] | [Z0 D0]];
      rewrite <- M1 in *; subst k1; lia. }
  destruct H1 as [H1 D1]. rewrite fexp_spec.
  set (k2 := Z.max (Zdigits2 mr + e1 - 53) (-1074) - e1).
  pose proof (shr_spec (shr_record_of_loc mr loc_Exact) e1 k2) as S2.
  rewrite shr_m_record_of_loc in S2. specialize (S2 ltac:(lia)).
  destruct (shr (shr_record_of_loc mr loc_Exact) e1 k2) as [r2 e2]. destruct S2 as [M2 E2].
  pose proof (Zdigits2_mono (shr_m r1) mr ltac:(lia)) as Hmono.
  assert (Hdr : 0 < Zdigits2 mr).
  { rewrite Zdigits2_log2 by lia. pose proof (Z.log2_nonneg mr). lia. }
  destruct (Zdigits2_drop mr (Z.max k2 0) ltac:(lia) ltac:(lia)) as [[Z0 D0] | [Z0 D0]];
    rewrite <- M2 in *.
  - exfalso. subst k2. lia.
  - destruct (shr_m r2) as [| p | p]; [lia | | discriminate].
    destruct (e2 <=? emax - prec); discriminate.
Qed.

(** A significand of 53 bits at an exponent of the format is a number
    already. *)
Lemma binary_round_aux_canonical m e :
  Zpos (digits2_pos m) = 53 -> - 1074 <= e <= 971 ->
  binary_round_aux prec emax false (Zpos m) e loc_Exact = S754_finite false m e.
Proof.
  intros Hd He. unfold binary_round_aux, shr_fexp. cbn [Zdigits2]. rewrite Hd, fexp_spec.
  replace (Z.max (53 + e - 53) (-1074) - e) with 0 by lia.
  cbn [shr shr_record_of_loc shr_m loc_of_shr_record round_nearest_even Zdigits2].
  rewrite Hd, fexp_spec. replace (Z.max (53 + e - 53) (-1074) - e) with 0 by lia.
  cbn [shr shr_record_of_loc shr_m].
  replace (e <=? emax - prec) with true by (symmetry; apply Z.leb_le; unfold emax, prec; lia).
  reflexivity.
Qed.

Lemma shl_align_min mx ex ex' :
  exists mz, shl_align mx ex ex' = (mz, Z.min ex ex')
             /\ Zpos mz = Zpos mx * 2 ^ (ex - Z.min ex ex').
Proof.
  pose proof (shl_align_spec mx ex ex') as S. unfold shl_align in *.
  destruct (ex' - ex) as [| d | d] eqn:E.
  - exists mx. rewrite Z.min_l by lia. split; [reflexivity |].
    rewrite Z.sub_diag, Z.mul_1_r. reflexivity.
  - exists mx. rewrite Z.min_l by lia. split; [reflexivity |].
    rewrite Z.sub_diag, Z.mul_1_r. reflexivity.
  - exists (Pos.iter xO mx d). rewrite Z.min_r by lia. split; [reflexivity |].
    destruct S as (_ & _ & S). exact S.
Qed.

(** The shape of a well-formed finite number. *)
Lemma double_shape s m e :
  is_double (S754_finite s m e) = true ->
  - 1074 <= e <= 971 /\ Zpos m < 2 ^ 53 /\ (2 ^ 52 <= Zpos m \/ e = - 1074).
Proof.
  intro H. apply valid_finite in H as [C B]. rewrite fexp_spec in C.
  assert (D : Zpos (digits2_pos m) <= 53) by lia.
  split; [lia |]. split.
  - apply (Zdigits2_lt_pow2 (Zpos m) 53); [lia | lia | exact D].
  - destruct (Z.eq_dec e (- 1074)) as [-> | Hn]; [now right | left].
    assert (D' : Zpos (digits2_pos m) = 53) by lia.
    destruct (Z.lt_ge_cases (Zpos m) (2 ^ 52)) as [Hlt | Hge]; [| lia].
    apply (Zdigits2_lt_pow2 (Zpos m) 52) in Hlt; [| lia | lia]. cbn [Zdigits2] in Hlt. lia.
Qed.

End NearFacts.
Section RatioNearFacts.

(** The quotient that [round_ratio] rounds. *)
Lemma round_ratio_unfold n d :
  0 < n -> 0 < d ->
  exists e', - 1074 <= e' <= 0
    /\ e' <= Z.max (Zdigits2 n - Zdigits2 d - 53) (-1074)
    /\ round_ratio false n d
       = binary_round_aux prec emax false (n * 2 ^ (- e') / d) e'
           (new_location d (n * 2 ^ (- e') mod d)).
Proof.
  intros Hn Hd. unfold round_ratio.
  replace (n =? 0) with false by (symmetry; apply Z.eqb_neq; lia).
  unfold SFdiv_core_binary.
  replace (Zdigits2 n + 0 - (Zdigits2 d + 0)) with (Zdigits2 n - Zdigits2 d) by lia.
  rewrite fexp_spec.
  set (e' := Z.min (Z.max (Zdigits2 n - Zdigits2 d - 53) (-1074)) (0 - 0)).
  exists e'. split; [subst e'; lia |]. split; [subst e'; lia |].
  assert (He' : e' <= 0) by (subst e'; lia).
  set (m' := match 0 - 0 - e' with Z.pos _ => Z.shiftl n (0 - 0 - e') | 0 => n | Z.neg _ => 0 end).
  assert (Hm' : m' = n * 2 ^ (- e')).
  { subst m'. replace (0 - 0 - e') with (- e') by lia.
    destruct (- e') as [| p | p] eqn:E; [rewrite Z.mul_1_r; reflexivity | | lia].
    rewrite Z.shiftl_mul_pow2 by lia. reflexivity. }
  rewrite div_eucl_spec, Hm'. reflexivity.
Qed.

(** The quotient has at least as many digits as the numerator has more than
    the denominator, the shift counted in. *)
Lemma quotient_digits n d k :
  0 < n -> 0 < d -> 0 <= k -> 1 <= Zdigits2 n - Zdigits2 d + k ->
  0 < n * 2 ^ k / d /\ Zdigits2 n - Zdigits2 d + k <= Zdigits2 (n * 2 ^ k / d).
Proof.
  intros Hn Hd Hk Hbig. set (d1 := Zdigits2 n) in *. set (d2 := Zdigits2 d) in *.
  assert (Hp : 0 < 2 ^ k) by (apply pow2_pos; lia).
  assert (Hn1 : 2 ^ (d1 - 1) <= n).
  { subst d1. rewrite Zdigits2_log2 by lia.
    replace (Z.log2 n + 1 - 1) with (Z.log2 n) by lia. apply Z.log2_spec. lia. }
  assert (Hd2 : d < 2 ^ d2).
  { subst d2. rewrite Zdigits2_log2 by lia. apply Z.log2_spec. lia. }
  assert (0 < d2) by (subst d2; rewrite Zdigits2_log2 by lia; pose proof (Z.log2_nonneg d); lia).
  assert (0 < d1) by (subst d1; rewrite Zdigits2_log2 by lia; pose proof (Z.log2_nonneg n); lia).
  assert (Hq0 : 0 < 2 ^ (d1 - d2 + k - 1)) by (apply pow2_pos; lia).
  assert (Hlow : 2 ^ (d1 - d2 + k - 1) <= n * 2 ^ k / d).
  { apply Z.div_le_lower_bound; [assumption |].
    assert (E : 2 ^ (d1 - d2 + k - 1) * 2 ^ d2 = 2 ^ (d1 - 1) * 2 ^ k).
    { rewrite <- !Z.pow_add_r by lia. f_equal. lia. }
    apply Z.le_trans with (2 ^ (d1 - d2 + k - 1) * 2 ^ d2); [rewrite Z.mul_comm; nia |].
    rewrite E. nia. }
  split; [lia |].
  destruct (Z.le_gt_cases (d1 - d2 + k) (Zdigits2 (n * 2 ^ k / d))) as [? | Hlt]; [assumption |].
  exfalso. assert (Zdigits2 (n * 2 ^ k / d) <= d1 - d2 + k - 1) as Hle by lia.
  apply Zdigits2_lt_pow2 in Hle; lia.
Qed.

Lemma round_ratio_nonzero n d s :
  0 < n -> 0 < d -> - 1021 <= Zdigits2 n - Zdigits2 d ->
  round_ratio false n d <> S754_zero s.
Proof.
  intros Hn Hd Hb. destruct (round_ratio_unfold n d Hn Hd) as (e' & He' & Hmax & ->).
  destruct (quotient_digits n d (- e') Hn Hd ltac:(lia) ltac:(lia)) as [Hq Hdq].
  apply binary_round_aux_nonzero; lia.
Qed.

(** The number nearest to [n / d] lies within one unit of its last place of
    [n / d]. *)
Lemma round_ratio_near n d s m e :
  0 < n -> 0 < d -> round_ratio false n d = S754_finite s m e ->
  (Zpos m - 1) * 2 ^ (e + 1074) * d <= n * 2 ^ 1074
  /\ n * 2 ^ 1074 < (Zpos m + 1) * 2 ^ (e + 1074) * d.
Proof.
  intros Hn Hd. destruct (round_ratio_unfold n d Hn Hd) as (e' & He' & _ & ->).
  intro H. assert (Pc : 0 < 2 ^ (- e')) by (apply pow2_pos; lia).
  assert (Hq : 0 <= n * 2 ^ (- e') / d) by (apply Z.div_pos; nia).
  apply binary_round_aux_near in H as (Hle & Hlo & Hhi); [| exact Hq].
  pose proof (Z.div_mod (n * 2 ^ (- e')) d ltac:(lia)) as D.
  pose proof (Z.mod_pos_bound (n * 2 ^ (- e')) d Hd) as R.
  set (q := n * 2 ^ (- e') / d) in *. set (r := n * 2 ^ (- e') mod d) in *.
  assert (EA : 2 ^ (e + 1074) = 2 ^ (e - e') * 2 ^ (1074 + e')).
  { rewrite <- pow2_split by lia. f_equal. lia. }
  assert (EC : 2 ^ 1074 = 2 ^ (- e') * 2 ^ (1074 + e')).
  { rewrite <- pow2_split by lia. f_equal. lia. }
  rewrite EA, EC. clear EA EC.
  assert (Pa : 0 < 2 ^ (e - e')) by (apply pow2_pos; lia).
  assert (Pb : 0 < 2 ^ (1074 + e')) by (apply pow2_pos; lia).
  set (A := 2 ^ (e - e')) in *. set (B := 2 ^ (1074 + e')) in *. set (C := 2 ^ (- e')) in *.
  assert (L : (Zpos m - 1) * A * d <= n * C) by nia.
  assert (U : n * C < (Zpos m + 1) * A * d) by nia.
  replace ((Zpos m - 1) * (A * B) * d) with ((Zpos m - 1) * A * d * B) by ring.
  replace ((Zpos m + 1) * (A * B) * d) with ((Zpos m + 1) * A * d * B) by ring.
  replace (n * (C * B)) with (n * C * B) by ring.
  split; [apply Z.mul_le_mono_nonneg_r; lia | apply Z.mul_lt_mono_pos_r; lia].
Qed.

End RatioNearFacts.
Section ArithmeticNearFacts.

Lemma scaled_digits m e :
  - 1074 <= e -> Zdigits2 (Zpos m * 2 ^ (e + 1074)) = Zpos (digits2_pos m) + e + 1074.
Proof. intro H. rewrite Zdigits2_shiftl by lia. cbn [Zdigits2]. lia. Qed.

(** The sum of two positive numbers is the rounding of their exact sum. *)
Lemma add_unfold m1 e1 m2 e2 :
  - 1074 <= e1 -> - 1074 <= e2 ->
  exists mz ez,
    add (S754_finite false m1 e1) (S754_finite false m2 e2)
    = binary_round_aux prec emax false (Zpos mz) ez loc_Exact
    /\ - 1074 <= ez <= Z.min e1 e2
    /\ Zpos mz * 2 ^ (ez + 1074) = Zpos m1 * 2 ^ (e1 + 1074) + Zpos m2 * 2 ^ (e2 + 1074).
Proof.
  intros H1 H2. unfold add. cbn [SFadd cond_Zopp].
  destruct (shl_align_min m1 e1 (Z.min e1 e2)) as (z1 & E1 & V1).
  destruct (shl_align_min m2 e2 (Z.min e1 e2)) as (z2 & E2 & V2).
  rewrite E1, E2. cbn [fst].
  replace (Z.min e1 (Z.min e1 e2)) with (Z.min e1 e2) in V1 by lia.
  replace (Z.min e2 (Z.min e1 e2)) with (Z.min e1 e2) in V2 by lia.
  set (ez := Z.min e1 e2) in *.
  change (Z.pos z1 + Z.pos z2) with (Z.pos (z1 + z2)). cbn [binary_normalize].
  unfold binary_round.
  destruct (shl_align_min (z1 + z2) ez (fexp prec emax (Z.pos (digits2_pos (z1 + z2)) + ez)))
    as (mz & E & V).
  rewrite E. rewrite fexp_spec in *.
  set (ez' := Z.min ez (Z.max (Z.pos (digits2_pos (z1 + z2)) + ez - 53) (-1074))) in *.
  exists mz, ez'. split; [reflexivity |]. split; [subst ez' ez; lia |].
  rewrite V, Pos2Z.inj_add, V1, V2.
  assert (X1 : 2 ^ (e1 + 1074) = 2 ^ (e1 - ez) * 2 ^ (ez - ez') * 2 ^ (ez' + 1074)).
  { rewrite <- !pow2_split by (subst ez' ez; lia). f_equal. lia. }
  assert (X2 : 2 ^ (e2 + 1074) = 2 ^ (e2 - ez) * 2 ^ (ez - ez') * 2 ^ (ez' + 1074)).
  { rewrite <- !pow2_split by (subst ez' ez; lia). f_equal. lia. }
  rewrite X1, X2. ring.
Qed.

Lemma add_near m1 e1 m2 e2 :
  is_double (S754_finite false m1 e1) = true -> is_double (S754_finite false m2 e2) = true ->
  Zpos m1 * 2 ^ (e1 + 1074) + Zpos m2 * 2 ^ (e2 + 1074) < 2 ^ 2097 ->
  exists m e,
    add (S754_finite false m1 e1) (S754_finite false m2 e2) = S754_finite false m e
    /\ is_double (S754_finite false m e) = true
    /\ (Zpos m - 1) * 2 ^ (e + 1074)
       <= Zpos m1 * 2 ^ (e1 + 1074) + Zpos m2 * 2 ^ (e2 + 1074)
       < (Zpos m + 1) * 2 ^ (e + 1074).
Proof.
  intros D1 D2 Hb. pose proof (add_valid _ _ D1 D2) as Dv.
  destruct (double_shape _ _ _ D1) as (R1 & _ & _). destruct (double_shape _ _ _ D2) as (R2 & _ & _).
  destruct (add_unfold m1 e1 m2 e2 ltac:(lia) ltac:(lia)) as (mz & ez & E & Hez & V).
  rewrite E in *. set (S := Zpos m1 * 2 ^ (e1 + 1074) + Zpos m2 * 2 ^ (e2 + 1074)) in *.
  assert (Hdig : Zdigits2 (Zpos mz) + ez = Zdigits2 S - 1074).
  { rewrite <- V, scaled_digits by lia. cbn [Zdigits2]. lia. }
  assert (HS : 0 < S) by (rewrite <- V; apply Z.mul_pos_pos; [lia | apply pow2_pos; lia]).
  assert (HdS : 0 < Zdigits2 S <= 2097).
  { split; [rewrite Zdigits2_log2 by lia; pose proof (Z.log2_nonneg S); lia |].
    apply Zdigits2_lt_pow2; lia. }
  pose proof (binary_round_aux_finite false (Zpos mz) ez loc_Exact ltac:(lia) ltac:(lia)
                ltac:(lia)) as Hfin.
  pose proof (binary_round_aux_nonzero false (Zpos mz) ez loc_Exact) as Hnz.
  destruct (binary_round_aux prec emax false (Z.pos mz) ez loc_Exact) as [z | z | | z m e] eqn:Er;
    try contradiction.
  - exfalso. apply (Hnz z); [lia | lia | reflexivity].
  - subst z. exists m, e. split; [reflexivity |]. split; [exact Dv |].
    apply binary_round_aux_near in Er as (Hle & Hlo & Hhi); [| lia].
    rewrite <- V.
    assert (X : 2 ^ (e + 1074) = 2 ^ (e - ez) * 2 ^ (ez + 1074)).
    { rewrite <- pow2_split by lia. f_equal. lia. }
    rewrite X. assert (0 < 2 ^ (ez + 1074)) by (apply pow2_pos; lia).
    rewrite !Z.mul_assoc. split; [apply Z.mul_le_mono_nonneg_r; lia | apply Z.mul_lt_mono_pos_r; lia].
Qed.

Lemma mul_near m1 e1 m2 e2 :
  is_double (S754_finite false m1 e1) = true -> is_double (S754_finite false m2 e2) = true ->
  e1 + e2 <= 971 ->
  2 ^ 1074 <= (Zpos m1 * 2 ^ (e1 + 1074)) * (Zpos m2 * 2 ^ (e2 + 1074)) < 2 ^ 3171 ->
  exists m e,
    mul (S754_finite false m1 e1) (S754_finite false m2 e2) = S754_finite false m e
    /\ is_double (S754_finite false m e) = true
    /\ (Zpos m - 1) * 2 ^ (e + 1074) * 2 ^ 1074
       <= (Zpos m1 * 2 ^ (e1 + 1074)) * (Zpos m2 * 2 ^ (e2 + 1074))
       < (Zpos m + 1) * 2 ^ (e + 1074) * 2 ^ 1074.
Proof.
  intros D1 D2 He Hb. pose proof (mul_valid _ _ D1 D2) as Dv.
  destruct (double_shape _ _ _ D1) as (R1 & _ & _). destruct (double_shape _ _ _ D2) as (R2 & _ & _).
  unfold mul in *. cbn [SFmul xorb] in *.
  set (S := Zpos m1 * 2 ^ (e1 + 1074) * (Zpos m2 * 2 ^ (e2 + 1074))) in *.
  assert (V : Zpos (m1 * m2) * 2 ^ (e1 + e2 + 2148) = S).
  { subst S. rewrite Pos2Z.inj_mul.
    replace (e1 + e2 + 2148) with ((e1 + 1074) + (e2 + 1074)) by lia.
    rewrite pow2_split by lia. ring. }
  assert (Hdig : Zdigits2 (Zpos (m1 * m2)) + (e1 + e2) = Zdigits2 S - 2148).
  { rewrite <- V, Zdigits2_shiftl by lia. lia. }
  assert (HdS : 1074 < Zdigits2 S <= 3171).
  { split; [| apply Zdigits2_lt_pow2; lia].
    destruct (Z.le_gt_cases (Zdigits2 S) 1074) as [Hle | ?]; [| lia].
    apply Zdigits2_lt_pow2 in Hle; lia. }
  pose proof (binary_round_aux_finite false (Zpos (m1 * m2)) (e1 + e2) loc_Exact ltac:(lia)
                ltac:(lia) ltac:(lia)) as Hfin.
  pose proof (binary_round_aux_nonzero false (Zpos (m1 * m2)) (e1 + e2) loc_Exact) as Hnz.
  destruct (binary_round_aux prec emax false (Z.pos (m1 * m2)) (e1 + e2) loc_Exact)
    as [z | z | | z m e] eqn:Er; try contradiction.
  - exfalso. apply (Hnz z); [lia | lia | reflexivity].
  - subst z. exists m, e. split; [reflexivity |]. split; [exact Dv |].
    destruct (double_shape _ _ _ Dv) as (Re & _ & _).
    apply binary_round_aux_near in Er as (Hle & Hlo & Hhi); [| lia].
    rewrite <- V.
    assert (X : 2 ^ (e + 1074) * 2 ^ 1074 = 2 ^ (e - (e1 + e2)) * 2 ^ (e1 + e2 + 2148)).
    { rewrite <- !pow2_split by lia. f_equal. lia. }
    rewrite <- !Z.mul_assoc, X. assert (0 < 2 ^ (e1 + e2 + 2148)) by (apply pow2_pos; lia).
    rewrite !Z.mul_assoc. split; [apply Z.mul_le_mono_nonneg_r; lia | apply Z.mul_lt_mono_pos_r; lia].
Qed.

(** A whole number below [2^53] is a number exactly. *)
Lemma of_Z_exact k :
  0 < k < 2 ^ 53 ->
  exists m e, of_Z k = S754_finite false m e
              /\ is_double (S754_finite false m e) = true
              /\ Zpos m * 2 ^ (e + 1074) = k * 2 ^ 1074.
Proof.
  intros [Hk Hlt]. destruct k as [| p | p]; try lia. unfold of_Z. cbn [binary_normalize].
  assert (Dv : is_double (binary_round prec emax false p 0) = true) by apply binary_round_valid.
  unfold binary_round in *.
  assert (Hd : 0 < Zpos (digits2_pos p) <= 53).
  { split; [lia |]. apply (Zdigits2_lt_pow2 (Zpos p) 53); lia. }
  destruct (shl_align_min p 0 (fexp prec emax (Z.pos (digits2_pos p) + 0))) as (mz & E & V).
  rewrite E in *. rewrite fexp_spec in *.
  replace (Z.min 0 (Z.max (Z.pos (digits2_pos p) + 0 - 53) (-1074)))
    with (Zpos (digits2_pos p) - 53) in * by lia.
  assert (Dz : Zpos (digits2_pos mz) = 53).
  { change (Zpos (digits2_pos mz)) with (Zdigits2 (Zpos mz)).
    rewrite V, Zdigits2_shiftl by lia. cbn [Zdigits2]. lia. }
  rewrite binary_round_aux_canonical in * by lia.
  exists mz, (Zpos (digits2_pos p) - 53). split; [reflexivity |]. split; [exact Dv |].
  rewrite V, <- Z.mul_assoc, <- pow2_split by lia. f_equal. f_equal. lia.
Qed.

End ArithmeticNearFacts.
Section CentsFacts.

Lemma cents_unfold h : cents h = round_ratio false h 100.
Proof. reflexivity. Qed.

Lemma cents_zero : cents 0 = zero.
Proof. reflexivity. Qed.

Lemma cents_limit_digits h : 0 <= h <= cents_limit -> Zdigits2 h <= 47.
Proof.
  intros [H0 H1]. apply Zdigits2_lt_pow2; [lia | lia |].
  apply Z.le_lt_trans with (1 := H1). reflexivity.
Qed.

Lemma cents_ok h :
  0 <= h <= cents_limit -> is_double (cents h) = true /\ finite_nonneg (cents h) = true.
Proof.
  intro H. pose proof (cents_limit_digits h H). rewrite cents_unfold. split.
  - apply round_ratio_valid; lia.
  - apply finite_sign_nonneg. apply round_ratio_finite; lia.
Qed.

Lemma spacing_small e : - 1074 <= e <= - 11 -> 2048 * 2 ^ (e + 1074) <= 2 ^ 1074.
Proof.
  intro H. replace (2 ^ 1074) with (2 ^ (- e) * 2 ^ (e + 1074))
    by (rewrite <- pow2_split by lia; f_equal; lia).
  apply Z.mul_le_mono_nonneg_r; [apply Z.pow_nonneg; lia |].
  change 2048 with (2 ^ 11). apply Z.pow_le_mono_r; lia.
Qed.

(** A number of the format that is at most a million millions and a bit has
    an exponent of at most -11. *)
Lemma small_exponent m e B :
  is_double (S754_finite false m e) = true ->
  (Zpos m - 1) * 2 ^ (e + 1074) * 100 <= B * 2 ^ 1074 -> B <= cents_limit + 1 ->
  e <= - 11.
Proof.
  intros D Hlo HB. destruct (double_shape _ _ _ D) as (Re & Hm & Hn).
  destruct (Z.le_gt_cases e (- 11)) as [? | Hgt]; [assumption | exfalso].
  destruct Hn as [Hn | Hn]; [| lia].
  assert (EU : 2 ^ (e + 1074) = 2 ^ (e + 10) * 2 ^ 1064)
    by (rewrite <- pow2_split by lia; f_equal; lia).
  assert (EP : 2 ^ 1074 = 1024 * 2 ^ 1064) by reflexivity.
  rewrite EU, EP in Hlo. assert (Q : 0 < 2 ^ 1064) by (apply pow2_pos; lia).
  assert (W : 1 <= 2 ^ (e + 10)) by (apply (Z.pow_le_mono_r 2 0 (e + 10)); lia).
  set (q := 2 ^ 1064) in *. set (w := 2 ^ (e + 10)) in *.
  assert (L : (Zpos m - 1) * w * 100 <= B * 1024).
  { apply Z.mul_le_mono_pos_r with q; [exact Q |]. lia. }
  unfold cents_limit in HB. change (2 ^ 52) with 4503599627370496 in Hn.
  change (10 ^ 14) with 100000000000000 in HB. nia.
Qed.

(** The number written with two decimals: its shape and its distance from
    the decimal it was written as. *)
Lemma cents_shape h :
  1 <= h <= cents_limit ->
  exists m e,
    cents h = S754_finite false m e
    /\ is_double (S754_finite false m e) = true
    /\ - 1074 <= e <= - 11 /\ 2 ^ 52 <= Zpos m
    /\ (Zpos m - 1) * 2 ^ (e + 1074) * 100 <= h * 2 ^ 1074
    /\ h * 2 ^ 1074 < (Zpos m + 1) * 2 ^ (e + 1074) * 100.
Proof.
  intros [H1 H2]. pose proof (cents_limit_digits h ltac:(lia)) as Hdig.
  destruct (cents_ok h ltac:(lia)) as [Dv _]. rewrite cents_unfold in *.
  pose proof (round_ratio_finite false h 100 ltac:(lia) ltac:(lia) ltac:(lia)) as Hfin.
  pose proof (round_ratio_nonzero h 100) as Hnz.
  destruct (round_ratio false h 100) as [z | z | | z m e] eqn:E; try contradiction.
  - exfalso. apply (Hnz z); [lia | lia | | reflexivity].
    change (Zdigits2 100) with 7. pose proof (Zdigits2_nonneg h). lia.
  - subst z. exists m, e. split; [reflexivity |]. split; [exact Dv |].
    apply round_ratio_near in E as [Hlo Hhi]; [| lia | lia].
    destruct (double_shape _ _ _ Dv) as (Re & Hm & Hn).
    assert (He : e <= - 11) by (apply (small_exponent m e h Dv Hlo); lia).
    split; [lia |]. split; [| split; assumption].
    destruct Hn as [Hn | Hn]; [assumption | exfalso]. subst e.
    change (2 ^ (-1074 + 1074)) with 1 in Hhi.
    assert (2 ^ 60 <= 2 ^ 1074) by (apply Z.pow_le_mono_r; lia).
    change (2 ^ 53) with 9007199254740992 in Hm.
    change (2 ^ 60) with 1152921504606846976 in *. nia.
Qed.

(** A number within half a hundredth of [h] hundredths has [h] hundredths. *)
Lemma hundredths_near m e h :
  - 1074 <= e ->
  (2 * h - 1) * 2 ^ 1074 <= 200 * (Zpos m * 2 ^ (e + 1074)) ->
  200 * (Zpos m * 2 ^ (e + 1074)) < (2 * h + 1) * 2 ^ 1074 ->
  hundredths (S754_finite false m e) = h.
Proof.
  intros He Hlo Hhi. unfold hundredths. cbn [mag_num mag_den]. change (10 ^ 2) with 100.
  destruct (Z.le_gt_cases 0 e) as [Hp | Hn].
  - rewrite Z.max_l, Z.max_r by lia. change (2 ^ 0) with 1.
    rewrite pow2_split in Hlo, Hhi by lia.
    assert (P : 0 < 2 ^ 1074) by (apply pow2_pos; lia).
    set (p := 2 ^ 1074) in *. set (N := Zpos m * 2 ^ e) in *.
    assert (L : 2 * h - 1 <= 200 * N).
    { apply Z.mul_le_mono_pos_r with p; [exact P |]. subst N. lia. }
    assert (U : 200 * N < 2 * h + 1).
    { apply Z.mul_lt_mono_pos_r with p; [exact P |]. subst N. lia. }
    symmetry. apply Zdiv_unique with 1; lia.
  - rewrite Z.max_r, Z.max_l by lia.
    assert (EP : 2 ^ 1074 = 2 ^ (- e) * 2 ^ (e + 1074))
      by (rewrite <- pow2_split by lia; f_equal; lia).
    rewrite EP in Hlo, Hhi.
    assert (PU : 0 < 2 ^ (e + 1074)) by (apply pow2_pos; lia).
    assert (PD : 0 < 2 ^ (- e)) by (apply pow2_pos; lia).
    set (u := 2 ^ (e + 1074)) in *. set (d := 2 ^ (- e)) in *.
    assert (L : (2 * h - 1) * d <= 200 * Zpos m).
    { apply Z.mul_le_mono_pos_r with u; [exact PU |]. lia. }
    assert (U : 200 * Zpos m < (2 * h + 1) * d).
    { apply Z.mul_lt_mono_pos_r with u; [exact PU |]. lia. }
    symmetry. apply Zdiv_unique with (2 * Zpos m * 100 + d - 2 * d * h); lia.
Qed.

(** Reading the hundredths of a number written with two decimals gives the
    decimals back. *)
Lemma hundredths_cents h : 0 <= h <= cents_limit -> hundredths (cents h) = h.
Proof.
  intros [H0 H1]. destruct (Z.eq_dec h 0) as [-> | Hn]; [reflexivity |].
  destruct (cents_shape h ltac:(lia)) as (m & e & -> & Dv & He & Hm & Hlo & Hhi).
  pose proof (spacing_small e He) as Hs.
  assert (PU : 0 < 2 ^ (e + 1074)) by (apply pow2_pos; lia).
  set (u := 2 ^ (e + 1074)) in *. set (p := 2 ^ 1074) in *.
  apply hundredths_near; [lia | fold u p; lia | fold u p; lia].
Qed.

Lemma Money_new_cents h c :
  0 <= h <= cents_limit -> Money_new (VNumber (cents h)) (VCurrency c) = Ok (in_cents h c).
Proof.
  intro H. destruct (cents_ok h H) as [Dv Hf]. rewrite Money_new_ok by assumption.
  unfold rounded_to_2_decimals. rewrite hundredths_cents by assumption. reflexivity.
Qed.

(** An amount that is a well-formed finite number with [h] hundredths makes
    a Money of [h] hundredths. *)
Lemma Money_new_hundredths a c h :
  is_double a = true -> finite_nonneg a = true -> hundredths a = h ->
  Money_new (VNumber a) (VCurrency c) = Ok (in_cents h c).
Proof.
  intros Dv Hf <-. rewrite Money_new_ok by assumption. reflexivity.
Qed.

Lemma add_cents h1 h2 :
  0 <= h1 -> 0 <= h2 -> h1 + h2 <= cents_limit ->
  is_double (add (cents h1) (cents h2)) = true
  /\ finite_nonneg (add (cents h1) (cents h2)) = true
  /\ hundredths (add (cents h1) (cents h2)) = h1 + h2.
Proof.
  intros H1 H2 Hs.
  destruct (Z.eq_dec h1 0) as [-> | N1].
  { replace (add (cents 0) (cents h2)) with (cents h2).
    - destruct (cents_ok h2 ltac:(lia)). rewrite hundredths_cents by lia. auto.
    - rewrite cents_zero. destruct (Z.eq_dec h2 0) as [-> | N2]; [reflexivity |].
      destruct (cents_shape h2 ltac:(lia)) as (m & e & -> & _). reflexivity. }
  destruct (Z.eq_dec h2 0) as [-> | N2].
  { replace (add (cents h1) (cents 0)) with (cents h1).
    - destruct (cents_ok h1 ltac:(lia)). rewrite hundredths_cents by lia.
      rewrite Z.add_0_r. auto.
    - rewrite cents_zero.
      destruct (cents_shape h1 ltac:(lia)) as (m & e & -> & _). reflexivity. }
  destruct (cents_shape h1 ltac:(lia)) as (m1 & e1 & -> & D1 & E1 & M1 & L1 & U1).
  destruct (cents_shape h2 ltac:(lia)) as (m2 & e2 & -> & D2 & E2 & M2 & L2 & U2).
  pose proof (spacing_small e1 E1) as S1. pose proof (spacing_small e2 E2) as S2.
  assert (P1 : 0 < 2 ^ (e1 + 1074)) by (apply pow2_pos; lia).
  assert (P2 : 0 < 2 ^ (e2 + 1074)) by (apply pow2_pos; lia).
  assert (PP : 2 ^ 47 * 2 ^ 1074 <= 2 ^ 2097).
  { rewrite <- pow2_split by lia. apply Z.pow_le_mono_r; lia. }
  assert (Hlim : cents_limit + 2 <= 2 ^ 47) by (apply Z.leb_le; reflexivity).
  destruct (add_near m1 e1 m2 e2 D1 D2) as (m & e & -> & Dv & Lo & Hi).
  { set (u1 := 2 ^ (e1 + 1074)) in *. set (u2 := 2 ^ (e2 + 1074)) in *.
    set (p := 2 ^ 1074) in *. set (t := 2 ^ 47) in *. nia. }
  assert (He : e <= - 11).
  { apply (small_exponent m e (h1 + h2 + 1) Dv); [| lia].
    set (u1 := 2 ^ (e1 + 1074)) in *. set (u2 := 2 ^ (e2 + 1074)) in *.
    set (p := 2 ^ 1074) in *. set (u := 2 ^ (e + 1074)) in *. lia. }
  destruct (double_shape _ _ _ Dv) as (Re & _ & _).
  pose proof (spacing_small e ltac:(lia)) as S.
  split; [exact Dv |]. split; [reflexivity |].
  set (u1 := 2 ^ (e1 + 1074)) in *. set (u2 := 2 ^ (e2 + 1074)) in *.
  set (p := 2 ^ 1074) in *.
  apply hundredths_near; [lia | |]; fold p; set (u := 2 ^ (e + 1074)) in *; lia.
Qed.

Lemma mul_cents h k :
  0 <= h <= cents_limit -> 0 <= k < 2 ^ 53 -> h * k <= cents_limit ->
  is_double (mul (cents h) (of_Z k)) = true
  /\ finite_nonneg (mul (cents h) (of_Z k)) = true
  /\ hundredths (mul (cents h) (of_Z k)) = h * k.
Proof.
  intros [H0 Hh] [K0 K1] Hs.
  destruct (Z.eq_dec k 0) as [-> | Nk].
  { replace (mul (cents h) (of_Z 0)) with zero; [rewrite Z.mul_0_r; auto |].
    change (of_Z 0) with zero. destruct (Z.eq_dec h 0) as [-> | Nh]; [reflexivity |].
    destruct (cents_shape h ltac:(lia)) as (m & e & -> & _). reflexivity. }
  destruct (of_Z_exact k ltac:(lia)) as (mk & ek & -> & Dk & Vk).
  destruct (Z.eq_dec h 0) as [-> | Nh].
  { replace (mul (cents 0) (S754_finite false mk ek)) with zero by reflexivity. auto. }
  destruct (cents_shape h ltac:(lia)) as (m & e & -> & D & E & M & L & U).
  pose proof (spacing_small e E) as S.
  assert (PU : 0 < 2 ^ (e + 1074)) by (apply pow2_pos; lia).
  assert (PP : 0 < 2 ^ 1074) by (apply pow2_pos; lia).
  destruct (double_shape _ _ _ Dk) as (Rk & _ & _).
  assert (Hlim : cents_limit + 2 <= 2 ^ 47) by (apply Z.leb_le; reflexivity).
  assert (T : (2 ^ 47 * 2 ^ 1074) * (2 ^ 53 * 2 ^ 1074) <= 2 ^ 3171).
  { rewrite <- !pow2_split by lia. apply Z.pow_le_mono_r; lia. }
  destruct (mul_near m e mk ek D Dk ltac:(lia)) as (mp & ep & -> & Dv & Lo & Hi).
  { rewrite Vk. set (u := 2 ^ (e + 1074)) in *. set (p := 2 ^ 1074) in *. split.
    - assert (1 <= Zpos m * u) by nia. nia.
    - apply Z.lt_le_trans with (2 := T). apply Z.mul_lt_mono_nonneg; nia. }
  rewrite Vk in Lo, Hi.
  assert (Lo' : (Zpos mp - 1) * 2 ^ (ep + 1074) <= k * (Zpos m * 2 ^ (e + 1074))).
  { apply Z.mul_le_mono_pos_r with (2 ^ 1074); [exact PP |]. lia. }
  assert (Hi' : k * (Zpos m * 2 ^ (e + 1074)) < (Zpos mp + 1) * 2 ^ (ep + 1074)).
  { apply Z.mul_lt_mono_pos_r with (2 ^ 1074); [exact PP |]. lia. }
  clear Lo Hi.
  assert (KL : k * ((Zpos m - 1) * 2 ^ (e + 1074) * 100) <= k * (h * 2 ^ 1074))
    by (apply Z.mul_le_mono_nonneg_l; lia).
  assert (KU : k * (h * 2 ^ 1074) < k * ((Zpos m + 1) * 2 ^ (e + 1074) * 100))
    by (apply Z.mul_lt_mono_pos_l; lia).
  assert (KM : (2 ^ 52 - 1) * (k * 2 ^ (e + 1074)) <= (Zpos m - 1) * (k * 2 ^ (e + 1074))).
  { apply Z.mul_le_mono_nonneg_r; [| lia]. apply Z.mul_nonneg_nonneg; lia. }
  assert (HP : (h * k) * 2 ^ 1074 <= cents_limit * 2 ^ 1074)
    by (apply Z.mul_le_mono_nonneg_r; lia).
  unfold cents_limit in HP, Hs. change (10 ^ 14) with 100000000000000 in HP, Hs.
  change (2 ^ 52) with 4503599627370496 in KM.
  assert (He : ep <= - 11).
  { apply (small_exponent mp ep (h * k + 1) Dv); [| unfold cents_limit; lia].
    set (u := 2 ^ (e + 1074)) in *. set (p := 2 ^ 1074) in *.
    set (up := 2 ^ (ep + 1074)) in *. nia. }
  destruct (double_shape _ _ _ Dv) as (Re & _ & _).
  pose proof (spacing_small ep ltac:(lia)) as Sp.
  split; [exact Dv |]. split; [reflexivity |].
  set (u := 2 ^ (e + 1074)) in *. set (p := 2 ^ 1074) in *.
  apply hundredths_near; [lia | |]; fold p; set (up := 2 ^ (ep + 1074)) in *; nia.
Qed.

Lemma Money_add_cents h1 h2 c :
  0 <= h1 -> 0 <= h2 -> h1 + h2 <= cents_limit ->
  Money_add (in_cents h1 c) (VMoney (in_cents h2 c)) = Ok (in_cents (h1 + h2) c).
Proof.
  intros H1 H2 Hs. destruct (add_cents h1 h2 H1 H2 Hs) as (Dv & Hf & Hh).
  unfold Money_add. simpl. rewrite jsstring_eqb_refl. cbn [negb].
  now apply Money_new_hundredths.
Qed.

Lemma Money_multiply_cents h k c :
  0 <= h <= cents_limit -> 0 <= k < 2 ^ 53 -> h * k <= cents_limit ->
  Money_multiply (in_cents h c) (VNumber (of_Z k)) = Ok (in_cents (h * k) c).
Proof.
  intros Hh Hk Hs. destruct (mul_cents h k Hh Hk Hs) as (Dv & Hf & Hm).
  unfold Money_multiply.
  assert (G : negb (is_finite (of_Z k)) || ltb (of_Z k) zero = false).
  { destruct (Z.eq_dec k 0) as [-> | Nk]; [reflexivity |].
    destruct (of_Z_exact k ltac:(lia)) as (mk & ek & -> & _). reflexivity. }
  rewrite G. simpl. now apply Money_new_hundredths.
Qed.

Lemma cents_plain h : 0 <= h <= cents_limit -> plain_amount (cents h).
Proof.
  intro H. pose proof (cents_limit_digits h H). rewrite cents_unfold.
  apply round_ratio_plain; lia.
Qed.

Lemma cents_inj h1 h2 :
  0 <= h1 <= cents_limit -> 0 <= h2 <= cents_limit -> cents h1 = cents h2 -> h1 = h2.
Proof.
  intros H1 H2 E. rewrite <- (hundredths_cents h1 H1), <- (hundredths_cents h2 H2).
  now rewrite E.
Qed.

End CentsFacts.

Section EmailMoreFacts.

Lemma isValidEmail_ToString v : isValidEmail v = isValidEmail (VString (ToString v)).
Proof. reflexivity. Qed.

Lemma email_part_no_at a : email_part a -> ~ In 64%N a.
Proof.
  intros [_ H] Hin. rewrite Forall_forall in H. apply H in Hin. discriminate Hin.
Qed.

Lemma email_part_no_space a : email_part a -> Forall (fun c => is_space c = false) a.
Proof.
  intros [_ H]. apply Forall_impl with (2 := H). intros c Hc. unfold email_char in Hc.
  apply negb_true_iff, orb_false_iff in Hc. tauto.
Qed.

Lemma email_part_length a : email_part a -> (1 <= List.length a)%nat.
Proof. intros [H _]. destruct a; [congruence | cbn; lia]. Qed.

Lemma isValidEmail_has_at v : isValidEmail v = true -> In 64%N (ToString v).
Proof.
  rewrite isValidEmail_ToString. intro H.
  apply isValidEmail_shape in H as (a & b & c & -> & _). apply in_or_app. right. now left.
Qed.

Lemma isValidEmail_no_space v :
  isValidEmail v = true -> Forall (fun c => is_space c = false) (ToString v).
Proof.
  rewrite isValidEmail_ToString. intro H.
  apply isValidEmail_shape in H as (a & b & c & -> & Ha & Hb & Hc).
  apply email_part_no_space in Ha, Hb, Hc.
  repeat (apply Forall_app; split); auto; repeat constructor.
Qed.

(** The characters of a number's decimal representation. *)
Lemma digit_char_le d : d <= 9 -> (digit_char d <= 57)%N.
Proof. unfold digit_char. lia. Qed.

Lemma digits_aux_le f : forall n acc,
  Forall (fun c => (c <= 57)%N) acc -> Forall (fun c => (c <= 57)%N) (digits_aux f n acc).
Proof.
  induction f as [| f IH]; intros n acc Hacc; cbn [digits_aux]; [assumption |].
  destruct (n <? 10) eqn:E.
  - constructor; [| assumption]. apply digit_char_le. apply Z.ltb_lt in E. lia.
  - apply IH. constructor; [| assumption]. apply digit_char_le.
    pose proof (Z.mod_pos_bound n 10). lia.
Qed.

Lemma digits_no_at n : ~ In 64%N (digits n).
Proof.
  intro H. pose proof (digits_aux_le (S (Z.to_nat (Z.log2 n))) n [] (Forall_nil _)) as F.
  rewrite Forall_forall in F. apply F in H. lia.
Qed.

Lemma zeros_no_at n : ~ In 64%N (zeros n).
Proof. unfold zeros. intro H. apply repeat_spec in H. discriminate H. Qed.

Lemma layout_no_at s n : ~ In 64%N (layout s n).
Proof.
  unfold layout.
  assert (Hf : forall k, ~ In 64%N (firstn k (digits s))).
  { intros k H. apply (digits_no_at s). rewrite <- (firstn_skipn k). apply in_or_app. now left. }
  assert (Hs : forall k, ~ In 64%N (skipn k (digits s))).
  { intros k H. apply (digits_no_at s). rewrite <- (firstn_skipn k). apply in_or_app. now right. }
  pose proof (digits_no_at s) as Hd. pose proof (digits_no_at (Z.abs (n - 1))) as He.
  assert (Hsign : ~ In 64%N (if n - 1 <? 0 then lit "-" else lit "+")).
  { destruct (n - 1 <? 0); cbn; intros [H | []]; discriminate H. }
  destruct ((JsString.length (digits s) <=? n) && (n <=? 21)).
  { intro H. apply in_app_or in H as [H | H]; [now apply Hd | now apply (zeros_no_at _ H)]. }
  destruct ((0 <? n) && (n <=? 21)).
  { intro H. apply in_app_or in H as [H | H]; [now apply (Hf _ H) |].
    cbn in H. destruct H as [H | H]; [discriminate H | now apply (Hs _ H)]. }
  destruct ((-6 <? n) && (n <=? 0)).
  { intro H. cbn in H. destruct H as [H | [H | H]]; try discriminate H.
    apply in_app_or in H as [H | H]; [now apply (zeros_no_at _ H) | now apply Hd]. }
  cbv zeta. destruct (digits s) as [| c [| c' rest]] eqn:E.
  - intros [].
  - intros [H | H]; [apply Hd; now left |]. cbn in H. destruct H as [H | H]; [discriminate H |].
    apply in_app_or in H as [H | H]; [now apply Hsign | now apply He].
  - intros [H | H]; [apply Hd; now left |]. cbn in H. destruct H as [H | H]; [discriminate H |].
    destruct H as [H | H]; [apply Hd; right; now left |].
    apply in_app_or in H as [H | H]; [apply Hd; right; now right |].
    cbn in H. destruct H as [H | H]; [discriminate H |].
    apply in_app_or in H as [H | H]; [now apply Hsign | now apply He].
Qed.

Lemma Number_toString_no_at x : ~ In 64%N (Number_toString x).
Proof.
  destruct x as [s | s | | s m e]; cbn [Number_toString].
  - cbn. intros [H | []]; discriminate H.
  - destruct s; cbn; intuition discriminate.
  - cbn. intuition discriminate.
  - destruct (shortest (S754_finite false m e)) as [c t]. intro H.
    apply in_app_or in H as [H | H]; [| now apply (layout_no_at _ _ H)].
    destruct s; cbn in H; intuition discriminate.
Qed.

Lemma Money_toString_space m : In 32%N (Money_toString m).
Proof. unfold Money_toString. apply in_or_app. right. now left. Qed.

End EmailMoreFacts.

Section SupplierMoreFacts.

Lemma name_ok_guard n :
  (JsString.length n <? 2) || (100 <? JsString.length n) = false <-> name_ok n.
Proof.
  unfold name_ok. rewrite orb_false_iff, !Z.ltb_ge. tauto.
Qed.

Lemma email_guard v :
  negb (is_null v) && (negb (typeof_string v) || negb (isValidEmail v)) = false
  <-> email_or_null v.
Proof.
  unfold email_or_null. destruct v; cbn [is_null typeof_string negb andb orb];
    try (split; [discriminate | intros [H | (e & H & _)]; discriminate H]).
  - split; auto.
  - rewrite negb_false_iff. split.
    + intro H. right. exists s. auto.
    + intros [H | (e & H & He)]; [discriminate H | now injection H as ->].
Qed.

Lemma Supplier_new_iff p s :
  Supplier_new p = Ok s <->
  id p = VSupplierId (Supplier_id s) /\ name p = VString (Supplier_name s)
  /\ name_ok (Supplier_name s)
  /\ email_or_null (Supplier_contactEmail s)
  /\ Supplier_contactEmail s = default_null (contactEmail p)
  /\ Supplier_lastOrderTotalPrice s = default_null (lastOrderTotalPrice p).
Proof.
  unfold Supplier_new. cbv zeta. split.
  - destruct (id p); try discriminate. destruct (name p) as [| | | | n | | | | |]; try discriminate.
    destruct ((JsString.length n <? 2) || (100 <? JsString.length n)) eqn:En; [discriminate |].
    destruct (negb (is_null (default_null (contactEmail p))) && _) eqn:Ee; [discriminate |].
    rewrite not_instanceof_Money_never, andb_false_r.
    intro H. injection H as <-. simpl.
    apply name_ok_guard in En. apply email_guard in Ee. auto 10.
  - destruct s as [i n e t]. simpl. intros (-> & -> & Hn & He & -> & ->).
    apply name_ok_guard in Hn. apply email_guard in He. rewrite Hn, He.
    rewrite andb_false_r. reflexivity.
Qed.

Lemma set_contactEmail_cases v this :
  (v <> VNull /\ isValidEmail v = true
   /\ Supplier_set_contactEmail v this
      = (Ok tt, {| Supplier_id := Supplier_id this; Supplier_name := Supplier_name this;
                   Supplier_contactEmail := v;
                   Supplier_lastOrderTotalPrice := Supplier_lastOrderTotalPrice this |}))
  \/ ((v = VNull \/ isValidEmail v = false)
      /\ Supplier_set_contactEmail v this = (Throw email_error, this)).
Proof.
  unfold Supplier_set_contactEmail. destruct v; cbn [is_null orb];
    try (destruct (isValidEmail _) eqn:E; cbn [negb];
         [left; split; [discriminate | split; reflexivity] | right; split; [now right | reflexivity]]).
  right. split; [now left | reflexivity].
Qed.

Lemma set_lastOrderTotalPrice_eq v this :
  Supplier_set_lastOrderTotalPrice v this
  = (Ok tt, {| Supplier_id := Supplier_id this; Supplier_name := Supplier_name this;
               Supplier_contactEmail := Supplier_contactEmail this;
               Supplier_lastOrderTotalPrice := v |}).
Proof. unfold Supplier_set_lastOrderTotalPrice. now rewrite not_instanceof_Money_never. Qed.

Lemma run_cons a l s : run (a :: l) s = run l (snd (assign a s)).
Proof. reflexivity. Qed.

Lemma run_app l1 l2 s : run (l1 ++ l2) s = run l2 (run l1 s).
Proof. unfold run. apply fold_left_app. Qed.

Lemma assign_swap a b s :
  to_contactEmail a = true -> to_contactEmail b = false ->
  snd (assign a (snd (assign b s))) = snd (assign b (snd (assign a s))).
Proof.
  destruct a as [e | e]; [intros _ | discriminate].
  destruct b as [v | v]; [discriminate | intros _]. cbn [assign].
  rewrite !set_lastOrderTotalPrice_eq. unfold Supplier_set_contactEmail.
  destruct (is_null e || negb (isValidEmail e)); reflexivity.
Qed.

End SupplierMoreFacts.

Section Examples.

Let amount (m e : Z) : number := of_decimal false m e.
Let money (m e : Z) (c : Currency) : Money :=
  {| Money_amount := amount m e; Money_currency := c |}.

(** Halves go up, on the exact binary value: 0.125 is a tie, while the double
    written 1.005 lies just below 1.005. *)
Example toFixed_tie : toFixed (amount 125 (- 3)) 2 = lit "0.13".
Proof. vm_compute. reflexivity. Qed.

Example toFixed_below_tie : toFixed (amount 1005 (- 3)) 2 = lit "1.00".
Proof. vm_compute. reflexivity. Qed.

Example toFixed_exponential : toFixed (amount 1 21) 2 = lit "1e+21".
Proof. vm_compute. reflexivity. Qed.

Example Number_toString_shortest :
  Number_toString (add (amount 1 (- 1)) (amount 2 (- 1))) = lit "0.30000000000000004".
Proof. vm_compute. reflexivity. Qed.

Example Money_toString_example : Money_toString (money 100 0 USD) = lit "USD 100.00".
Proof. vm_compute. reflexivity. Qed.

Example Money_add_example :
  exists r, Money_add (money 100 0 USD) (VMoney (money 50 0 USD)) = Ok r
            /\ Money_equals r (VMoney (money 150 0 USD)) = true.
Proof. exists (money 150 0 USD). split; vm_compute; reflexivity. Qed.

Example Money_add_other_currency :
  Money_add (money 100 0 USD) (VMoney (money 50 0 EUR))
  = Throw (ValidationError (lit "Can only add Money with the same currency")).
Proof. vm_compute. reflexivity. Qed.

Example Supplier_new_short_name :
  Supplier_new {| id := VSupplierId sample_id; name := VString (lit "A");
                  contactEmail := VUndefined; lastOrderTotalPrice := VUndefined |}
  = Throw (ValidationError (lit "name must be a string between 2 and 100 characters")).
Proof. vm_compute. reflexivity. Qed.

End Examples.

(** * The claims *)

(** C1 (the code at the failing input). A Supplier is constructed although
    [lastOrderTotalPrice] is the number 42, which is neither null nor a Money
    instance: the guard [!lastOrderTotalPrice instanceof Money] never holds. *)
Theorem Supplier_new_accepts_non_Money_price :
  Supplier_new {| id := VSupplierId sample_id; name := VString (lit "Acme Corp");
                  contactEmail := VUndefined;
                  lastOrderTotalPrice := VNumber (of_Z 42) |}
  = Ok {| Supplier_id := sample_id; Supplier_name := lit "Acme Corp";
          Supplier_contactEmail := VNull;
          Supplier_lastOrderTotalPrice := VNumber (of_Z 42) |}.
Proof. vm_compute. reflexivity. Qed.

(** C2. Assigning any value at all to [lastOrderTotalPrice] returns normally,
    and the getter then returns that value. *)
Theorem Supplier_set_lastOrderTotalPrice_accepts_all (this : Supplier) (v : value) :
  fst (Supplier_set_lastOrderTotalPrice v this) = Ok tt
  /\ Supplier_lastOrderTotalPrice (snd (Supplier_set_lastOrderTotalPrice v this)) = v.
Proof.
  unfold Supplier_set_lastOrderTotalPrice. rewrite not_instanceof_Money_never.
  split; reflexivity.
Qed.

(** C3. Assigning null, or a string that is not a syntactically valid email,
    to [contactEmail] fails with ValidationError; assigning a syntactically
    valid email string succeeds and the getter then returns that string.  The
    constructor, for its part, accepts a null [contactEmail]. *)
Theorem Supplier_set_contactEmail_validates (this : Supplier) :
  Supplier_set_contactEmail VNull this = (Throw email_error, this)
  /\ (forall s, isValidEmail (VString s) = false ->
        Supplier_set_contactEmail (VString s) this = (Throw email_error, this))
  /\ (forall s, isValidEmail (VString s) = true ->
        fst (Supplier_set_contactEmail (VString s) this) = Ok tt
        /\ Supplier_contactEmail (snd (Supplier_set_contactEmail (VString s) this))
           = VString s)
  /\ (forall i n, name_ok n ->
        exists s0,
          Supplier_new {| id := VSupplierId i; name := VString n;
                          contactEmail := VNull; lastOrderTotalPrice := VNull |} = Ok s0
          /\ Supplier_contactEmail s0 = VNull).
Proof.
  repeat split.
  - intros s H. unfold Supplier_set_contactEmail. rewrite H. reflexivity.
  - unfold Supplier_set_contactEmail. rewrite H. reflexivity.
  - unfold Supplier_set_contactEmail. rewrite H. reflexivity.
  - intros i n H. eexists. rewrite (Supplier_new_without_email i n VNull H).
    split; reflexivity.
Qed.

Lemma Supplier_set_contactEmail_validates_witness :
  Supplier_set_contactEmail (VString (lit "bad-email")) sample_supplier
  = (Throw email_error, sample_supplier)
  /\ Supplier_contactEmail
       (snd (Supplier_set_contactEmail (VString (lit "sales@acme.com")) sample_supplier))
     = VString (lit "sales@acme.com")
  /\ exists s0,
       Supplier_new {| id := VSupplierId sample_id; name := VString (lit "Acme Corp");
                       contactEmail := VNull; lastOrderTotalPrice := VNull |} = Ok s0
       /\ Supplier_contactEmail s0 = VNull.
Proof.
  pose proof (Supplier_set_contactEmail_validates sample_supplier) as (_ & Hbad & Hgood & Hnew).
  split; [| split].
  - apply Hbad. vm_compute. reflexivity.
  - apply Hgood. vm_compute. reflexivity.
  - apply Hnew. split; vm_compute; discriminate.
Defined.

(** C4. For every finite, non-negative amount and every Currency the
    constructor returns a Money whose stored amount is the amount rounded to
    two decimal places and whose currency is the one given; it fails with
    ValidationError whenever the amount is negative, not finite or not a
    number, and whenever the currency argument is not a Currency instance. *)
Theorem Money_new_rounds_amount :
  (forall a c, is_double a = true -> finite_nonneg a = true ->
     exists m, Money_new (VNumber a) (VCurrency c) = Ok m
               /\ Money_amount m = rounded_to_2_decimals a /\ Money_currency m = c)
  /\ (forall amount currency, negative_or_not_finite amount ->
        exists msg, Money_new amount currency = Throw (ValidationError msg))
  /\ (forall amount currency, instanceof_Currency currency = false ->
        exists msg, Money_new amount currency = Throw (ValidationError msg)).
Proof.
  repeat split.
  - intros a c Hv Hfn. eexists. rewrite Money_new_ok by assumption. repeat split.
  - intros amount currency H. destruct amount; try (eexists; reflexivity).
    cbn [negative_or_not_finite] in H. eexists. apply Money_new_rejects.
    unfold finite_nonneg. destruct H as [-> | ->]; [reflexivity | apply andb_false_r].
  - intros amount currency H. unfold Money_new.
    destruct amount; try (eexists; reflexivity).
    destruct (negb (is_finite x) || ltb x zero); [eexists; reflexivity |].
    destruct currency; try discriminate; eexists; reflexivity.
Qed.

Lemma Money_new_rounds_amount_witness :
  (exists m, Money_new (VNumber (of_decimal false 125 (- 3))) (VCurrency USD) = Ok m
             /\ Money_amount m = rounded_to_2_decimals (of_decimal false 125 (- 3))
             /\ Money_currency m = USD)
  /\ rounded_to_2_decimals (of_decimal false 125 (- 3)) = of_decimal false 13 (- 2)
  /\ (exists msg, Money_new (VNumber (of_decimal true 1 0)) (VCurrency USD)
                  = Throw (ValidationError msg))
  /\ (exists msg, Money_new (VNumber (of_Z 5)) (VString (lit "USD"))
                  = Throw (ValidationError msg)).
Proof.
  destruct Money_new_rounds_amount as (Hok & Hbad & Hcur).
  split; [| split; [| split]].
  - apply Hok; vm_compute; reflexivity.
  - vm_compute. reflexivity.
  - apply Hbad. right. vm_compute. reflexivity.
  - apply Hcur. reflexivity.
Defined.

(** C5 (as amended). [add] fails with ValidationError exactly when [other] is
    not a Money with a currency equal (by [equals]) to the receiver's, or when
    the sum of the two stored amounts is not finite: it overflows the range
    of the numbers and the constructor rejects it.  When [add] returns, the
    result is a new Money whose amount is that sum rounded to two decimal
    places and whose currency is the receiver's.  Money instances are
    immutable records here, as [add] assigns to no field of either operand. *)
Theorem Money_add_spec (this : Money) (other : value) :
  built this -> (forall o, other = VMoney o -> built o) ->
  ((exists msg, Money_add this other = Throw (ValidationError msg))
   <-> (~ same_currency_Money this other
        \/ exists o, other = VMoney o
                     /\ is_finite (add (Money_amount this) (Money_amount o)) = false))
  /\ (forall r, Money_add this other = Ok r ->
        exists o, other = VMoney o
          /\ Money_amount r
             = rounded_to_2_decimals (add (Money_amount this) (Money_amount o))
          /\ Money_currency r = Money_currency this
          /\ Currency_equals (Money_currency r) (VCurrency (Money_currency this)) = true
          /\ built r).
Proof.
  intros Ht Ho.
  assert (Hnot : forall v, (forall o, v <> VMoney o) ->
            Money_add this v
            = Throw (ValidationError (lit "Can only add Money with the same currency"))).
  { intros v Hv. destruct v; try reflexivity. now destruct (Hv m). }
  destruct other as [| | b | x | s | c | o | i | p | str];
    try (split;
         [ split; [intros _; left; intros (o & E & _); discriminate E | intros _; eexists; reflexivity]
         | intros r E; discriminate E ]).
  specialize (Ho o eq_refl).
  destruct (Currency_equals (Money_currency this) (VCurrency (Money_currency o))) eqn:Heq.
  - destruct (Money_add_same_currency this o Ht Ho Heq) as [[Hf E] | [Hf E]]; rewrite E.
    + split.
      * split; [intros (msg & D); discriminate D |].
        intros [Hn | (o' & Eo & Hinf)].
        -- exfalso. apply Hn. exists o. auto.
        -- injection Eo as <-. congruence.
      * intros r Er. injection Er as <-. exists o. cbn [Money_amount Money_currency].
        destruct (built_ok this Ht) as [Vt Nt]. destruct (built_ok o Ho) as [Vo No].
        repeat split.
        -- unfold Currency_equals. apply jsstring_eqb_refl.
        -- apply built_intro; [now apply add_valid | now apply add_nonneg].
    + split.
      * split; [| intros _; eexists; reflexivity].
        intros _. right. exists o. auto.
      * intros r Er. discriminate Er.
  - unfold Money_add. rewrite Heq. cbn [negb]. split.
    + split; [| intros _; eexists; reflexivity].
      intros _. left. intros (o' & Eo & He). injection Eo as <-. congruence.
    + intros r Er. discriminate Er.
Qed.

Lemma Money_add_spec_witness :
  (exists r, Money_add {| Money_amount := of_Z 100; Money_currency := USD |}
                       (VMoney {| Money_amount := of_Z 50; Money_currency := USD |}) = Ok r
             /\ Money_amount r = of_Z 150)
  /\ (exists msg, Money_add {| Money_amount := of_Z 100; Money_currency := USD |}
                            (VMoney {| Money_amount := of_Z 50; Money_currency := EUR |})
                  = Throw (ValidationError msg))
  /\ (exists msg, Money_add big_money (VMoney big_money) = Throw (ValidationError msg)).
Proof.
  assert (B100 : built {| Money_amount := of_Z 100; Money_currency := USD |}).
  { exists (of_Z 100), USD. split; vm_compute; reflexivity. }
  assert (B50 : forall c, built {| Money_amount := of_Z 50; Money_currency := c |}).
  { intro c. exists (of_Z 50), c. split; vm_compute; reflexivity. }
  assert (Bbig : built big_money).
  { exists (of_decimal false 1 308), USD. split; vm_compute; reflexivity. }
  split; [| split].
  - destruct (Money_add {| Money_amount := of_Z 100; Money_currency := USD |}
                (VMoney {| Money_amount := of_Z 50; Money_currency := USD |})) as [r | e] eqn:E.
    + exists r. split; [reflexivity |].
      destruct (proj2 (Money_add_spec _ _ B100 (built_value _ (B50 USD))) r E)
        as (o & Eo & Ha & _).
      injection Eo as <-. rewrite Ha. vm_compute. reflexivity.
    + vm_compute in E. discriminate E.
  - apply (proj1 (Money_add_spec _ _ B100 (built_value _ (B50 EUR)))).
    left. intros (o & Eo & He). injection Eo as <-. vm_compute in He. discriminate He.
  - apply (proj1 (Money_add_spec _ _ Bbig (built_value _ Bbig))).
    right. exists big_money. split; [reflexivity | vm_compute; reflexivity].
Defined.

(** C5 (counterexample). The receiver and [other] are Money of 1e308 USD:
    [other] is a Money with the receiver's currency, and [add] fails with
    ValidationError all the same, the sum being Infinity. *)
Lemma Money_add_overflow :
  Money_new (VNumber (of_decimal false 1 308)) (VCurrency USD) = Ok big_money
  /\ ~ ((exists msg, Money_add big_money (VMoney big_money) = Throw (ValidationError msg))
        <-> ~ same_currency_Money big_money (VMoney big_money)).
Proof.
  split; [vm_compute; reflexivity |].
  intros [H _]. apply H.
  - exists (lit "Amount must be a positive number"). vm_compute. reflexivity.
  - exists big_money. split; [reflexivity | vm_compute; reflexivity].
Qed.

(** C6 (as amended). [multiply] fails with ValidationError exactly when the
    multiplier is negative, not finite or not a number, or when the product of
    the stored amount and the multiplier is not finite (it overflows).  When
    it returns, the result is a new Money with the product rounded to two
    decimal places and the receiver's currency; multiplying by zero gives the
    amount 0, and Money(100, USD).multiply(2) equals Money(200, USD). *)
Theorem Money_multiply_spec (this : Money) (multiplier : value) :
  built this -> (forall k, multiplier = VNumber k -> is_double k = true) ->
  ((exists msg, Money_multiply this multiplier = Throw (ValidationError msg))
   <-> (negative_or_not_finite multiplier
        \/ exists k, multiplier = VNumber k
                     /\ is_finite (mul (Money_amount this) k) = false))
  /\ (forall r, Money_multiply this multiplier = Ok r ->
        exists k, multiplier = VNumber k
          /\ Money_amount r = rounded_to_2_decimals (mul (Money_amount this) k)
          /\ Money_currency r = Money_currency this
          /\ built r)
  /\ (forall s, multiplier = VNumber (S754_zero s) ->
        Money_multiply this multiplier
        = Ok {| Money_amount := zero; Money_currency := Money_currency this |})
  /\ (exists r, Money_multiply {| Money_amount := of_Z 100; Money_currency := USD |}
                               (VNumber (of_Z 2)) = Ok r
                /\ Money_equals r (VMoney {| Money_amount := of_Z 200; Money_currency := USD |})
                   = true).
Proof.
  intros Ht Hk. destruct (built_ok this Ht) as [Vt Nt].
  split; [| split; [| split]].
  - destruct multiplier as [| | b | k | s | c | o | i | p | str];
      try (split; [intros _; left; exact I | intros _; eexists; reflexivity]).
    specialize (Hk k eq_refl). cbn [negative_or_not_finite].
    destruct (finite_nonneg k) eqn:Hn.
    + pose proof Hn as Hn'. apply finite_nonneg_iff in Hn' as [Hf Hlt].
      destruct (Money_multiply_number this k Ht Hk Hn) as [[Hp E] | [Hp E]]; rewrite E.
      * split; [intros (msg & D); discriminate D |].
        intros [[H | H] | (k' & Ek & Hinf)]; congruence.
      * split; [| intros _; eexists; reflexivity].
        intros _. right. exists k. auto.
    + split.
      * intros _. left. unfold finite_nonneg in Hn.
        destruct (is_finite k); [right | left; reflexivity].
        cbn [andb] in Hn. now apply negb_false_iff in Hn.
      * intros _. unfold Money_multiply, finite_nonneg in *.
        destruct (is_finite k); cbn [andb negb orb] in *; [| eexists; reflexivity].
        apply negb_false_iff in Hn. rewrite Hn. eexists; reflexivity.
  - intros r Er. destruct multiplier as [| | b | k | s | c | o | i | p | str];
      try discriminate Er.
    specialize (Hk k eq_refl). exists k. split; [reflexivity |].
    destruct (finite_nonneg k) eqn:Hn.
    + destruct (Money_multiply_number this k Ht Hk Hn) as [[Hp E] | [Hp E]];
        rewrite E in Er; [| discriminate Er].
      injection Er as <-. cbn [Money_amount Money_currency]. repeat split.
      apply built_intro; [now apply mul_valid | now apply mul_nonneg].
    + exfalso. unfold Money_multiply, finite_nonneg in *.
      destruct (is_finite k); cbn [andb negb orb] in *; [| discriminate Er].
      apply negb_false_iff in Hn. rewrite Hn in Er. discriminate Er.
  - intros s ->. unfold Money_multiply. cbn [is_finite negb orb].
    change (ltb (S754_zero s) zero) with false. cbv iota.
    destruct (finite_nonneg_cases _ Nt) as [[t E] | (m & e & E)]; rewrite E; unfold mul;
      cbn [SFmul]; destruct s; try destruct t; vm_compute; reflexivity.
  - exists {| Money_amount := of_Z 200; Money_currency := USD |}.
    split; vm_compute; reflexivity.
Qed.

Lemma Money_multiply_spec_witness :
  (exists msg, Money_multiply big_money (VNumber (of_Z 10)) = Throw (ValidationError msg))
  /\ (exists msg, Money_multiply big_money (VNumber (of_decimal true 1 0))
                  = Throw (ValidationError msg))
  /\ Money_multiply big_money (VNumber (S754_zero false))
     = Ok {| Money_amount := zero; Money_currency := USD |}.
Proof.
  assert (Bbig : built big_money).
  { exists (of_decimal false 1 308), USD. split; vm_compute; reflexivity. }
  assert (Hk : forall x, is_double x = true -> forall k, VNumber x = VNumber k -> is_double k = true).
  { intros x Hx k E. injection E as <-. exact Hx. }
  split; [| split].
  - apply (proj1 (Money_multiply_spec big_money (VNumber (of_Z 10)) Bbig (Hk (of_Z 10) eq_refl))).
    right. exists (of_Z 10). split; [reflexivity | vm_compute; reflexivity].
  - apply (proj1 (Money_multiply_spec big_money (VNumber (of_decimal true 1 0)) Bbig
                    (Hk (of_decimal true 1 0) eq_refl))).
    left. right. vm_compute. reflexivity.
  - apply (proj1 (proj2 (proj2 (Money_multiply_spec big_money (VNumber (S754_zero false)) Bbig
                                  (Hk (S754_zero false) eq_refl)))) false eq_refl).
Defined.

(** C6 (counterexample). Multiplying a Money of 1e308 USD by 10: the
    multiplier is finite and not negative, and [multiply] fails with
    ValidationError, the product being Infinity. *)
Lemma Money_multiply_overflow :
  Money_new (VNumber (of_decimal false 1 308)) (VCurrency USD) = Ok big_money
  /\ ~ ((exists msg, Money_multiply big_money (VNumber (of_Z 10)) = Throw (ValidationError msg))
        <-> negative_or_not_finite (VNumber (of_Z 10))).
Proof.
  split; [vm_compute; reflexivity |].
  intros [H _]. destruct H as [H | H].
  - exists (lit "Amount must be a positive number"). vm_compute. reflexivity.
  - vm_compute in H. discriminate H.
  - vm_compute in H. discriminate H.
Qed.

(** C7. Construction succeeds for each of the codes USD, EUR, GBP and JPY and
    the [code] accessor returns the code given; for every other string it
    fails with ValidationError. *)
Theorem Currency_new_valid_codes (s : jsstring) :
  VALID_CODES = [lit "USD"; lit "EUR"; lit "GBP"; lit "JPY"]
  /\ (In s VALID_CODES ->
      exists c, Currency_new (VString s) = Ok c /\ Currency_code c = s)
  /\ (~ In s VALID_CODES ->
      Currency_new (VString s) = Throw (ValidationError (lit "Invalid currency code: " ++ s))).
Proof.
  split; [reflexivity |]. unfold Currency_new. split; intro H.
  - apply VALID_CODES_includes_In in H. rewrite H.
    exists {| Currency_code := s |}. split; reflexivity.
  - destruct (VALID_CODES_includes (VString s)) eqn:E; [| reflexivity].
    apply VALID_CODES_includes_In in E. contradiction.
Qed.

Lemma Currency_new_valid_codes_witness :
  (exists c, Currency_new (VString (lit "EUR")) = Ok c /\ Currency_code c = lit "EUR")
  /\ Currency_new (VString (lit "XXX"))
     = Throw (ValidationError (lit "Invalid currency code: " ++ lit "XXX")).
Proof.
  split.
  - apply (proj1 (proj2 (Currency_new_valid_codes (lit "EUR")))).
    right; left; reflexivity.
  - apply (proj2 (proj2 (Currency_new_valid_codes (lit "XXX")))).
    intro H. repeat (destruct H as [H | H]; [discriminate H |]). exact H.
Defined.

(** C8. For every UUID string accepted by both constructors, the SupplierId and
    the ProductId built from it are never equal, in either direction. *)
Theorem SupplierId_ProductId_distinct (u : jsstring) :
  isValidUUID (VString u) = true ->
  exists s p,
    SupplierId_new (VString u) = Ok s /\ ProductId_new (VString u) = Ok p
    /\ SupplierId_value s = u /\ ProductId_value p = u
    /\ SupplierId_equals s (VProductId p) = false
    /\ ProductId_equals p (VSupplierId s) = false.
Proof.
  intro H. exists {| SupplierId_value := u |}, {| ProductId_value := u |}.
  rewrite (SupplierId_new_valid u H), (ProductId_new_valid u H). repeat split.
Qed.

Lemma SupplierId_ProductId_distinct_witness :
  exists s p,
    SupplierId_new (VString sample_uuid) = Ok s /\ ProductId_new (VString sample_uuid) = Ok p
    /\ SupplierId_value s = sample_uuid /\ ProductId_value p = sample_uuid
    /\ SupplierId_equals s (VProductId p) = false
    /\ ProductId_equals p (VSupplierId s) = false.
Proof. apply (SupplierId_ProductId_distinct sample_uuid). vm_compute. reflexivity. Defined.

(** C9. Whatever bytes the random source delivers, [SupplierId.generate()]
    returns an identifier, and its value is accepted again by the
    constructor, giving back the same identifier. *)
Theorem SupplierId_generate_roundtrip (rng : nat -> Byte.byte) :
  exists i,
    SupplierId_generate rng = Ok i
    /\ SupplierId_value i = generateUUID rng
    /\ SupplierId_new (VString (SupplierId_value i)) = Ok i.
Proof.
  exists {| SupplierId_value := generateUUID rng |}. unfold SupplierId_generate.
  rewrite (SupplierId_new_valid _ (isValidUUID_generate rng)).
  cbn [SupplierId_value].
  rewrite (SupplierId_new_valid _ (isValidUUID_generate rng)). repeat split.
Qed.

(** C10. An assignment to [contactEmail], whether it succeeds or throws,
    leaves [id], [name] and [lastOrderTotalPrice] as they were; an assignment
    to [lastOrderTotalPrice] leaves [id], [name] and [contactEmail] as they
    were; and after any run of assignments [id] and [name] are still the
    values given to the constructor. *)
Theorem Supplier_setters_frame (p : SupplierParams) (this : Supplier) :
  Supplier_new p = Ok this ->
  (forall v, let this' := snd (Supplier_set_contactEmail v this) in
     Supplier_id this' = Supplier_id this
     /\ Supplier_name this' = Supplier_name this
     /\ Supplier_lastOrderTotalPrice this' = Supplier_lastOrderTotalPrice this)
  /\ (forall v, let this' := snd (Supplier_set_lastOrderTotalPrice v this) in
     Supplier_id this' = Supplier_id this
     /\ Supplier_name this' = Supplier_name this
     /\ Supplier_contactEmail this' = Supplier_contactEmail this)
  /\ (forall l, VSupplierId (Supplier_id (run l this)) = id p
                /\ VString (Supplier_name (run l this)) = name p).
Proof.
  intro Hnew. split; [| split].
  - intros v this'. subst this'. unfold Supplier_set_contactEmail.
    destruct (is_null v || negb (isValidEmail v)); repeat split.
  - intros v this'. subst this'. unfold Supplier_set_lastOrderTotalPrice.
    destruct (instanceof_Money (js_not v)); repeat split.
  - intro l. destruct (run_frame l this) as [H1 H2].
    destruct (Supplier_new_fields p this Hnew) as [H3 H4]. split; congruence.
Qed.

Lemma Supplier_setters_frame_witness :
  Supplier_new sample_params = Ok sample_built
  /\ Supplier_lastOrderTotalPrice
       (snd (Supplier_set_contactEmail (VString (lit "bad-email")) sample_built)) = VNull
  /\ Supplier_contactEmail
       (snd (Supplier_set_lastOrderTotalPrice (VBoolean true) sample_built))
     = VString (lit "sales@acme.com")
  /\ VString (Supplier_name
                (run [SetContactEmail VNull; SetLastOrderTotalPrice (VString (lit "x"));
                      SetContactEmail (VString (lit "ops@acme.com"))] sample_built))
     = VString (lit "Acme Corp").
Proof.
  assert (Hnew : Supplier_new sample_params = Ok sample_built) by (vm_compute; reflexivity).
  pose proof (Supplier_setters_frame sample_params sample_built Hnew) as (He & Hp & Hr).
  split; [exact Hnew |]. split; [| split].
  - exact (proj2 (proj2 (He (VString (lit "bad-email"))))).
  - exact (proj2 (proj2 (Hp (VBoolean true)))).
  - exact (proj2 (Hr _)).
Defined.

(** * Further properties *)

(** X1. Every Money a program can obtain, from the constructor, [add] or
    [multiply], holds as its amount a well-formed number that is zero or
    positive and finite (never NaN, an infinity, a negative number or the
    negative zero) and that is the number written with two decimals for some
    number of hundredths; its currency has one of the four valid codes; and
    it could have come from the constructor directly. *)
Theorem Money_invariant_kept (m : Money) :
  made m ->
  Money_invariant m /\ In (Currency_code (Money_currency m)) VALID_CODES /\ built m.
Proof.
  intro H. pose proof (made_currency m H) as Hc. apply made_built in H.
  split; [now apply built_invariant |]. split; assumption.
Qed.

Lemma Money_invariant_kept_witness :
  Money_invariant (in_cents 26 USD)
  /\ In (Currency_code (Money_currency (in_cents 26 USD))) VALID_CODES
  /\ built (in_cents 26 USD).
Proof.
  apply Money_invariant_kept.
  apply (made_multiply (in_cents 13 USD) (of_Z 2)).
  - apply (made_add (in_cents 10 USD) (in_cents 3 USD)).
    + apply (made_new (cents 10) (VString (lit "USD")) USD); vm_compute; reflexivity.
    + apply (made_new (cents 3) (VString (lit "USD")) USD); vm_compute; reflexivity.
    + vm_compute. reflexivity.
  - vm_compute. reflexivity.
  - vm_compute. reflexivity.
Defined.



(** X3. Rounding twice changes nothing, up to the limit: a Money built from an
    amount of at most a million millions is built again, the same, from its
    own [amount] and [currency], and its amount is the number written with
    two decimals for the hundredths of the amount given. *)
Theorem Money_new_idempotent (a : number) (c : Currency) (m : Money) :
  is_double a = true -> hundredths a <= cents_limit ->
  Money_new (VNumber a) (VCurrency c) = Ok m ->
  m = in_cents (hundredths a) c
  /\ hundredths (Money_amount m) = hundredths a
  /\ Money_new (VNumber (Money_amount m)) (VCurrency (Money_currency m)) = Ok m.
Proof.
  intros Dv Hh Hnew. pose proof (hundredths_nonneg a) as H0.
  destruct (finite_nonneg a) eqn:Hfn.
  - rewrite (Money_new_hundredths a c (hundredths a) Dv Hfn eq_refl) in Hnew.
    injection Hnew as <-. split; [reflexivity |]. simpl.
    split; [apply hundredths_cents; lia | apply Money_new_cents; lia].
  - rewrite Money_new_rejects in Hnew by assumption. discriminate.
Qed.

Lemma Money_new_idempotent_witness :
  in_cents 13 USD = in_cents (hundredths (of_decimal false 125 (- 3))) USD
  /\ hundredths (Money_amount (in_cents 13 USD)) = hundredths (of_decimal false 125 (- 3))
  /\ Money_new (VNumber (Money_amount (in_cents 13 USD)))
               (VCurrency (Money_currency (in_cents 13 USD)))
     = Ok (in_cents 13 USD).
Proof.
  apply (Money_new_idempotent (of_decimal false 125 (- 3)) USD (in_cents 13 USD)).
  - vm_compute. reflexivity.
  - vm_compute. discriminate.
  - vm_compute. reflexivity.
Defined.

(** X4. [a.add(b)] and [b.add(a)] have the same outcome for all Money [a] and
    [b]: the same error, or a Money with the same amount and the same
    currency code. *)
Theorem Money_add_commutative (a b : Money) :
  Money_add a (VMoney b) = Money_add b (VMoney a).
Proof.
  unfold Money_add.
  destruct (Currency_equals (Money_currency a) (VCurrency (Money_currency b))) eqn:E.
  - apply Currency_equals_eq in E. rewrite <- E.
    replace (Currency_equals (Money_currency a) (VCurrency (Money_currency a))) with true
      by (symmetry; now apply Currency_equals_eq).
    cbn [negb]. rewrite add_comm. reflexivity.
  - destruct (Currency_equals (Money_currency b) (VCurrency (Money_currency a))) eqn:E';
      [| reflexivity].
    apply Currency_equals_eq in E'. symmetry in E'. apply Currency_equals_eq in E'. congruence.
Qed.

(** X5. Up to the limit [add] is exact in hundredths: the sum of the Money of
    [h1] hundredths and the Money of [h2] hundredths is the Money of
    [h1 + h2] hundredths, although the sum of the two amounts as numbers need
    not be the number written with two decimals ([0.1 + 0.2] is not
    [0.3]). *)
Theorem Money_add_exact (h1 h2 : Z) (c : Currency) :
  0 <= h1 -> 0 <= h2 -> h1 + h2 <= cents_limit ->
  Money_add (in_cents h1 c) (VMoney (in_cents h2 c)) = Ok (in_cents (h1 + h2) c).
Proof. apply Money_add_cents. Qed.

Lemma Money_add_exact_witness :
  Money_add (in_cents 10 USD) (VMoney (in_cents 20 USD)) = Ok (in_cents (10 + 20) USD)
  /\ add (cents 10) (cents 20) <> cents 30.
Proof.
  split.
  - apply (Money_add_exact 10 20 USD); [lia | lia | vm_compute; discriminate].
  - vm_compute. discriminate.
Defined.

(** X6. Up to the limit [multiply] by a whole number is exact in hundredths:
    the Money of [h] hundredths multiplied by the whole number [k] is the
    Money of [h * k] hundredths. *)
Theorem Money_multiply_exact (h k : Z) (c : Currency) :
  0 <= h <= cents_limit -> 0 <= k < 2 ^ 53 -> h * k <= cents_limit ->
  Money_multiply (in_cents h c) (VNumber (of_Z k)) = Ok (in_cents (h * k) c).
Proof. apply Money_multiply_cents. Qed.

Lemma Money_multiply_exact_witness :
  Money_multiply (in_cents 1999 EUR) (VNumber (of_Z 3)) = Ok (in_cents (1999 * 3) EUR).
Proof.
  apply (Money_multiply_exact 1999 3 EUR); [split | split |]; vm_compute; try discriminate.
  reflexivity.
Defined.

(** X7. Up to the limit the arithmetic of Money obeys the laws of whole
    numbers: [add] is associative, and [multiply] by a whole number
    distributes over [add]. *)
Theorem Money_arithmetic_laws (h1 h2 h3 k : Z) (c : Currency) :
  0 <= h1 -> 0 <= h2 -> 0 <= h3 -> 0 <= k < 2 ^ 53 ->
  h1 + h2 + h3 <= cents_limit -> (h1 + h2) * k <= cents_limit ->
  exists ab bc ak bk r s,
    Money_add (in_cents h1 c) (VMoney (in_cents h2 c)) = Ok ab
    /\ Money_add (in_cents h2 c) (VMoney (in_cents h3 c)) = Ok bc
    /\ Money_add ab (VMoney (in_cents h3 c)) = Ok r
    /\ Money_add (in_cents h1 c) (VMoney bc) = Ok r
    /\ Money_multiply (in_cents h1 c) (VNumber (of_Z k)) = Ok ak
    /\ Money_multiply (in_cents h2 c) (VNumber (of_Z k)) = Ok bk
    /\ Money_multiply ab (VNumber (of_Z k)) = Ok s
    /\ Money_add ak (VMoney bk) = Ok s.
Proof.
  intros H1 H2 H3 Hk Hs Hm.
  exists (in_cents (h1 + h2) c), (in_cents (h2 + h3) c), (in_cents (h1 * k) c),
    (in_cents (h2 * k) c), (in_cents (h1 + h2 + h3) c), (in_cents ((h1 + h2) * k) c).
  assert (0 <= h1 * k) by nia. assert (0 <= h2 * k) by nia.
  assert (h1 * k <= cents_limit) by nia. assert (h2 * k <= cents_limit) by nia.
  rewrite (Money_add_cents h1 h2) by lia. rewrite (Money_add_cents h2 h3) by lia.
  rewrite (Money_add_cents (h1 + h2) h3) by lia. rewrite (Money_add_cents h1 (h2 + h3)) by lia.
  rewrite (Money_multiply_cents h1 k) by (try split; lia).
  rewrite (Money_multiply_cents h2 k) by (try split; lia).
  rewrite (Money_multiply_cents (h1 + h2) k) by (try split; lia).
  rewrite (Money_add_cents (h1 * k) (h2 * k)) by lia.
  replace (h1 + (h2 + h3)) with (h1 + h2 + h3) by ring.
  replace (h1 * k + h2 * k) with ((h1 + h2) * k) by ring.
  repeat split.
Qed.

Lemma Money_arithmetic_laws_witness :
  exists ab bc ak bk r s,
    Money_add (in_cents 10 USD) (VMoney (in_cents 20 USD)) = Ok ab
    /\ Money_add (in_cents 20 USD) (VMoney (in_cents 30 USD)) = Ok bc
    /\ Money_add ab (VMoney (in_cents 30 USD)) = Ok r
    /\ Money_add (in_cents 10 USD) (VMoney bc) = Ok r
    /\ Money_multiply (in_cents 10 USD) (VNumber (of_Z 3)) = Ok ak
    /\ Money_multiply (in_cents 20 USD) (VNumber (of_Z 3)) = Ok bk
    /\ Money_multiply ab (VNumber (of_Z 3)) = Ok s
    /\ Money_add ak (VMoney bk) = Ok s.
Proof.
  apply (Money_arithmetic_laws 10 20 30 3 USD); try lia; try split; vm_compute;
    try discriminate; reflexivity.
Defined.

(** X8. On the Money a program can obtain, [equals] holds exactly between
    instances with the same amount and the same currency code: it is
    reflexive and symmetric there, and it is false of every argument that is
    not a Money. *)
Theorem Money_equals_identity (a b : Money) :
  made a -> made b ->
  (Money_equals a (VMoney b) = true <-> a = b)
  /\ Money_equals a (VMoney a) = true
  /\ Money_equals a (VMoney b) = Money_equals b (VMoney a)
  /\ (forall v, instanceof_Money v = false -> Money_equals a v = false).
Proof.
  intros Ha Hb.
  destruct (built_invariant a (made_built a Ha)) as (_ & Pa & _).
  destruct (built_invariant b (made_built b Hb)) as (_ & Pb & _).
  assert (Hiff : forall x y, plain_amount (Money_amount x) -> plain_amount (Money_amount y) ->
                   (Money_equals x (VMoney y) = true <-> x = y)).
  { intros x y Px Py. unfold Money_equals.
    rewrite andb_true_iff, (strict_eqb_plain _ _ Px Py), Currency_equals_eq.
    destruct x, y; simpl. split; [intros [-> ->] | intro E; injection E]; auto. }
  split; [now apply Hiff |]. split; [now apply Hiff |]. split.
  - destruct (Money_equals a (VMoney b)) eqn:E1, (Money_equals b (VMoney a)) eqn:E2; try reflexivity.
    + apply Hiff in E1; try assumption. symmetry in E1. apply Hiff in E1; try assumption. congruence.
    + apply Hiff in E2; try assumption. symmetry in E2. apply Hiff in E2; try assumption. congruence.
  - intros v Hv. destruct v; try reflexivity. discriminate Hv.
Qed.

Lemma Money_equals_identity_witness :
  (Money_equals (in_cents 150 USD) (VMoney (in_cents 150 EUR)) = true
   <-> in_cents 150 USD = in_cents 150 EUR)
  /\ Money_equals (in_cents 150 USD) (VMoney (in_cents 150 USD)) = true
  /\ Money_equals (in_cents 150 USD) (VMoney (in_cents 150 EUR))
     = Money_equals (in_cents 150 EUR) (VMoney (in_cents 150 USD))
  /\ Money_equals (in_cents 150 USD) (VNumber (cents 150)) = false.
Proof.
  assert (MU : made (in_cents 150 USD)).
  { apply (made_new (cents 150) (VString (lit "USD")) USD); vm_compute; reflexivity. }
  assert (ME : made (in_cents 150 EUR)).
  { apply (made_new (cents 150) (VString (lit "EUR")) EUR); vm_compute; reflexivity. }
  destruct (Money_equals_identity (in_cents 150 USD) (in_cents 150 EUR) MU ME)
    as (H1 & H2 & H3 & H4).
  split; [exact H1 |]. split; [exact H2 |]. split; [exact H3 |]. apply H4. reflexivity.
Defined.

(** X9. Up to the limit [equals] tells amounts apart to the hundredth: the
    Money of [h1] hundredths equals the Money of [h2] hundredths exactly when
    [h1 = h2] and the two currencies have the same code. *)
Theorem Money_equals_to_the_cent (h1 h2 : Z) (c1 c2 : Currency) :
  0 <= h1 <= cents_limit -> 0 <= h2 <= cents_limit ->
  (Money_equals (in_cents h1 c1) (VMoney (in_cents h2 c2)) = true <-> h1 = h2 /\ c1 = c2).
Proof.
  intros H1 H2. unfold Money_equals. simpl.
  rewrite andb_true_iff, (strict_eqb_plain _ _ (cents_plain h1 H1) (cents_plain h2 H2)).
  rewrite jsstring_eqb_eq. split.
  - intros [E Ec]. split; [now apply cents_inj |]. destruct c1, c2; simpl in Ec. congruence.
  - intros [-> ->]. split; reflexivity.
Qed.

Lemma Money_equals_to_the_cent_witness :
  Money_equals (in_cents 1000 USD) (VMoney (in_cents 1001 USD)) = true
  <-> 1000 = 1001 /\ USD = USD.
Proof.
  apply (Money_equals_to_the_cent 1000 1001 USD USD); split; vm_compute; discriminate.
Defined.

(** X10. The text of a Money that a program can obtain: for an amount below
    [1e21] it is the currency code, a space, and the amount in fixed notation
    with exactly two decimals, whose digits spell the hundredths of the
    amount; for an amount written with two decimals up to the limit, they
    spell that amount.  From [1e21] on, the amount is written as
    [Number::toString] writes it, and reads back as the amount. *)
Theorem Money_toString_format (m : Money) :
  made m ->
  (below_1e21 (Money_amount m) ->
   exists ip fp,
     Money_toString m = Currency_code (Money_currency m) ++ lit " " ++ ip ++ lit "." ++ fp
     /\ ip <> [] /\ all_digits ip /\ all_digits fp /\ List.length fp = 2%nat
     /\ val (ip ++ fp) = hundredths (Money_amount m)
     /\ (forall h, 0 <= h <= cents_limit -> Money_amount m = cents h -> val (ip ++ fp) = h))
  /\ (~ below_1e21 (Money_amount m) ->
      Money_toString m
      = Currency_code (Money_currency m) ++ lit " " ++ Number_toString (Money_amount m)
      /\ StringToNumber (Number_toString (Money_amount m)) = Money_amount m).
Proof.
  intro Hm. apply made_built, built_ok in Hm as [Dv Hfn].
  pose proof Hfn as Hfn'. apply finite_nonneg_iff in Hfn' as [Hf Hlt].
  unfold Money_toString. split.
  - intro Hs. destruct (toFixed2_layout _ Hf Hlt Hs) as (ip & fp & E & H1 & H2 & H3 & H4 & H5).
    exists ip, fp. rewrite E. split; [reflexivity |]. repeat (split; [assumption |]).
    intros h Hh Eh. rewrite H5, Eh. now apply hundredths_cents.
  - intro Hl. unfold below_1e21 in Hl. apply Z.nlt_ge in Hl.
    destruct (nonneg_cases _ Hf Hlt) as [[s E] | (mm & e & E)]; rewrite E in *.
    + cbn [mag_num mag_den] in Hl. lia.
    + split; [| now apply Number_toString_roundtrip].
      unfold toFixed. replace (10 ^ 21 * mag_den (S754_finite false mm e)
                               <=? mag_num (S754_finite false mm e)) with true
        by (symmetry; apply Z.leb_le; exact Hl).
      reflexivity.
Qed.

Lemma Money_toString_format_witness :
  exists ip fp,
    Money_toString (in_cents 1050 USD) = lit "USD" ++ lit " " ++ ip ++ lit "." ++ fp
    /\ val (ip ++ fp) = 1050.
Proof.
  assert (M : made (in_cents 1050 USD)).
  { apply (made_new (cents 1050) (VString (lit "USD")) USD); vm_compute; reflexivity. }
  destruct (proj1 (Money_toString_format (in_cents 1050 USD) M))
    as (ip & fp & E & _ & _ & _ & _ & _ & H).
  - vm_compute. reflexivity.
  - exists ip, fp. split; [exact E |]. apply H; [| reflexivity].
    split; vm_compute; discriminate.
Defined.



(** X12. Two currencies that came out of the constructor are [equals] exactly
    when they were constructed from the same code; [equals] is reflexive and
    symmetric on them, and a Currency never equals its own code string. *)
Theorem Currency_equals_constructed (u v : value) (a b : Currency) :
  Currency_new u = Ok a -> Currency_new v = Ok b ->
  (Currency_equals a (VCurrency b) = true <-> u = v)
  /\ Currency_equals a (VCurrency a) = true
  /\ Currency_equals a (VCurrency b) = Currency_equals b (VCurrency a)
  /\ Currency_equals a u = false.
Proof.
  intros Ha Hb. apply Currency_new_inv in Ha as (s & -> & _ & ->).
  apply Currency_new_inv in Hb as (t & -> & _ & ->).
  unfold Currency_equals. simpl. split; [| split; [| split]].
  - rewrite jsstring_eqb_eq. split; congruence.
  - apply jsstring_eqb_refl.
  - destruct (JsString.eqb s t) eqn:E1, (JsString.eqb t s) eqn:E2; try reflexivity.
    + apply jsstring_eqb_eq in E1. subst. now rewrite jsstring_eqb_refl in E2.
    + apply jsstring_eqb_eq in E2. subst. now rewrite jsstring_eqb_refl in E1.
  - reflexivity.
Qed.

Lemma Currency_equals_constructed_witness :
  (Currency_equals USD (VCurrency EUR) = true <-> VString (lit "USD") = VString (lit "EUR"))
  /\ Currency_equals USD (VCurrency USD) = true
  /\ Currency_equals USD (VCurrency EUR) = Currency_equals EUR (VCurrency USD)
  /\ Currency_equals USD (VString (lit "USD")) = false.
Proof.
  apply (Currency_equals_constructed (VString (lit "USD")) (VString (lit "EUR")) USD EUR);
    vm_compute; reflexivity.
Defined.

(** X13. [isValidEmail] accepts a value exactly when its string conversion reads
    [a@b.c] with [a], [b] and [c] non-empty and free of white space and of
    [@]. *)
Theorem isValidEmail_accepts (v : value) :
  isValidEmail v = true <->
  exists a b c, ToString v = email_text a b c
                /\ email_part a /\ email_part b /\ email_part c.
Proof. rewrite isValidEmail_ToString. apply isValidEmail_shape. Qed.

Lemma isValidEmail_accepts_witness :
  isValidEmail (VString (lit "sales@acme.com")) = true.
Proof.
  apply (proj2 (isValidEmail_accepts (VString (lit "sales@acme.com")))).
  exists (lit "sales"), (lit "acme"), (lit "com"). split; [reflexivity |].
  repeat split; try discriminate; repeat constructor.
Defined.

(** X14. A string accepted by [isValidEmail] has exactly one [@], no white
    space, a dot after the [@], and at least five characters. *)
Theorem isValidEmail_necessary (s : jsstring) :
  isValidEmail (VString s) = true ->
  count_occ N.eq_dec s 64%N = 1%nat
  /\ Forall (fun c => is_space c = false) s
  /\ (exists l r, s = l ++ 64%N :: r /\ In 46%N r)
  /\ 5 <= JsString.length s.
Proof.
  intro H. pose proof (isValidEmail_no_space _ H) as Hsp. cbn [ToString] in Hsp.
  apply isValidEmail_shape in H as (a & b & c & -> & Ha & Hb & Hc).
  split; [| split; [exact Hsp | split]].
  - rewrite !count_occ_app.
    rewrite (proj1 (count_occ_not_In N.eq_dec a 64%N) (email_part_no_at a Ha)).
    rewrite (proj1 (count_occ_not_In N.eq_dec b 64%N) (email_part_no_at b Hb)).
    rewrite (proj1 (count_occ_not_In N.eq_dec c 64%N) (email_part_no_at c Hc)).
    reflexivity.
  - exists a, (b ++ [46%N] ++ c). split; [reflexivity |].
    apply in_or_app. right. now left.
  - apply email_part_length in Ha, Hb, Hc. unfold JsString.length.
    rewrite !length_app. cbn [List.length]. lia.
Qed.

Lemma isValidEmail_necessary_witness :
  count_occ N.eq_dec (lit "sales@acme.com") 64%N = 1%nat
  /\ Forall (fun c => is_space c = false) (lit "sales@acme.com")
  /\ (exists l r, lit "sales@acme.com" = l ++ 64%N :: r /\ In 46%N r)
  /\ 5 <= JsString.length (lit "sales@acme.com").
Proof. apply (isValidEmail_necessary (lit "sales@acme.com")). vm_compute. reflexivity. Defined.

(** X15. [isValidEmail] rejects undefined, null, every boolean, every number,
    every Currency and every Money, so assigning one of them to [contactEmail]
    throws and changes nothing. *)
Theorem isValidEmail_rejects_non_text (v : value) (this : Supplier) :
  match v with
  | VUndefined | VNull | VBoolean _ | VNumber _ | VCurrency _ | VMoney _ => True
  | _ => False
  end ->
  isValidEmail v = false
  /\ Supplier_set_contactEmail v this = (Throw email_error, this).
Proof.
  intro Hv.
  assert (E : isValidEmail v = false).
  { destruct (isValidEmail v) eqn:E; [exfalso | reflexivity].
    pose proof (isValidEmail_has_at v E) as Hat.
    pose proof (isValidEmail_no_space v E) as Hsp. rewrite Forall_forall in Hsp.
    destruct v; try contradiction; cbn [ToString] in *.
    - vm_compute in E. discriminate E.
    - vm_compute in E. discriminate E.
    - destruct b; vm_compute in E; discriminate E.
    - now apply (Number_toString_no_at x).
    - vm_compute in E. discriminate E.
    - specialize (Hsp _ (Money_toString_space m)). discriminate Hsp. }
  split; [exact E |]. unfold Supplier_set_contactEmail. rewrite E, orb_true_r. reflexivity.
Qed.

Lemma isValidEmail_rejects_non_text_witness :
  isValidEmail (VNumber (of_decimal false 15 (- 1))) = false
  /\ Supplier_set_contactEmail (VNumber (of_decimal false 15 (- 1))) sample_supplier
     = (Throw email_error, sample_supplier).
Proof. apply (isValidEmail_rejects_non_text (VNumber (of_decimal false 15 (- 1)))). exact I. Defined.

(** X16. A SupplierId comes only from a string that is a valid UUID; [value] and
    [toString] both return that string unchanged, and constructing again from
    it gives the same identifier. *)
Theorem SupplierId_new_roundtrip (v : value) (i : SupplierId) :
  SupplierId_new v = Ok i ->
  v = VString (SupplierId_value i)
  /\ SupplierId_toString i = SupplierId_value i
  /\ isValidUUID (VString (SupplierId_toString i)) = true
  /\ SupplierId_new (VString (SupplierId_toString i)) = Ok i.
Proof.
  unfold SupplierId_new. destruct (isValidUUID v) eqn:E; [| discriminate].
  destruct v; try discriminate E. cbn [negb ToString]. intro H. injection H as <-.
  unfold SupplierId_toString. simpl. rewrite E. repeat split.
Qed.

Lemma SupplierId_new_roundtrip_witness :
  VString sample_uuid = VString (SupplierId_value sample_id)
  /\ SupplierId_toString sample_id = SupplierId_value sample_id
  /\ isValidUUID (VString (SupplierId_toString sample_id)) = true
  /\ SupplierId_new (VString (SupplierId_toString sample_id)) = Ok sample_id.
Proof.
  apply (SupplierId_new_roundtrip (VString sample_uuid) sample_id). vm_compute. reflexivity.
Defined.

(** X17. A ProductId comes only from a string that is a valid UUID; [value] and
    [toString] both return that string unchanged, and constructing again from
    it gives the same identifier. *)
Theorem ProductId_new_roundtrip (v : value) (p : ProductId) :
  ProductId_new v = Ok p ->
  v = VString (ProductId_value p)
  /\ ProductId_toString p = ProductId_value p
  /\ isValidUUID (VString (ProductId_toString p)) = true
  /\ ProductId_new (VString (ProductId_toString p)) = Ok p.
Proof.
  unfold ProductId_new. destruct (isValidUUID v) eqn:E; [| discriminate].
  destruct v; try discriminate E. cbn [negb ToString]. intro H. injection H as <-.
  unfold ProductId_toString. simpl. rewrite E. repeat split.
Qed.

Lemma ProductId_new_roundtrip_witness :
  VString sample_uuid = VString (ProductId_value {| ProductId_value := sample_uuid |})
  /\ ProductId_toString {| ProductId_value := sample_uuid |}
     = ProductId_value {| ProductId_value := sample_uuid |}
  /\ isValidUUID (VString (ProductId_toString {| ProductId_value := sample_uuid |})) = true
  /\ ProductId_new (VString (ProductId_toString {| ProductId_value := sample_uuid |}))
     = Ok {| ProductId_value := sample_uuid |}.
Proof.
  apply (ProductId_new_roundtrip (VString sample_uuid)). vm_compute. reflexivity.
Defined.

(** X18. Whatever bytes the random source delivers, [ProductId.generate()]
    returns an identifier, and its value is accepted again by the constructor,
    giving back the same identifier. *)
Theorem ProductId_generate_roundtrip (rng : nat -> Byte.byte) :
  exists p,
    ProductId_generate rng = Ok p
    /\ ProductId_value p = generateUUID rng
    /\ ProductId_new (VString (ProductId_toString p)) = Ok p.
Proof.
  exists {| ProductId_value := generateUUID rng |}. unfold ProductId_generate, ProductId_toString.
  rewrite (ProductId_new_valid _ (isValidUUID_generate rng)). simpl.
  rewrite (ProductId_new_valid _ (isValidUUID_generate rng)). repeat split.
Qed.

(** X19. Identifiers that came out of a constructor are [equals] exactly when
    they were constructed from the same string (letter case included);
    [equals] is reflexive on them, and an identifier never equals the string
    it was constructed from. *)
Theorem Id_equals_constructed (u v : value) :
  (forall a b, SupplierId_new u = Ok a -> SupplierId_new v = Ok b ->
     (SupplierId_equals a (VSupplierId b) = true <-> u = v)
     /\ SupplierId_equals a (VSupplierId a) = true
     /\ SupplierId_equals a u = false)
  /\ (forall a b, ProductId_new u = Ok a -> ProductId_new v = Ok b ->
     (ProductId_equals a (VProductId b) = true <-> u = v)
     /\ ProductId_equals a (VProductId a) = true
     /\ ProductId_equals a u = false).
Proof.
  split; intros a b Ha Hb.
  - unfold SupplierId_new in *.
    destruct (isValidUUID u) eqn:Eu; [| discriminate]. destruct u; try discriminate Eu.
    destruct (isValidUUID v) eqn:Ev; [| discriminate]. destruct v; try discriminate Ev.
    cbn [negb ToString] in *. injection Ha as <-. injection Hb as <-.
    unfold SupplierId_equals. simpl. rewrite jsstring_eqb_refl, jsstring_eqb_eq.
    repeat split; congruence.
  - unfold ProductId_new in *.
    destruct (isValidUUID u) eqn:Eu; [| discriminate]. destruct u; try discriminate Eu.
    destruct (isValidUUID v) eqn:Ev; [| discriminate]. destruct v; try discriminate Ev.
    cbn [negb ToString] in *. injection Ha as <-. injection Hb as <-.
    unfold ProductId_equals. simpl. rewrite jsstring_eqb_refl, jsstring_eqb_eq.
    repeat split; congruence.
Qed.

Lemma Id_equals_constructed_witness :
  ((SupplierId_equals sample_id
      (VSupplierId {| SupplierId_value := lit "550E8400-E29B-41D4-A716-446655440000" |}) = true
    <-> VString sample_uuid = VString (lit "550E8400-E29B-41D4-A716-446655440000"))
   /\ SupplierId_equals sample_id (VSupplierId sample_id) = true
   /\ SupplierId_equals sample_id (VString sample_uuid) = false)
  /\ ((ProductId_equals {| ProductId_value := sample_uuid |}
         (VProductId {| ProductId_value := sample_uuid |}) = true
       <-> VString sample_uuid = VString sample_uuid)
      /\ ProductId_equals {| ProductId_value := sample_uuid |}
           (VProductId {| ProductId_value := sample_uuid |}) = true
      /\ ProductId_equals {| ProductId_value := sample_uuid |} (VString sample_uuid) = false).
Proof.
  split.
  - apply (proj1 (Id_equals_constructed (VString sample_uuid)
                    (VString (lit "550E8400-E29B-41D4-A716-446655440000"))));
      vm_compute; reflexivity.
  - apply (proj2 (Id_equals_constructed (VString sample_uuid) (VString sample_uuid)));
      vm_compute; reflexivity.
Defined.

(** X20. The Supplier constructor returns exactly when [id] is a SupplierId,
    [name] a string of 2 to 100 characters and [contactEmail] absent, null or
    a string accepted by [isValidEmail]; the instance then holds the id and
    the name given, and the email and the price given with null in place of an
    absent one.  Nothing is asked of [lastOrderTotalPrice]. *)
Theorem Supplier_new_succeeds_iff (p : SupplierParams) (s : Supplier) :
  Supplier_new p = Ok s <->
  id p = VSupplierId (Supplier_id s) /\ name p = VString (Supplier_name s)
  /\ name_ok (Supplier_name s)
  /\ email_or_null (Supplier_contactEmail s)
  /\ Supplier_contactEmail s = default_null (contactEmail p)
  /\ Supplier_lastOrderTotalPrice s = default_null (lastOrderTotalPrice p).
Proof. apply Supplier_new_iff. Qed.

Lemma Supplier_new_succeeds_iff_witness :
  Supplier_new {| id := VSupplierId sample_id; name := VString (lit "Acme Corp");
                  contactEmail := VString (lit "sales@acme.com");
                  lastOrderTotalPrice := VString (lit "free") |}
  = Ok {| Supplier_id := sample_id; Supplier_name := lit "Acme Corp";
          Supplier_contactEmail := VString (lit "sales@acme.com");
          Supplier_lastOrderTotalPrice := VString (lit "free") |}.
Proof.
  apply Supplier_new_succeeds_iff. simpl.
  split; [reflexivity |]. split; [reflexivity |].
  split; [split; vm_compute; discriminate |].
  split; [| split; reflexivity].
  right. exists (lit "sales@acme.com"). split; [reflexivity | vm_compute; reflexivity].
Defined.

(** X21. The constructor's guards run in the order id, name, contactEmail: the
    first one that fails decides the error, whatever the later arguments are.
    The error of the fourth guard, on [lastOrderTotalPrice], is never
    thrown. *)
Theorem Supplier_new_errors (p : SupplierParams) :
  ((forall i, id p <> VSupplierId i) -> Supplier_new p = Throw id_error)
  /\ (forall i, id p = VSupplierId i ->
        (forall n, name p = VString n -> ~ name_ok n) ->
        Supplier_new p = Throw name_error)
  /\ (forall i n, id p = VSupplierId i -> name p = VString n -> name_ok n ->
        ~ email_or_null (default_null (contactEmail p)) ->
        Supplier_new p = Throw email_or_null_error)
  /\ Supplier_new p <> Throw price_or_null_error.
Proof.
  unfold Supplier_new. cbv zeta. split; [| split; [| split]].
  - intro H. destruct (id p); try reflexivity. now destruct (H i).
  - intros i -> H. destruct (name p) as [| | | | n | | | | |]; try reflexivity.
    destruct ((JsString.length n <? 2) || (100 <? JsString.length n)) eqn:E; [reflexivity |].
    apply name_ok_guard in E. now destruct (H n eq_refl).
  - intros i n -> -> Hn He. apply name_ok_guard in Hn. rewrite Hn.
    destruct (negb (is_null (default_null (contactEmail p))) && _) eqn:E; [reflexivity |].
    apply email_guard in E. contradiction.
  - assert (H1 : @Throw Supplier id_error <> Throw price_or_null_error)
      by (intro H; vm_compute in H; discriminate H).
    assert (H2 : @Throw Supplier name_error <> Throw price_or_null_error)
      by (intro H; vm_compute in H; discriminate H).
    assert (H3 : @Throw Supplier email_or_null_error <> Throw price_or_null_error)
      by (intro H; vm_compute in H; discriminate H).
    rewrite not_instanceof_Money_never, andb_false_r.
    destruct (id p); try exact H1. destruct (name p) as [| | | | n | | | | |]; try exact H2.
    destruct ((JsString.length n <? 2) || (100 <? JsString.length n)); [exact H2 |].
    destruct (negb (is_null (default_null (contactEmail p))) && _); [exact H3 | discriminate].
Qed.

Lemma Supplier_new_errors_witness :
  Supplier_new {| id := VString sample_uuid; name := VString (lit "A");
                  contactEmail := VString (lit "bad"); lastOrderTotalPrice := VNull |}
  = Throw id_error
  /\ Supplier_new {| id := VSupplierId sample_id; name := VString (lit "A");
                     contactEmail := VString (lit "bad"); lastOrderTotalPrice := VNull |}
     = Throw name_error
  /\ Supplier_new {| id := VSupplierId sample_id; name := VString (lit "Acme Corp");
                     contactEmail := VString (lit "bad"); lastOrderTotalPrice := VNull |}
     = Throw email_or_null_error.
Proof.
  split; [| split].
  - apply (proj1 (Supplier_new_errors _)). intros i E. discriminate E.
  - apply (proj1 (proj2 (Supplier_new_errors _)) sample_id); [reflexivity |].
    intros n E. injection E as <-. intros [H _]. vm_compute in H. now apply H.
  - apply (proj1 (proj2 (proj2 (Supplier_new_errors _))) sample_id (lit "Acme Corp"));
      [reflexivity | reflexivity | split; vm_compute; discriminate |].
    intros [E | (e & E & He)]; [discriminate E |].
    injection E as <-. vm_compute in He. discriminate He.
Defined.

(** X22. From construction on and through any run of assignments, the contact
    email is null or a value accepted by [isValidEmail]; once it is not null
    no assignment makes it null again; and while it is still null no
    assignment to it in the run has succeeded. *)
Theorem Supplier_contactEmail_invariant (p : SupplierParams) (s : Supplier)
    (l : list assignment) :
  Supplier_new p = Ok s ->
  (Supplier_contactEmail (run l s) = VNull
   \/ isValidEmail (Supplier_contactEmail (run l s)) = true)
  /\ (Supplier_contactEmail s <> VNull -> Supplier_contactEmail (run l s) <> VNull)
  /\ (Supplier_contactEmail (run l s) = VNull ->
      forall v, In (SetContactEmail v) l -> v = VNull \/ isValidEmail v = false).
Proof.
  intro Hnew. apply Supplier_new_iff in Hnew as (_ & _ & _ & He & _ & _).
  assert (H0 : Supplier_contactEmail s = VNull \/ isValidEmail (Supplier_contactEmail s) = true).
  { destruct He as [E | (e & E & V)]; [now left | right; now rewrite E]. }
  clear He. revert s H0.
  induction l as [| a l IH]; intros s H0.
  - cbn. split; [exact H0 |]. split; [auto |]. intros _ v [].
  - rewrite run_cons. destruct a as [v | v]; cbn [assign].
    + destruct (set_contactEmail_cases v s) as [(N & V & E) | [C E]]; rewrite E; cbn [snd].
      * match goal with |- context [run l ?t] =>
          destruct (IH t) as (I1 & I2 & I3); [right; exact V |] end.
        simpl in I2. split; [exact I1 |]. split; [intros _; now apply I2 |].
        intro Hn. now destruct (I2 N).
      * destruct (IH s H0) as (I1 & I2 & I3). split; [exact I1 |]. split; [exact I2 |].
        intros Hn w [Hw | Hw]; [injection Hw as <-; exact C | now apply I3].
    + rewrite set_lastOrderTotalPrice_eq. cbn [snd].
      match goal with |- context [run l ?t] =>
        destruct (IH t) as (I1 & I2 & I3); [exact H0 |] end.
      simpl in I2. split; [exact I1 |]. split; [exact I2 |].
      intros Hn w [Hw | Hw]; [discriminate Hw | now apply I3].
Qed.

Lemma Supplier_contactEmail_invariant_witness :
  (Supplier_contactEmail
     (run [SetContactEmail (VString (lit "ops@acme.com")); SetContactEmail VNull] sample_built)
   = VNull
   \/ isValidEmail
        (Supplier_contactEmail
           (run [SetContactEmail (VString (lit "ops@acme.com")); SetContactEmail VNull]
                sample_built)) = true)
  /\ Supplier_contactEmail
       (run [SetContactEmail (VString (lit "ops@acme.com")); SetContactEmail VNull] sample_built)
     <> VNull.
Proof.
  destruct (Supplier_contactEmail_invariant sample_params sample_built
              [SetContactEmail (VString (lit "ops@acme.com")); SetContactEmail VNull])
    as (H1 & H2 & _); [vm_compute; reflexivity |].
  split; [exact H1 |]. apply H2. discriminate.
Defined.

(** X23. The setter of [contactEmail] tests only the string conversion of its
    argument: an object that is not a string but converts to a valid email
    text is stored as it is, whereas the constructor throws whenever it is
    given that object as [contactEmail]. *)
Theorem Supplier_set_contactEmail_accepts_objects (str : jsstring) (this : Supplier) :
  isValidEmail (VString str) = true ->
  Supplier_set_contactEmail (VObject str) this
  = (Ok tt, {| Supplier_id := Supplier_id this; Supplier_name := Supplier_name this;
               Supplier_contactEmail := VObject str;
               Supplier_lastOrderTotalPrice := Supplier_lastOrderTotalPrice this |})
  /\ (forall p, contactEmail p = VObject str -> exists e, Supplier_new p = Throw e).
Proof.
  intro H. split.
  - destruct (set_contactEmail_cases (VObject str) this) as [(_ & _ & E) | [[C | C] _]];
      [exact E | discriminate C |].
    rewrite isValidEmail_ToString in C. cbn [ToString] in C. congruence.
  - intros p Hp. destruct (Supplier_new p) as [s | e] eqn:E; [exfalso | now exists e].
    apply Supplier_new_iff in E as (_ & _ & _ & He & Hs & _). rewrite Hp in Hs. simpl in Hs.
    rewrite Hs in He. destruct He as [C | (e & C & _)]; discriminate C.
Qed.

Lemma Supplier_set_contactEmail_accepts_objects_witness :
  Supplier_contactEmail
    (snd (Supplier_set_contactEmail (VObject (lit "sales@acme.com")) sample_supplier))
  = VObject (lit "sales@acme.com")
  /\ exists e,
       Supplier_new {| id := VSupplierId sample_id; name := VString (lit "Acme Corp");
                       contactEmail := VObject (lit "sales@acme.com");
                       lastOrderTotalPrice := VNull |} = Throw e.
Proof.
  destruct (Supplier_set_contactEmail_accepts_objects (lit "sales@acme.com") sample_supplier
              eq_refl) as [H1 H2].
  split; [rewrite H1; reflexivity | apply H2; reflexivity].
Defined.

(** X24. Assignments to the two properties do not interfere: any run of
    assignments leaves the aggregate as the run of its assignments to
    [contactEmail] followed by its assignments to [lastOrderTotalPrice]
    does. *)
Theorem Supplier_assignments_commute (l : list assignment) (s : Supplier) :
  run l s
  = run (filter to_contactEmail l ++ filter (fun a => negb (to_contactEmail a)) l) s.
Proof.
  assert (Hpast : forall le b t, Forall (fun a => to_contactEmail a = true) le ->
            to_contactEmail b = false ->
            run le (snd (assign b t)) = snd (assign b (run le t))).
  { induction le as [| a le IH]; intros b t Hle Hb; [reflexivity |].
    inversion Hle as [| ? ? Ha Hle']; subst. rewrite !run_cons.
    rewrite (assign_swap a b t Ha Hb). now apply IH. }
  revert s. induction l as [| a l IH]; intro s; [reflexivity |].
  rewrite run_cons, IH. cbn [filter]. destruct (to_contactEmail a) eqn:Ea; cbn [negb].
  - reflexivity.
  - rewrite !run_app, run_cons. f_equal. apply Hpast; [| exact Ea].
    apply Forall_forall. intros x Hx. now apply filter_In in Hx.
Qed.


